(** * PAPI high-level interface (papi_hl.c): region store, event resolver,
      report writer and lifecycle, as a shallow embedding.

    Conventions of the embedding.
    - [long_long] values are [Z] with the 64-bit two's complement
      wrap-around written out ([ll]); [int] counters that are only
      incremented are [Z] wrapped to 32 bits ([int_of]); array sizes and
      loop indices are [nat].
    - A C pointer that the code tests against NULL is an [option]; where
      the code reads [binary_tree], [requested_event_names] or the region
      list of a thread through a pointer it did not test, the modelled
      function returns [None] on NULL (no defined behaviour).  The
      thread-local buffers are read by [local_value]: the public operations
      test [_local_components] before they get there.  Reading an array cell
      that was never written yields the default of its type, and a write
      past the end of an array is dropped: neither happens while the arrays
      have the sizes the code allocates ([slots_consistent]).
    - Allocation ([malloc], [strdup], [realloc]) is assumed to succeed, so the
      PAPI_ENOMEM exits taken on a NULL result are not reachable here.
    - The singly owned doubly-linked lists (regions, read samples) are lists
      in [next] order, head first; walking [prev] links is walking a zipper.
    - The hardware layer and the C library are an oracle record
      ([papi_env]) given to every call; HIGHLEVEL_LOCK is not modelled: each
      call runs atomically. *)

From Stdlib Require Import ZArith Lia List String Ascii.
From stdpp Require Import base tactics option list strings pretty.

Local Open Scope Z_scope.

(** ** Machine integers *)

Definition wrap_signed (w x : Z) : Z := (x + 2 ^ (w - 1)) mod 2 ^ w - 2 ^ (w - 1).

(** [long_long] *)
Definition ll (x : Z) : Z := wrap_signed 64 x.
Definition ll_add (a b : Z) : Z := ll (a + b).
Definition ll_sub (a b : Z) : Z := ll (a - b).
Definition ll_range (x : Z) : Prop := - 2 ^ 63 <= x < 2 ^ 63.

(** [int] *)
Definition int_of (x : Z) : Z := wrap_signed 32 x.

(** ** Return codes of papi.h

    The code only compares return values with named codes (and once with the
    literal -9, the value of PAPI_ENOTRUN): an enumeration, with one
    constructor for the codes the file never names. *)
Inductive papi_retval : Type :=
| PAPI_OK | PAPI_EINVAL | PAPI_ENOMEM | PAPI_ESYS | PAPI_ENOTRUN
| PAPI_EISRUN | PAPI_EMISC | PAPI_ENOINIT | PAPI_ENOSUPP
| PAPI_EOTHER (code : Z).

#[global] Instance papi_retval_eq_dec : EqDecision papi_retval.
Proof. solve_decision. Defined.

Definition PAPIHL_ACTIVE : bool := true.
Definition PAPIHL_DEACTIVATED : bool := false.

(** ** Data model *)

(** An event set of the hardware layer: [None] is PAPI_NULL, [Some cs] a
    live set holding the event codes [cs] in the order they were added. *)
Definition eventset : Type := option (list Z).

Record components_t : Type := mk_component {
  component_id : Z;
  num_of_events : nat;
  max_num_of_events : nat;
  event_names : list string;
  event_codes : list Z;
  event_types : list Z;
  EventSet : eventset
}.

Record local_components_t : Type := mk_local_component {
  local_EventSet : eventset;
  values : list Z
}.

(** [value_t]; [read_values] is the list of [reads_t] nodes from the head
    along [next]: the newest sample first. *)
Record value_t : Type := mk_value {
  offset : Z;
  total : Z;
  read_values : list Z
}.

Record regions_t : Type := mk_region {
  region : string;
  region_values : list value_t
}.

Record threads_t : Type := mk_thread {
  key : Z;
  value : list regions_t
}.

Inductive region_type : Type := REGION_BEGIN | REGION_READ | REGION_END.

#[global] Instance region_type_eq_dec : EqDecision region_type.
Proof. solve_decision. Defined.

#[global] Instance value_t_inhabited : Inhabited value_t :=
  populate (mk_value 0 0 []).
#[global] Instance components_t_inhabited : Inhabited components_t :=
  populate (mk_component 0 0 0 [] [] [] None).
#[global] Instance local_components_t_inhabited : Inhabited local_components_t :=
  populate (mk_local_component None []).

(** ** Diagnostics

    Every [verbose_fprintf(stdout, ...)] of the file, by its format string
    and arguments. *)
Inductive diagnostic : Type :=
| Warn_no_matching_read (region : string) (tid : Z)
    (* Warning: Cannot find matching region for PAPI_hl_read *)
| Warn_no_matching_end (region : string) (tid : Z)
    (* Warning: Cannot find matching region for PAPI_hl_region_end *)
| Err_could_not_read (tid : Z)
    (* Error: Could not read counters for thread *)
| Err_could_not_store (tid : Z)
    (* Error: Could not store counters for thread *)
| Advice_check_regions
    (* Advice: Check if your regions are matching. *)
| Info_no_events_recorded
    (* Info: No events were recorded. *)
| Info_print_results
    (* Info: Print results... *)
| Warn_not_matching_regions
    (* Warning: Cannot generate output due to not matching regions. *)
| Err_cannot_create_directory
    (* Error: Cannot create measurement directory *)
| Err_cannot_create_output_file
    (* Error: Cannot create output file *)
| Err_list_threads_failed
    (* Error: PAPI_list_threads call failed! *)
| Err_stop_failed (retval : papi_retval)
    (* Error: PAPI_stop failed *)
| Err_cleanup_eventset_failed (retval : papi_retval)
    (* Error: PAPI_cleanup_eventset failed *)
| Err_destroy_eventset_failed (retval : papi_retval)
    (* Error: PAPI_destroy_eventset failed *)
| Info_output_deactivated
    (* Info: Output generation is deactivated! *)
| Warn_no_shutdown
    (* Warning: Could not call PAPI_shutdown() since some threads still have
       running event sets. ... *)
| Warn_not_supported (name : string)
    (* Warning: ... does not exist or is not supported on this machine. *)
| Warn_cannot_add (name : string) (component : Z) (combination : list string)
    (* Warning: Cannot add ... to component ...; the following event
       combination is not supported: ...; Advice: Use papi_event_chooser *)
| Err_cannot_create_eventset (component : Z)
    (* Error: Cannot create EventSet for component *)
| Err_assign_eventset_component_failed
| Err_set_multiplex_failed
| Info_using_events
    (* Info: Using the following events: *)
| Info_event (name : string)
    (* one line per event name *)
| Warn_all_requested_fail
    (* Warning: All requested events do not work, using default. *)
| Report_echo (content : list string)
    (* the report file copied to the standard output (PAPI_REPORT) *).

(** ** The environment: hardware layer and C library *)

Record papi_env : Type := mk_env {
  PAPI_thread_id : Z;
  PAPI_read : eventset -> list Z -> papi_retval * list Z;
  PAPI_read_ts : eventset -> list Z -> papi_retval * list Z * Z;
  PAPI_stop : eventset -> papi_retval;
  PAPI_cleanup_eventset : eventset -> papi_retval;
  PAPI_destroy_eventset : eventset -> papi_retval;
  PAPI_create_eventset : papi_retval;
  PAPI_event_name_to_code : string -> papi_retval * Z;
  PAPI_add_event : eventset -> Z -> papi_retval;
  PAPI_COMPONENT_INDEX : Z -> Z;
  PAPI_assign_eventset_component : eventset -> Z -> papi_retval;
  PAPI_get_multiplex : eventset -> bool;
  PAPI_set_multiplex : eventset -> papi_retval;
  (** retval and the thread ids the hardware layer knows *)
  PAPI_list_threads : papi_retval * list Z;
  (** [_papi_hwi_system_info.global_eventset_map]: per slot, the state word
      of the event set stored there, if any *)
  global_eventset_map : list (option Z);
  PAPI_get_opt_clockrate : Z;
  (** the bit PAPI_RUNNING of an event set's state word (papi.h) *)
  PAPI_RUNNING : Z;
  getenv : string -> option string;
  (** result of [_internal_hl_mkdir] on the output directory *)
  mkdir_output_directory : papi_retval;
  (** rank from the job-scheduler variables, -1 when there is none *)
  determine_rank : Z;
  fopen_succeeds : bool
}.

(** ** Program state *)

(** Event resolver and component registry. *)
Record registry : Type := mk_registry {
  components : list components_t;
  num_of_components : nat;
  max_num_of_components : nat;
  total_num_events : nat;
  requested_event_names : option (list (option string));
  num_of_requested_events : nat
}.

(** Region store: [binary_tree] is the set of thread nodes hanging from
    [binary_tree->root], [None] while the tree has not been allocated. *)
Record store : Type := mk_store {
  binary_tree : option (list threads_t);
  region_begin_cnt : Z;
  region_end_cnt : Z
}.

Record lifecycle : Type := mk_lifecycle {
  hl_initiated : bool;
  hl_finalized : bool;
  events_determined : bool;
  output_generated : bool;
  verbosity : Z;
  state : bool;
  master_thread_id : Z;
  num_of_cleaned_threads : Z
}.

(** What the program did to the outside: diagnostics printed, report files
    written (each the sequence of its [fprintf] outputs), whether
    PAPI_shutdown was called and whether the component arrays were freed. *)
Record effects : Type := mk_effects {
  stdout : list diagnostic;
  output_files : list (list string);
  papi_shutdown_called : bool;
  components_freed : bool
}.

Record globals : Type := mk_globals {
  reg : registry;
  sto : store;
  life : lifecycle;
  eff : effects
}.

(** Thread-local variables of the calling thread. *)
Record locals : Type := mk_locals {
  _local_components : option (list local_components_t);
  _local_cycles : Z;
  _local_state : bool;
  _local_region_begin_cnt : Z;
  _local_region_end_cnt : Z
}.

Definition set_reg (r : registry) (g : globals) : globals :=
  mk_globals r (sto g) (life g) (eff g).
Definition set_sto (s : store) (g : globals) : globals :=
  mk_globals (reg g) s (life g) (eff g).
Definition set_life (c : lifecycle) (g : globals) : globals :=
  mk_globals (reg g) (sto g) c (eff g).
Definition set_eff (e : effects) (g : globals) : globals :=
  mk_globals (reg g) (sto g) (life g) e.

Definition set_local_components (c : option (list local_components_t))
    (l : locals) : locals :=
  mk_locals c (_local_cycles l) (_local_state l) (_local_region_begin_cnt l)
    (_local_region_end_cnt l).
Definition set_local_cycles (c : Z) (l : locals) : locals :=
  mk_locals (_local_components l) c (_local_state l) (_local_region_begin_cnt l)
    (_local_region_end_cnt l).
Definition set_local_state (b : bool) (l : locals) : locals :=
  mk_locals (_local_components l) (_local_cycles l) b (_local_region_begin_cnt l)
    (_local_region_end_cnt l).
Definition set_local_region_begin_cnt (n : Z) (l : locals) : locals :=
  mk_locals (_local_components l) (_local_cycles l) (_local_state l) n
    (_local_region_end_cnt l).
Definition set_local_region_end_cnt (n : Z) (l : locals) : locals :=
  mk_locals (_local_components l) (_local_cycles l) (_local_state l)
    (_local_region_begin_cnt l) n.

Definition set_binary_tree (t : option (list threads_t)) (g : globals) : globals :=
  set_sto (mk_store t (region_begin_cnt (sto g)) (region_end_cnt (sto g))) g.
Definition set_region_begin_cnt (n : Z) (g : globals) : globals :=
  set_sto (mk_store (binary_tree (sto g)) n (region_end_cnt (sto g))) g.
Definition set_region_end_cnt (n : Z) (g : globals) : globals :=
  set_sto (mk_store (binary_tree (sto g)) (region_begin_cnt (sto g)) n) g.

Definition set_state (b : bool) (g : globals) : globals :=
  let c := life g in
  set_life (mk_lifecycle (hl_initiated c) (hl_finalized c) (events_determined c)
              (output_generated c) (verbosity c) b (master_thread_id c)
              (num_of_cleaned_threads c)) g.
Definition set_output_generated (b : bool) (g : globals) : globals :=
  let c := life g in
  set_life (mk_lifecycle (hl_initiated c) (hl_finalized c) (events_determined c)
              b (verbosity c) (state c) (master_thread_id c)
              (num_of_cleaned_threads c)) g.
Definition set_events_determined (b : bool) (g : globals) : globals :=
  let c := life g in
  set_life (mk_lifecycle (hl_initiated c) (hl_finalized c) b
              (output_generated c) (verbosity c) (state c) (master_thread_id c)
              (num_of_cleaned_threads c)) g.
Definition set_num_of_cleaned_threads (n : Z) (g : globals) : globals :=
  let c := life g in
  set_life (mk_lifecycle (hl_initiated c) (hl_finalized c) (events_determined c)
              (output_generated c) (verbosity c) (state c) (master_thread_id c)
              n) g.

Definition set_papi_shutdown_called (b : bool) (g : globals) : globals :=
  set_eff (mk_effects (stdout (eff g)) (output_files (eff g)) b
             (components_freed (eff g))) g.
Definition set_components_freed (b : bool) (g : globals) : globals :=
  set_eff (mk_effects (stdout (eff g)) (output_files (eff g))
             (papi_shutdown_called (eff g)) b) g.
Definition add_output_file (f : list string) (g : globals) : globals :=
  set_eff (mk_effects (stdout (eff g)) (output_files (eff g) ++ [f])
             (papi_shutdown_called (eff g)) (components_freed (eff g))) g.
Definition printf (d : diagnostic) (g : globals) : globals :=
  set_eff (mk_effects (stdout (eff g) ++ [d]) (output_files (eff g))
             (papi_shutdown_called (eff g)) (components_freed (eff g))) g.

(** [verbose_fprintf(stdout, ...)]: printed only at verbosity 1. *)
Definition verbose_fprintf (d : diagnostic) (g : globals) : globals :=
  if decide (verbosity (life g) = 1) then printf d g else g.

(** ** Region store *)

Section RegionStore.

(** [components] and [num_of_components], and the thread-local buffers. *)
Variable comps : list components_t.
Variable ncomps : nat.
Variable l : locals.

(** [_local_components[i].values[j]] *)
Definition local_value (i j : nat) : Z :=
  values (default [] (_local_components l) !!! i) !!! j.

(** [components[i].event_types[j]] *)
Definition event_type_of (i j : nat) : Z :=
  event_types (comps !!! i) !!! j.

(** The loop nest
    [for (i = 0; i < num_of_components; i++)
       for (j = 0; j < components[i].num_of_events; j++)
          { body on node->values[cmp_iter]; cmp_iter++; }]
    where the body rewrites the cell at index [cmp_iter] by [f i j]. *)
Definition for_each_event {A : Type} (f : nat -> nat -> A -> A)
    (cmp_iter : nat) (vals : list A) : nat * list A :=
  fold_left
    (fun acc i =>
       fold_left
         (fun acc j => (S (fst acc), alter (f i j) (fst acc) (snd acc)))
         (seq 0 (num_of_events (comps !!! i))) acc)
    (seq 0 ncomps) (cmp_iter, vals).

Definition set_offset (o : Z) (v : value_t) : value_t :=
  mk_value o (total v) (read_values v).

Definition add_to_total (d : Z) (v : value_t) : value_t :=
  mk_value (offset v) (ll_add (total v) d) (read_values v).

(** [_internal_hl_insert_read_node] on the slot's list, followed by the
    assignment of [read_node->value]. *)
Definition _internal_hl_insert_read_node (x : Z) (v : value_t) : value_t :=
  mk_value (offset v) (total v) (x :: read_values v).

Definition _internal_hl_add_values_to_region (node : regions_t)
    (reg_typ : region_type) : papi_retval * regions_t :=
  let region_count := 1 in
  let cmp_iter := 2%nat in
  let vals := region_values node in
  match reg_typ with
  | REGION_BEGIN =>
      let vals := alter (set_offset region_count) 0%nat vals in
      let vals := alter (set_offset (_local_cycles l)) 1%nat vals in
      let vals :=
        snd (for_each_event (fun i j => set_offset (local_value i j))
               cmp_iter vals) in
      (PAPI_OK, mk_region (region node) vals)
  | REGION_READ =>
      let vals :=
        alter (fun v => _internal_hl_insert_read_node
                          (ll_sub (_local_cycles l) (offset v)) v)
              1%nat vals in
      let vals :=
        snd (for_each_event
               (fun i j v =>
                  if decide (event_type_of i j = 1)
                  then _internal_hl_insert_read_node (local_value i j) v
                  else _internal_hl_insert_read_node
                         (ll_sub (local_value i j) (offset v)) v)
               cmp_iter vals) in
      (PAPI_OK, mk_region (region node) vals)
  | REGION_END =>
      let vals := alter (fun v => add_to_total (offset v) v) 0%nat vals in
      let vals :=
        alter (fun v => add_to_total (ll_sub (_local_cycles l) (offset v)) v)
              1%nat vals in
      let vals :=
        snd (for_each_event
               (fun i j v =>
                  if decide (event_type_of i j = 1)
                  then add_to_total (local_value i j) v
                  else add_to_total (ll_sub (local_value i j) (offset v)) v)
               cmp_iter vals) in
      (PAPI_OK, mk_region (region node) vals)
  end.

End RegionStore.

(** [_internal_hl_insert_region_node]: the new node, with
    [total_num_events + 2] slots whose totals are zero and whose read lists
    are empty, becomes the head of the list.  The offsets are not
    initialised by the code (0 here); the begin call that allocates the node
    writes them before anything reads them. *)
Definition _internal_hl_insert_region_node (total_num_events : nat)
    (head_node : list regions_t) (name : string) : regions_t * list regions_t :=
  let extended_total_num_events := (total_num_events + 2)%nat in
  let new_node := mk_region name (replicate extended_total_num_events (mk_value 0 0 [])) in
  (new_node, new_node :: head_node).

(** [_internal_hl_find_region_node]: position and content of the first node
    along [next] whose name equals [name]. *)
Definition _internal_hl_find_region_node (head_node : list regions_t)
    (name : string) : option (nat * regions_t) :=
  list_find (fun n => region n = name) head_node.

(** [compar]: the difference of two [unsigned long] keys, converted to [int]. *)
Definition compar (lm lr : threads_t) : Z :=
  int_of ((key lm - key lr) mod 2 ^ 64).

(** [tfind] and [tsearch] of the C library.  The tree is the list of its
    nodes, the last inserted first; a search returns the node that [compar]
    finds equal to the probe, and [tsearch] inserts the probe when there is
    none. *)
Definition tfind (probe : threads_t) (root : list threads_t) : option (nat * threads_t) :=
  list_find (fun n => compar probe n = 0) root.

Definition tsearch (new_node : threads_t) (root : list threads_t) : list threads_t :=
  match tfind new_node root with
  | Some _ => root
  | None => new_node :: root
  end.

Definition _internal_hl_insert_thread_node (root : list threads_t) (tid : Z)
    : threads_t * list threads_t :=
  let new_node := mk_thread tid [] in
  (new_node, tsearch new_node root).

Definition _internal_hl_find_thread_node (root : list threads_t) (tid : Z)
    : option (nat * threads_t) :=
  tfind (mk_thread tid []) root.

(** Writing through [current_thread_node] and [current_region_node]: the
    node found is replaced where it stands. *)
Definition write_region (head_node : list regions_t) (name : string)
    (node : regions_t) : list regions_t :=
  match _internal_hl_find_region_node head_node name with
  | Some (i, _) => <[i := node]> head_node
  | None => head_node
  end.

Definition write_thread (root : list threads_t) (tid : Z)
    (node : threads_t) : list threads_t :=
  match _internal_hl_find_thread_node root tid with
  | Some (i, _) => <[i := node]> root
  | None => root
  end.

Definition _internal_hl_store_counters (env : papi_env) (tid : Z)
    (name : string) (reg_typ : region_type) (g : globals) (l : locals)
    : option (papi_retval * globals) :=
  root ← binary_tree (sto g);
  (* check if current thread is already stored in tree *)
  let found_thread :=
    match _internal_hl_find_thread_node root tid with
    | Some (_, node) => Some (node, root)
    | None =>
        if decide (reg_typ = REGION_BEGIN)
        then Some (_internal_hl_insert_thread_node root tid)
        else None
    end in
  match found_thread with
  | None => Some (PAPI_EINVAL, g)
  | Some (current_thread_node, root) =>
      (* check if node for current region already exists *)
      let found_region :=
        match _internal_hl_find_region_node (value current_thread_node) name with
        | Some (_, node) => Some (node, value current_thread_node)
        | None =>
            if decide (reg_typ = REGION_BEGIN)
            then Some (_internal_hl_insert_region_node
                         (total_num_events (reg g)) (value current_thread_node) name)
            else None
        end in
      match found_region with
      | None =>
          (* no node is created; the list of the thread is left as it is *)
          if decide (reg_typ = REGION_READ)
          then Some (PAPI_OK,
                     verbose_fprintf (Warn_no_matching_read name (PAPI_thread_id env)) g)
          else Some (PAPI_EINVAL,
                     verbose_fprintf (Warn_no_matching_end name (PAPI_thread_id env)) g)
      | Some (current_region_node, head_node) =>
          (* add recorded values to current region *)
          let '(retval, node) :=
            _internal_hl_add_values_to_region (components (reg g))
              (num_of_components (reg g)) l current_region_node reg_typ in
          let head_node := write_region head_node name node in
          let root := write_thread root tid (mk_thread (key current_thread_node) head_node) in
          let g := set_binary_tree (Some root) g in
          if decide (retval = PAPI_OK)
          then
            (* count all REGION_BEGIN and REGION_END calls *)
            let g := if decide (reg_typ = REGION_BEGIN)
                     then set_region_begin_cnt (int_of (region_begin_cnt (sto g) + 1)) g
                     else g in
            let g := if decide (reg_typ = REGION_END)
                     then set_region_end_cnt (int_of (region_end_cnt (sto g) + 1)) g
                     else g in
            Some (PAPI_OK, g)
          else Some (retval, g)
      end
  end.

(** ** Reading the counters *)

(** One iteration of the loop of [_internal_hl_read_counters]. *)
Definition read_component (env : papi_env) (ncomps i : nat) (l : locals)
    : option (papi_retval * locals) :=
  lcs ← _local_components l;
  let lc := lcs !!! i in
  if decide (Z.of_nat i < Z.of_nat ncomps - 1)
  then
    let '(retval, vals) := PAPI_read env (local_EventSet lc) (values lc) in
    Some (retval,
          set_local_components
            (Some (<[i := mk_local_component (local_EventSet lc) vals]> lcs)) l)
  else
    (* get cycles for last component *)
    let '(retval, vals, cycles) := PAPI_read_ts env (local_EventSet lc) (values lc) in
    Some (retval,
          set_local_cycles cycles
            (set_local_components
               (Some (<[i := mk_local_component (local_EventSet lc) vals]> lcs)) l)).

Fixpoint read_components (env : papi_env) (ncomps : nat) (idxs : list nat)
    (l : locals) : option (papi_retval * locals) :=
  match idxs with
  | [] => Some (PAPI_OK, l)
  | i :: idxs =>
      match read_component env ncomps i l with
      | None => None
      | Some (retval, l) =>
          if decide (retval = PAPI_OK)
          then read_components env ncomps idxs l
          else Some (retval, l)
      end
  end.

Definition _internal_hl_read_counters (env : papi_env) (g : globals)
    (l : locals) : option (papi_retval * locals) :=
  read_components env (num_of_components (reg g))
    (seq 0 (num_of_components (reg g))) l.

(** ** Cleaning up *)

(** The body of the loop of [_internal_hl_clean_up_local_data] for one
    local event set. *)
Definition clean_up_local_component (env : papi_env) (g : globals)
    (lc : local_components_t) : globals :=
  let retval := PAPI_stop env (local_EventSet lc) in
  let g :=
    if decide (retval = PAPI_OK) then g
    else
      (* only print error when event set is running *)
      if decide (retval = PAPI_ENOTRUN) then g
      else verbose_fprintf (Err_stop_failed retval) g in
  let retval := PAPI_cleanup_eventset env (local_EventSet lc) in
  let g :=
    if decide (retval = PAPI_OK) then g
    else verbose_fprintf (Err_cleanup_eventset_failed retval) g in
  let retval :=
    PAPI_destroy_eventset env (option_map (fun _ => []) (local_EventSet lc)) in
  if decide (retval = PAPI_OK) then g
  else verbose_fprintf (Err_destroy_eventset_failed retval) g.

Definition _internal_hl_clean_up_local_data (env : papi_env) (g : globals)
    (l : locals) : globals * locals :=
  let '(g, l) :=
    match _local_components l with
    | Some lcs =>
        let g :=
          fold_left (fun g i => clean_up_local_component env g (lcs !!! i))
            (seq 0 (num_of_components (reg g))) g in
        (* count global thread variable *)
        (set_num_of_cleaned_threads
           (int_of (num_of_cleaned_threads (life g) + 1)) g,
         set_local_components None l)
    | None => (g, l)
    end in
  (g, set_local_state PAPIHL_DEACTIVATED l).

(** [_internal_hl_clean_up_global_data]: every thread node is deleted from
    the tree (the tree itself stays allocated) and the requested event names
    are freed; a freed pointer is [None]. *)
Definition _internal_hl_clean_up_global_data (g : globals) : globals :=
  let g :=
    match binary_tree (sto g) with
    | Some _ => set_binary_tree (Some []) g
    | None => g
    end in
  let r := reg g in
  set_reg (mk_registry (components r) (num_of_components r)
             (max_num_of_components r) (total_num_events r) None
             (num_of_requested_events r)) g.

Definition _internal_hl_check_for_clean_thread_states (env : papi_env)
    : papi_retval :=
  if existsb
       (fun slot =>
          match slot with
          | Some ESI_state => negb (Z.land ESI_state (PAPI_RUNNING env) =? 0)
          | None => false
          end)
       (global_eventset_map env)
  then PAPI_EISRUN else PAPI_OK.

Definition _internal_hl_clean_up_all (env : papi_env) (deactivate : bool)
    (g : globals) (l : locals) : globals * locals :=
  (* we assume that output has been already generated or
     cannot be generated due to previous errors *)
  let g := set_output_generated true g in
  (* clean up thread local data *)
  let '(g, l) :=
    if decide (_local_state l = PAPIHL_ACTIVE)
    then _internal_hl_clean_up_local_data env g l
    else (g, l) in
  (* clean up global data *)
  let g :=
    if decide (state (life g) = PAPIHL_ACTIVE)
    then
      let g := verbose_fprintf Info_output_deactivated g in
      let g := _internal_hl_clean_up_global_data g in
      (* check if all other registered threads have cleaned up *)
      let num_of_threads := Z.of_nat (length (snd (PAPI_list_threads env))) in
      let g :=
        if decide (_internal_hl_check_for_clean_thread_states env = PAPI_OK
                   /\ num_of_threads = num_of_cleaned_threads (life g))
        then set_components_freed true (set_papi_shutdown_called true g)
        else verbose_fprintf Warn_no_shutdown g in
      (* deactivate PAPI-HL *)
      if deactivate then set_state PAPIHL_DEACTIVATED g else g
    else g in
  (g, l).

Definition _internal_hl_read_and_store_counters (env : papi_env)
    (name : string) (reg_typ : region_type) (g : globals) (l : locals)
    : option (papi_retval * globals * locals) :=
  (* read all events *)
  '(retval, l) ← _internal_hl_read_counters env g l;
  if decide (retval = PAPI_OK)
  then
    (* store all events *)
    '(retval, g) ← _internal_hl_store_counters env (PAPI_thread_id env) name reg_typ g l;
    if decide (retval = PAPI_OK)
    then Some (PAPI_OK, g, l)
    else
      let g := verbose_fprintf (Err_could_not_store (PAPI_thread_id env)) g in
      let g := verbose_fprintf Advice_check_regions g in
      let '(g, l) := _internal_hl_clean_up_all env true g l in
      Some (retval, g, l)
  else
    let g := verbose_fprintf (Err_could_not_read (PAPI_thread_id env)) g in
    let '(g, l) := _internal_hl_clean_up_all env true g l in
    Some (retval, g, l).

(** ** Public operations on regions *)

(** The common entry of [PAPI_hl_read] and [PAPI_hl_region_end]. *)
Definition deactivated_entry (env : papi_env) (g : globals) (l : locals)
    : papi_retval * globals * locals :=
  (* check if we have to clean up local stuff *)
  let '(g, l) :=
    if decide (_local_state l = PAPIHL_ACTIVE)
    then _internal_hl_clean_up_local_data env g l
    else (g, l) in
  (PAPI_EMISC, g, l).

Definition PAPI_hl_read (env : papi_env) (name : string) (g : globals)
    (l : locals) : option (papi_retval * globals * locals) :=
  if decide (state (life g) = PAPIHL_DEACTIVATED)
  then Some (deactivated_entry env g l)
  else if decide (_local_region_begin_cnt l = 0)
  then Some (PAPI_EMISC,
             verbose_fprintf (Warn_no_matching_read name (PAPI_thread_id env)) g, l)
  else if decide (_local_components l = None)
  then Some (PAPI_ENOTRUN, g, l)
  else
    (* read and store all events *)
    '(retval, g, l) ← _internal_hl_read_and_store_counters env name REGION_READ g l;
    if decide (retval = PAPI_OK) then Some (PAPI_OK, g, l) else Some (retval, g, l).

Definition PAPI_hl_region_end (env : papi_env) (name : string) (g : globals)
    (l : locals) : option (papi_retval * globals * locals) :=
  if decide (state (life g) = PAPIHL_DEACTIVATED)
  then Some (deactivated_entry env g l)
  else if decide (_local_region_begin_cnt l = 0)
  then Some (PAPI_EMISC,
             verbose_fprintf (Warn_no_matching_end name (PAPI_thread_id env)) g, l)
  else if decide (_local_components l = None)
  then Some (PAPI_ENOTRUN, g, l)
  else
    (* read and store all events *)
    '(retval, g, l) ← _internal_hl_read_and_store_counters env name REGION_END g l;
    if decide (retval = PAPI_OK)
    then Some (PAPI_OK, g,
               set_local_region_end_cnt (int_of (_local_region_end_cnt l + 1)) l)
    else Some (retval, g, l).

Definition _internal_PAPI_hl_cleanup_thread (env : papi_env) (g : globals)
    (l : locals) : papi_retval * globals * locals :=
  if decide (state (life g) = PAPIHL_ACTIVE /\ hl_initiated (life g) = true
             /\ _local_state l = PAPIHL_ACTIVE)
  then
    (* do not clean local data from master thread *)
    let '(g, l) :=
      if decide (master_thread_id (life g) = PAPI_thread_id env)
      then (g, l)
      else _internal_hl_clean_up_local_data env g l in
    (PAPI_OK, g, l)
  else (PAPI_EMISC, g, l).

Definition _internal_PAPI_hl_finalize (env : papi_env) (g : globals)
    (l : locals) : papi_retval * globals * locals :=
  if decide (state (life g) = PAPIHL_ACTIVE /\ hl_initiated (life g) = true)
  then
    let '(g, l) := _internal_hl_clean_up_all env true g l in
    (PAPI_OK, g, l)
  else (PAPI_EMISC, g, l).

(** ** Report writer *)

(** The double quote and the line feed. *)
Definition dq : string := String "034"%char EmptyString.
Definition nl : string := String "010"%char EmptyString.

(** A report file under construction: the outputs of the [fprintf] calls
    on it, in order. *)
Definition FILE : Type := list string.

Definition _internal_hl_json_line_break_and_indent (b : bool) (width : nat)
    : FILE :=
  if b then nl :: replicate width "  "%string else [].

(** Doubly-linked list walks: [goto_last] follows [next] to the last node,
    keeping behind it the nodes that [prev] leads back through. *)
Fixpoint goto_last {A : Type} (prevs : list A) (cur : A) (nexts : list A)
    : A * list A :=
  match nexts with
  | [] => (cur, prevs)
  | n :: nexts => goto_last (cur :: prevs) n nexts
  end.

Section ReportWriter.

Variable comps : list components_t.
Variable ncomps : nat.
Variable total_num_events : nat.
Variable beautifier : bool.

Definition lb (width : nat) : FILE :=
  _internal_hl_json_line_break_and_indent beautifier width.

(** The loop [while ( read_node != NULL )] of
    [_internal_hl_json_region_events], from the last node backwards. *)
Fixpoint json_reads (last_slot : bool) (read_cnt : Z) (read_node : Z)
    (prevs : list Z) : FILE :=
  lb 7 ++ [dq +:+ "read_" +:+ pretty read_cnt +:+ dq +:+ ":" +:+ dq
           +:+ pretty read_node +:+ dq] ++
  match prevs with
  | [] => lb 6 ++ ["}"%string] ++ (if last_slot then [] else [","%string])
  | p :: prevs => [","%string] ++ json_reads last_slot (int_of (read_cnt + 1)) p prevs
  end.

Definition all_event_names : list string :=
  let extended_total_num_events := (total_num_events + 2)%nat in
  let names := replicate extended_total_num_events EmptyString in
  let names := <[0%nat := "region_count"%string]> names in
  let names := <[1%nat := "cycles"%string]> names in
  snd (for_each_event comps ncomps
         (fun i j _ => event_names (comps !!! i) !!! j) 2%nat names).

(** The body of the loop over the slots [j]. *)
Definition json_region_event (regions : regions_t) (j : nat) : FILE :=
  let extended_total_num_events := (total_num_events + 2)%nat in
  let name := all_event_names !!! j in
  let v := region_values regions !!! j in
  let last_slot := bool_decide (j = extended_total_num_events - 1)%nat in
  lb 6 ++
  match read_values v with
  | head :: nexts =>
      (* going to last node, then read values in reverse order *)
      let '(read_node, prevs) := goto_last [] head nexts in
      [dq +:+ name +:+ dq +:+ ":{"] ++
      lb 7 ++
      [dq +:+ "total" +:+ dq +:+ ":" +:+ dq +:+ pretty (total v) +:+ dq +:+ ","] ++
      json_reads last_slot 1 read_node prevs
  | [] =>
      if last_slot
      then [dq +:+ name +:+ dq +:+ ":" +:+ dq +:+ pretty (total v) +:+ dq]
      else [dq +:+ name +:+ dq +:+ ":" +:+ dq +:+ pretty (total v) +:+ dq +:+ ","]
  end.

Definition _internal_hl_json_region_events (regions : regions_t) : FILE :=
  flat_map (json_region_event regions) (seq 0 (total_num_events + 2)).

(** The loop [while (regions != NULL)] of [_internal_hl_json_regions],
    from the last node backwards. *)
Fixpoint json_regions_from (regions : regions_t) (prevs : list regions_t)
    : FILE :=
  lb 4 ++ ["{"%string] ++
  lb 5 ++ [dq +:+ region regions +:+ dq +:+ ":{"] ++
  _internal_hl_json_region_events regions ++
  lb 5 ++ ["}"%string] ++
  lb 4 ++
  match prevs with
  | [] => ["}"%string]
  | p :: prevs => ["},"%string] ++ json_regions_from p prevs
  end.

(** [None]: the thread node has no region, and [regions->next] is read
    through a NULL pointer. *)
Definition _internal_hl_json_regions (thread_node : threads_t) : option FILE :=
  match value thread_node with
  | [] => None
  | head :: nexts =>
      (* going to last node, then read regions in reverse order *)
      let '(regions, prevs) := goto_last [] head nexts in
      Some (json_regions_from regions prevs)
  end.

Definition json_thread (root : list threads_t) (tids : list Z) (i : nat)
    : option FILE :=
  let threads_num := length tids in
  (* find values of current thread in global binary tree *)
  match _internal_hl_find_thread_node root (tids !!! i) with
  | Some (_, thread_node) =>
      regions ← _internal_hl_json_regions thread_node;
      Some (lb 2 ++ ["{"%string] ++
            lb 3 ++ [dq +:+ "id" +:+ dq +:+ ":" +:+ dq
                     +:+ pretty (key thread_node) +:+ dq +:+ ","] ++
            lb 3 ++ [dq +:+ "regions" +:+ dq +:+ ":["] ++
            regions ++
            lb 3 ++ ["]"%string] ++
            lb 2 ++
            (if decide (Z.of_nat i < Z.of_nat threads_num - 1)
             then ["},"%string] else ["}"%string]))
  | None => Some []
  end.

Definition _internal_hl_json_threads (root : list threads_t) (tids : list Z)
    : option FILE :=
  threads ← mapM (json_thread root tids) (seq 0 (length tids));
  Some (lb 1 ++ [dq +:+ "threads" +:+ dq +:+ ":["] ++
        concat threads ++
        lb 1 ++ ["]"%string]).

End ReportWriter.

Definition _internal_hl_write_output (env : papi_env) (g : globals)
    : option globals :=
  if decide (output_generated (life g) = false)
  then
    match binary_tree (sto g) with
    | None =>
        (* check if events were recorded *)
        Some (verbose_fprintf Info_no_events_recorded g)
    | Some root =>
        if decide (region_begin_cnt (sto g) = region_end_cnt (sto g))
        then
          let g := verbose_fprintf Info_print_results g in
          (* create new measurement directory *)
          if decide (mkdir_output_directory env = PAPI_OK)
          then
            (* determine rank for output file; without a rank the file is
               created by mkstemp *)
            let rank := determine_rank env in
            let cpu_freq := PAPI_get_opt_clockrate env in
            if fopen_succeeds env
            then
              (* list all threads *)
              let '(retval, tids) := PAPI_list_threads env in
              if decide (retval = PAPI_OK)
              then
                let beautifier := true in
                threads ←
                  _internal_hl_json_threads (components (reg g))
                    (num_of_components (reg g)) (total_num_events (reg g))
                    beautifier root tids;
                let output_file :=
                  ["{"%string] ++
                  _internal_hl_json_line_break_and_indent beautifier 1 ++
                  [dq +:+ "cpu in mhz" +:+ dq +:+ ":" +:+ dq
                   +:+ pretty cpu_freq +:+ dq +:+ ","] ++
                  threads ++
                  _internal_hl_json_line_break_and_indent beautifier 0 ++
                  ["}"%string] ++ [nl] in
                let g := add_output_file output_file g in
                let g :=
                  match getenv env "PAPI_REPORT" with
                  | Some _ => printf (Report_echo output_file) g
                  | None => g
                  end in
                Some (set_output_generated true g)
              else
                Some (verbose_fprintf Err_list_threads_failed
                        (add_output_file [] g))
            else
              let g := if decide (rank < 0) then add_output_file [] g else g in
              Some (verbose_fprintf Err_cannot_create_output_file g)
          else Some (verbose_fprintf Err_cannot_create_directory g)
        else
          let g := verbose_fprintf Warn_not_matching_regions g in
          Some (set_output_generated true g)
    end
  else Some g.

Definition _internal_PAPI_hl_print_output (env : papi_env) (g : globals)
    : option globals :=
  if decide (state (life g) = PAPIHL_ACTIVE /\ hl_initiated (life g) = true
             /\ output_generated (life g) = false)
  then _internal_hl_write_output env g
  else Some g.

(** ** Event resolver and component registry *)

Definition set_components (c : list components_t) (g : globals) : globals :=
  let r := reg g in
  set_reg (mk_registry c (num_of_components r) (max_num_of_components r)
             (total_num_events r) (requested_event_names r)
             (num_of_requested_events r)) g.
Definition set_num_of_components (n : nat) (g : globals) : globals :=
  let r := reg g in
  set_reg (mk_registry (components r) n (max_num_of_components r)
             (total_num_events r) (requested_event_names r)
             (num_of_requested_events r)) g.
Definition set_max_num_of_components (n : nat) (g : globals) : globals :=
  let r := reg g in
  set_reg (mk_registry (components r) (num_of_components r) n
             (total_num_events r) (requested_event_names r)
             (num_of_requested_events r)) g.
Definition set_total_num_events (n : nat) (g : globals) : globals :=
  let r := reg g in
  set_reg (mk_registry (components r) (num_of_components r)
             (max_num_of_components r) n (requested_event_names r)
             (num_of_requested_events r)) g.
Definition set_requested_event_names (names : option (list (option string)))
    (g : globals) : globals :=
  let r := reg g in
  set_reg (mk_registry (components r) (num_of_components r)
             (max_num_of_components r) (total_num_events r) names
             (num_of_requested_events r)) g.
Definition set_num_of_requested_events (n : nat) (g : globals) : globals :=
  let r := reg g in
  set_reg (mk_registry (components r) (num_of_components r)
             (max_num_of_components r) (total_num_events r)
             (requested_event_names r) n) g.

(** *** C strings *)

Fixpoint _internal_hl_remove_spaces (str : string) : string :=
  match str with
  | EmptyString => EmptyString
  | String c str =>
      if decide (c = " "%char)
      then _internal_hl_remove_spaces str
      else String c (_internal_hl_remove_spaces str)
  end.

(** [strchr(s, c)] for a character [c] other than NUL: the suffix of [s]
    from the first [c] on. *)
Fixpoint strchr (s : string) (c : ascii) : option string :=
  match s with
  | EmptyString => None
  | String a s' => if decide (a = c) then Some s else strchr s' c
  end.

(** The fields of [s] between separators, empty ones included. *)
Fixpoint fields (sep : ascii) (s : string) : list string :=
  match s with
  | EmptyString => [EmptyString]
  | String c s' =>
      if decide (c = sep) then EmptyString :: fields sep s'
      else match fields sep s' with
           | f :: fs => String c f :: fs
           | [] => [String c EmptyString]
           end
  end.

(** The tokens that successive [strtok] calls return: the non-empty fields. *)
Definition strtok (s : string) (sep : ascii) : list string :=
  filter (fun t => t <> EmptyString) (fields sep s).

(** The loop counting the separator characters of the string. *)
Fixpoint count_separators (position : string) (sep : ascii)
    (num_of_req_events : nat) : nat :=
  match position with
  | EmptyString => num_of_req_events
  | String c position =>
      count_separators position sep
        (if decide (c = sep) then S num_of_req_events else num_of_req_events)
  end.

(** *** Requested events *)

Definition _internal_hl_checkCounter (env : papi_env) (counter : string)
    : papi_retval :=
  let retval := PAPI_create_eventset env in
  if decide (retval = PAPI_OK) then
    let EventSet : eventset := Some [] in
    let '(retval, eventcode) := PAPI_event_name_to_code env counter in
    if decide (retval = PAPI_OK) then
      let retval := PAPI_add_event env EventSet eventcode in
      if decide (retval = PAPI_OK) then
        let EventSet : eventset := Some [eventcode] in
        let retval := PAPI_cleanup_eventset env EventSet in
        if decide (retval = PAPI_OK) then
          let retval := PAPI_destroy_eventset env (Some []) in
          if decide (retval = PAPI_OK) then PAPI_OK else retval
        else retval
      else retval
    else retval
  else retval.

Definition default_events : list string :=
  ["perf::TASK-CLOCK"; "PAPI_TOT_INS"; "PAPI_TOT_CYC"; "PAPI_FP_INS";
   "PAPI_FP_OPS"]%string.

Definition _internal_hl_determine_default_events (env : papi_env)
    (g : globals) : papi_retval * globals :=
  let num_of_defaults := length default_events in
  (* allocate memory for requested events *)
  let g := set_requested_event_names (Some (replicate num_of_defaults None)) g in
  (* check if default events are available on the current machine *)
  let g :=
    fold_left
      (fun g i =>
         if decide (_internal_hl_checkCounter env (default_events !!! i) = PAPI_OK)
         then
           let n := num_of_requested_events (reg g) in
           set_num_of_requested_events (S n)
             (set_requested_event_names
                (Some (<[n := Some (default_events !!! i)]>
                         (default [] (requested_event_names (reg g))))) g)
         else g)
      (seq 0 num_of_defaults) g in
  (PAPI_OK, g).

(** The loop [while ( token )] of [_internal_hl_read_user_events]: the
    array after the loop, or the code the loop returns with. *)
Fixpoint store_tokens (tokens : list string) (num_of_req_events : nat)
    (req_event_index : nat) (names : list (option string))
    : list (option string) * option papi_retval :=
  match tokens with
  | [] => (names, None)
  | token :: tokens =>
      if decide (num_of_req_events <= req_event_index)%nat
      then (* more entries as in the first run *) (names, Some PAPI_EINVAL)
      else
        store_tokens tokens num_of_req_events (S req_event_index)
          (<[req_event_index := Some (_internal_hl_remove_spaces token)]> names)
  end.

Definition _internal_hl_read_user_events (user_events : string) (g : globals)
    : papi_retval * globals :=
  let num_of_req_events := 1%nat in
  let separator := ","%char in
  let finish (num_of_req_events : nat) (g : globals) :=
    let g := set_num_of_requested_events num_of_req_events g in
    if decide (num_of_requested_events (reg g) = 0%nat)
    then (PAPI_EINVAL, g)
    else (PAPI_OK, g) in
  (* check if string is not empty *)
  if decide (0 < String.length user_events)%nat
  then
    (* count number of separator characters *)
    let num_of_req_events :=
      count_separators user_events separator num_of_req_events in
    (* allocate memory for requested events *)
    let names := replicate num_of_req_events None in
    (* parse list of event names *)
    match store_tokens (strtok user_events separator) num_of_req_events 0 names with
    | (names, Some retval) => (retval, set_requested_event_names (Some names) g)
    | (names, None) =>
        finish num_of_req_events (set_requested_event_names (Some names) g)
    end
  else finish num_of_req_events g.

(** *** Components *)

Definition _internal_hl_new_component (env : papi_env) (id : Z)
    (component : components_t) (g : globals)
    : papi_retval * components_t * globals :=
  (* create new EventSet *)
  let retval := PAPI_create_eventset env in
  if decide (retval = PAPI_OK) then
    let set : eventset := Some [] in
    (* Support multiplexing if user wants to *)
    let g :=
      match getenv env "PAPI_MULTIPLEX" with
      | Some _ =>
          (* multiplex only for cpu core events *)
          if decide (id = 0) then
            if decide (PAPI_assign_eventset_component env set id = PAPI_OK)
            then
              if PAPI_get_multiplex env set then g
              else if decide (PAPI_set_multiplex env set = PAPI_OK) then g
                   else verbose_fprintf Err_set_multiplex_failed g
            else verbose_fprintf Err_assign_eventset_component_failed g
          else g
      | None => g
      end in
    let PAPIHL_NUM_OF_EVENTS_PER_COMPONENT := 10%nat in
    (PAPI_OK,
     mk_component id 0 PAPIHL_NUM_OF_EVENTS_PER_COMPONENT
       (replicate PAPIHL_NUM_OF_EVENTS_PER_COMPONENT EmptyString)
       (replicate PAPIHL_NUM_OF_EVENTS_PER_COMPONENT 0)
       (replicate PAPIHL_NUM_OF_EVENTS_PER_COMPONENT 0)
       set,
     set_num_of_components (S (num_of_components (reg g))) g)
  else
    (retval,
     mk_component (component_id component) (num_of_events component)
       (max_num_of_events component) (event_names component)
       (event_codes component) (event_types component) None,
     verbose_fprintf (Err_cannot_create_eventset id) g).

Definition _internal_hl_add_event_to_component (env : papi_env)
    (event_name : string) (event : Z) (event_type : Z)
    (component : components_t) (g : globals)
    : papi_retval * components_t * globals :=
  (* check if we need to reallocate memory for event_names, event_codes
     and event_types *)
  let component :=
    if decide (num_of_events component = max_num_of_events component)
    then
      let n := max_num_of_events component in
      mk_component (component_id component) (num_of_events component)
        (n * 2)%nat
        (event_names component ++ replicate n EmptyString)
        (event_codes component ++ replicate n 0)
        (event_types component ++ replicate n 0)
        (EventSet component)
    else component in
  let retval := PAPI_add_event env (EventSet component) event in
  if decide (retval = PAPI_OK) then
    let n := num_of_events component in
    (PAPI_OK,
     mk_component (component_id component) (S n) (max_num_of_events component)
       (<[n := event_name]> (event_names component))
       (<[n := event]> (event_codes component))
       (<[n := event_type]> (event_types component))
       (option_map (fun cs => cs ++ [event]) (EventSet component)),
     set_total_num_events (S (total_num_events (reg g))) g)
  else
    (PAPI_EINVAL, component,
     verbose_fprintf
       (Warn_cannot_add event_name (component_id component)
          (take (num_of_events component) (event_names component) ++ [event_name]))
       g).

(** The variables of [_internal_hl_create_components] that live across the
    iterations of its loop over the requested events. *)
Record create_components_vars : Type := mk_vars {
  v_event_type : Z;
  v_component_exists : bool;
  v_comp_index : nat
}.

(** The search for [component_id] among the components created so far. *)
Fixpoint find_component (comps : list components_t) (id : Z) (js : list nat)
    (component_exists : bool) (comp_index : nat) : bool * nat :=
  match js with
  | [] => (component_exists, comp_index)
  | j :: js =>
      if decide (component_id (comps !!! j) = id)
      then (true, j)
      else find_component comps id js false comp_index
  end.

(** One iteration of the loop over [requested_event_names]; the second
    component of the result is the code the function returns with, if the
    iteration returns. *)
Definition create_components_event (env : papi_env) (i : nat)
    (vars : create_components_vars) (g : globals)
    : option (create_components_vars * globals * option papi_retval) :=
  names ← requested_event_names (reg g);
  name ← mjoin (names !! i);
  (* check if requested event contains event type (instant or delta) *)
  let sep := "="%char in
  let '(event_type, name) :=
    match strchr name sep with
    | Some ret =>
        let event_type := if decide (ret = "=instant"%string) then 1 else 0 in
        (* get index of '=' in event name *)
        let index := (String.length name - String.length ret)%nat in
        (* remove event type from string if '=instant' or '=delta' *)
        if decide (ret = "=instant"%string \/ ret = "=delta"%string)
        then (event_type, String.substring 0 index name)
        else (event_type, name)
    | None => (v_event_type vars, name)
    end in
  let g := set_requested_event_names (Some (<[i := Some name]> names)) g in
  let vars := mk_vars event_type (v_component_exists vars) (v_comp_index vars) in
  (* check if event is supported on current machine *)
  if decide (_internal_hl_checkCounter env name = PAPI_OK) then
    (* determine event code and corresponding component id *)
    let '(retval, event) := PAPI_event_name_to_code env name in
    if decide (retval = PAPI_OK) then
      let id := PAPI_COMPONENT_INDEX env event in
      (* check if component_id already exists in global components structure *)
      let '(component_exists, comp_index) :=
        find_component (components (reg g)) id
          (seq 0 (num_of_components (reg g)))
          (v_component_exists vars) (v_comp_index vars) in
      let vars := mk_vars event_type component_exists comp_index in
      (* create new component *)
      let '(vars, g, returned) :=
        if component_exists then (vars, g, None)
        else
          (* check if we need to reallocate memory for components *)
          let g :=
            if decide (num_of_components (reg g) = max_num_of_components (reg g))
            then
              set_components
                (components (reg g)
                   ++ replicate (max_num_of_components (reg g)) inhabitant)
                (set_max_num_of_components
                   (max_num_of_components (reg g) * 2)%nat g)
            else g in
          let comp_index := num_of_components (reg g) in
          let vars := mk_vars event_type component_exists comp_index in
          let '(retval, component, g) :=
            _internal_hl_new_component env id
              (components (reg g) !!! comp_index) g in
          let g := set_components (<[comp_index := component]> (components (reg g))) g in
          (vars, g, if decide (retval = PAPI_OK) then None else Some retval) in
      match returned with
      | Some retval => Some (vars, g, Some retval)
      | None =>
          (* add event to current component *)
          let '(retval, component, g) :=
            _internal_hl_add_event_to_component env name event event_type
              (components (reg g) !!! v_comp_index vars) g in
          let g :=
            set_components (<[v_comp_index vars := component]> (components (reg g))) g in
          Some (vars, g, if decide (retval = PAPI_ENOMEM) then Some retval else None)
      end
    else Some (vars, g, Some retval)
  else Some (vars, verbose_fprintf (Warn_not_supported name) g, None).

Fixpoint create_components_events (env : papi_env) (idxs : list nat)
    (vars : create_components_vars) (g : globals)
    : option (create_components_vars * globals * option papi_retval) :=
  match idxs with
  | [] => Some (vars, g, None)
  | i :: idxs =>
      match create_components_event env i vars g with
      | None => None
      | Some (vars, g, Some retval) => Some (vars, g, Some retval)
      | Some (vars, g, None) => create_components_events env idxs vars g
      end
  end.

(** The loop destroying the event sets of the global components. *)
Fixpoint destroy_component_sets (env : papi_env) (idxs : list nat)
    (g : globals) : globals * option papi_retval :=
  match idxs with
  | [] => (g, None)
  | i :: idxs =>
      let c := components (reg g) !!! i in
      let retval := PAPI_cleanup_eventset env (EventSet c) in
      if decide (retval = PAPI_OK) then
        let retval :=
          PAPI_destroy_eventset env (option_map (fun _ => []) (EventSet c)) in
        if decide (retval = PAPI_OK) then
          let c :=
            mk_component (component_id c) (num_of_events c)
              (max_num_of_events c) (event_names c) (event_codes c)
              (event_types c) None in
          let g := set_components (<[i := c]> (components (reg g))) g in
          let g :=
            fold_left (fun g j => verbose_fprintf (Info_event (event_names c !!! j)) g)
              (seq 0 (num_of_events c)) g in
          destroy_component_sets env idxs g
        else (g, Some retval)
      else (g, Some retval)
  end.

Definition _internal_hl_create_components (env : papi_env) (g : globals)
    : option (papi_retval * globals) :=
  let g :=
    set_components (replicate (max_num_of_components (reg g)) inhabitant) g in
  '(vars, g, returned) ←
    create_components_events env (seq 0 (num_of_requested_events (reg g)))
      (mk_vars 0 false 0) g;
  match returned with
  | Some retval => Some (retval, g)
  | None =>
      let g :=
        if decide (0 < num_of_components (reg g))%nat
        then verbose_fprintf Info_using_events g else g in
      (* destroy all EventSets from global data *)
      match destroy_component_sets env (seq 0 (num_of_components (reg g))) g with
      | (g, Some retval) => Some (retval, g)
      | (g, None) =>
          if decide (num_of_components (reg g) = 0%nat)
          then Some (PAPI_EINVAL, g)
          else Some (PAPI_OK, g)
      end
  end.

Definition _internal_hl_read_events (env : papi_env) (events : option string)
    (g : globals) : option (papi_retval * globals) :=
  let user_or_default (user_events : string) (g : globals) :=
    let '(retval, g) := _internal_hl_read_user_events user_events g in
    if decide (retval = PAPI_OK) then (PAPI_OK, g)
    else _internal_hl_determine_default_events env g in
  let '(retval, g) :=
    match events with
    | Some events => user_or_default events g
    | None =>
        (* check if user specified events via environment variable *)
        match getenv env "PAPI_EVENTS" with
        | Some user_events_from_env => user_or_default user_events_from_env g
        | None => _internal_hl_determine_default_events env g
        end
    end in
  if decide (retval = PAPI_OK) then
    (* create components based on requested events *)
    '(retval, g) ← _internal_hl_create_components env g;
    if decide (retval = PAPI_OK)
    then Some (PAPI_OK, set_events_determined true g)
    else
      (* requested events do not work at all, use default events *)
      let g := verbose_fprintf Warn_all_requested_fail g in
      let g := set_num_of_requested_events 0 (set_requested_event_names None g) in
      let '(retval, g) := _internal_hl_determine_default_events env g in
      if decide (retval = PAPI_OK) then
        '(retval, g) ← _internal_hl_create_components env g;
        if decide (retval = PAPI_OK)
        then Some (PAPI_OK, set_events_determined true g)
        else Some (retval, g)
      else Some (retval, g)
  else Some (retval, g).

Definition _internal_hl_create_global_binary_tree (g : globals)
    : papi_retval * globals :=
  (PAPI_OK, set_binary_tree (Some []) g).

Definition _internal_PAPI_hl_set_events (env : papi_env)
    (events : option string) (g : globals) : option (papi_retval * globals) :=
  if decide (state (life g) = PAPIHL_ACTIVE) then
    (* This may only be called once after the high-level API was
       successfully initiated. Any second call just returns PAPI_OK. *)
    '(returned, g) ←
      (if decide (hl_initiated (life g) = true /\ events_determined (life g) = false)
       then
         '(retval, g) ← _internal_hl_read_events env events g;
         if decide (retval = PAPI_OK) then
           let '(retval, g) := _internal_hl_create_global_binary_tree g in
           if decide (retval = PAPI_OK) then Some (None, g)
           else
             Some (Some retval,
                   _internal_hl_clean_up_global_data (set_state PAPIHL_DEACTIVATED g))
         else
           Some (Some retval,
                 _internal_hl_clean_up_global_data (set_state PAPIHL_DEACTIVATED g))
       else Some (None, g));
    match returned with
    | Some retval => Some (retval, g)
    | None =>
        (* in case the first locked thread ran into problems *)
        if decide (state (life g) = PAPIHL_DEACTIVATED)
        then Some (PAPI_EMISC, g)
        else Some (PAPI_OK, g)
    end
  else Some (PAPI_EMISC, g).

(** ** Vocabulary of the statements *)

(** The events of the registry in slot order: slot [2 + k] of every region
    node belongs to the [k]-th pair (component index, event index). *)
Definition event_slots (comps : list components_t) (ncomps : nat)
    : list (nat * nat) :=
  flat_map (fun i => map (pair i) (seq 0 (num_of_events (comps !!! i))))
    (seq 0 ncomps).

(** Every region node has one slot per event of the registry, after the two
    fixed ones. *)
Definition slots_consistent (g : globals) : Prop :=
  total_num_events (reg g)
  = length (event_slots (components (reg g)) (num_of_components (reg g))).

(** The region node of [name] in the list of thread [tid], if both exist. *)
Definition lookup_region (root : list threads_t) (tid : Z) (name : string)
    : option regions_t :=
  '(_, thread_node) ← _internal_hl_find_thread_node root tid;
  '(_, node) ← _internal_hl_find_region_node (value thread_node) name;
  Some node.

(** The samples of a read list from the oldest to the newest, as
    [_internal_hl_json_region_events] visits them: to the last node along
    [next], then back along [prev]. *)
Definition reads_oldest_first (read_values : list Z) : list Z :=
  match read_values with
  | [] => []
  | head :: nexts =>
      let '(read_node, prevs) := goto_last [] head nexts in
      read_node :: prevs
  end.

(** Sums over the calls of a run. *)
Definition sum_Z (xs : list Z) : Z := fold_right Z.add 0 xs.

(** A run of matched pairs on one region of one thread: each pair gives the
    thread-local buffers as [_internal_hl_read_counters] left them before
    the begin and before the end.  The result collects the return codes. *)
Fixpoint region_pairs (env : papi_env) (tid : Z) (name : string)
    (pairs : list (locals * locals)) (g : globals)
    : option (list papi_retval * globals) :=
  match pairs with
  | [] => Some ([], g)
  | (l_begin, l_end) :: pairs =>
      '(r1, g) ← _internal_hl_store_counters env tid name REGION_BEGIN g l_begin;
      '(r2, g) ← _internal_hl_store_counters env tid name REGION_END g l_end;
      '(rs, g) ← region_pairs env tid name pairs g;
      Some (r1 :: r2 :: rs, g)
  end.

(** A run of read calls on one region of one thread. *)
Fixpoint region_reads (env : papi_env) (tid : Z) (name : string)
    (calls : list locals) (g : globals)
    : option (list papi_retval * globals) :=
  match calls with
  | [] => Some ([], g)
  | l :: calls =>
      '(r, g) ← _internal_hl_store_counters env tid name REGION_READ g l;
      '(rs, g) ← region_reads env tid name calls g;
      Some (r :: rs, g)
  end.

(** One step of the flattened loop nest: the cell at the running index is
    rewritten and the index advances. *)
Definition slot_step {A : Type} (f : nat -> nat -> A -> A)
    (acc : nat * list A) (e : nat * nat) : nat * list A :=
  (S (fst acc), alter (f (fst e) (snd e)) (fst acc) (snd acc)).

(** What one call does to the slot at position [k] of the node it works on. *)
Definition slot_update (comps : list components_t) (ncomps : nat) (l : locals)
    (reg_typ : region_type) (k : nat) (v : value_t) : value_t :=
  match k with
  | 0%nat =>
      match reg_typ with
      | REGION_BEGIN => set_offset 1 v
      | REGION_READ => v
      | REGION_END => add_to_total (offset v) v
      end
  | 1%nat =>
      match reg_typ with
      | REGION_BEGIN => set_offset (_local_cycles l) v
      | REGION_READ =>
          _internal_hl_insert_read_node (ll_sub (_local_cycles l) (offset v)) v
      | REGION_END => add_to_total (ll_sub (_local_cycles l) (offset v)) v
      end
  | S (S k') =>
      match event_slots comps ncomps !! k' with
      | Some (i, j) =>
          match reg_typ with
          | REGION_BEGIN => set_offset (local_value l i j) v
          | REGION_READ =>
              if decide (event_type_of comps i j = 1)
              then _internal_hl_insert_read_node (local_value l i j) v
              else _internal_hl_insert_read_node
                     (ll_sub (local_value l i j) (offset v)) v
          | REGION_END =>
              if decide (event_type_of comps i j = 1)
              then add_to_total (local_value l i j) v
              else add_to_total (ll_sub (local_value l i j) (offset v)) v
          end
      | None => v
      end
  end.

(** What a read call does to the slot at position [k]. *)
Definition reads_update (comps : list components_t) (ncomps : nat) (k : nat)
    (v : value_t) (l : locals) : value_t :=
  slot_update comps ncomps l REGION_READ k v.

(** What a matched pair of calls does to the slot at position [k], and the
    exact integer the pair contributes to the slot's total. *)
Definition pair_update (comps : list components_t) (ncomps : nat)
    (k : nat) (v : value_t) (p : locals * locals) : value_t :=
  slot_update comps ncomps (snd p) REGION_END k
    (slot_update comps ncomps (fst p) REGION_BEGIN k v).

Definition pair_delta (comps : list components_t) (ncomps : nat)
    (k : nat) (p : locals * locals) : Z :=
  match k with
  | 0%nat => 1
  | 1%nat => _local_cycles (snd p) - _local_cycles (fst p)
  | S (S k') =>
      match event_slots comps ncomps !! k' with
      | Some (i, j) =>
          if decide (event_type_of comps i j = 1)
          then local_value (snd p) i j
          else local_value (snd p) i j - local_value (fst p) i j
      | None => 0
      end
  end.

(** The total of the slot at position [k] of a node, if the node has it. *)
Definition slot_total (node : regions_t) (k : nat) : option Z :=
  total <$> region_values node !! k.

(** The node [_internal_hl_insert_region_node] allocates. *)
Definition fresh_region_node (total_num_events : nat) (name : string)
    : regions_t :=
  fst (_internal_hl_insert_region_node total_num_events [] name).

(** The counting of the begin and end calls at the end of
    [_internal_hl_store_counters]. *)
Definition count_region_call (reg_typ : region_type) (g : globals) : globals :=
  match reg_typ with
  | REGION_BEGIN => set_region_begin_cnt (int_of (region_begin_cnt (sto g) + 1)) g
  | REGION_READ => g
  | REGION_END => set_region_end_cnt (int_of (region_end_cnt (sto g) + 1)) g
  end.

(** The node a call of type [reg_typ] leaves where it found [node]. *)
Definition stored (g : globals) (l : locals) (reg_typ : region_type)
    (node : regions_t) : regions_t :=
  snd (_internal_hl_add_values_to_region (components (reg g))
         (num_of_components (reg g)) l node reg_typ).

(** Two states that differ at most in what was printed. *)
Definition same_but_stdout (g g' : globals) : Prop :=
  reg g' = reg g /\ sto g' = sto g /\ life g' = life g
  /\ output_files (eff g') = output_files (eff g)
  /\ papi_shutdown_called (eff g') = papi_shutdown_called (eff g)
  /\ components_freed (eff g') = components_freed (eff g).

(** The hardware layer delivers every counter of the call. *)
Definition counters_read_ok (env : papi_env) (g : globals) (l : locals) : Prop :=
  exists l1, _internal_hl_read_counters env g l = Some (PAPI_OK, l1).

(** No slot of the global event set map holds a set in the running state. *)
Definition no_session_running (env : papi_env) : Prop :=
  forall ESI_state : Z,
    Some ESI_state ∈ global_eventset_map env ->
    Z.land ESI_state (PAPI_RUNNING env) = 0.

(** What C3 says of a call that names a region without node: an error is
    returned, the store and both active states are as before. *)
Definition nonfatal_unmatched_outcome (g : globals) (l : locals)
    (outcome : option (papi_retval * globals * locals)) : Prop :=
  exists retval g' l',
    outcome = Some (retval, g', l')
    /\ retval <> PAPI_OK
    /\ binary_tree (sto g') = binary_tree (sto g)
    /\ state (life g') = state (life g)
    /\ _local_state l' = _local_state l.

(** The position of the first occurrence of [x] in a file. *)
Definition first_index (x : string) (f : FILE) : option nat :=
  fst <$> list_find (fun s => s = x) f.

(** ** The report as the specification words it *)

Section ReportSpec.

Variable comps : list components_t.
Variable ncomps : nat.
Variable total_num_events : nat.
Variable beautifier : bool.

(** The samples of a slot with their labels: the number [k] of [read_k] and
    the value, the oldest sample first and numbered 1. *)
Definition labelled_reads (read_values : list Z) : list (Z * Z) :=
  imap (fun k x => (Z.of_nat (S k), x)) (reverse read_values).

(** The text of labelled samples in the order given. *)
Fixpoint report_reads (last_slot : bool) (entries : list (Z * Z)) : FILE :=
  match entries with
  | [] => []
  | (n, x) :: rest =>
      lb beautifier 7
      ++ [dq +:+ "read_" +:+ pretty n +:+ dq +:+ ":" +:+ dq +:+ pretty x +:+ dq]
      ++ match rest with
         | [] => lb beautifier 6 ++ ["}"%string]
                 ++ (if last_slot then [] else [","%string])
         | _ :: _ => [","%string] ++ report_reads last_slot rest
         end
  end.

(** The text of the regions of a thread in the order given. *)
Fixpoint report_regions (regions : list regions_t) : FILE :=
  match regions with
  | [] => []
  | r :: rest =>
      lb beautifier 4 ++ ["{"%string]
      ++ lb beautifier 5 ++ [dq +:+ region r +:+ dq +:+ ":{"]
      ++ _internal_hl_json_region_events comps ncomps total_num_events beautifier r
      ++ lb beautifier 5 ++ ["}"%string]
      ++ lb beautifier 4
      ++ match rest with
         | [] => ["}"%string]
         | _ :: _ => ["},"%string] ++ report_regions rest
         end
  end.

End ReportSpec.

(** ** Concrete inputs *)

(** A hardware layer on which every call succeeds: each read advances every
    counter by 5 and reports 100 cycles; event names resolve to their
    length, components to the parity of the code; one thread, number 7, is
    known and no event set is running. *)
Definition env_ok : papi_env :=
  mk_env 7
    (fun _ v => (PAPI_OK, map (fun x => x + 5) v))
    (fun _ v => (PAPI_OK, map (fun x => x + 5) v, 100))
    (fun _ => PAPI_OK) (fun _ => PAPI_OK) (fun _ => PAPI_OK) PAPI_OK
    (fun s => (PAPI_OK, Z.of_nat (String.length s)))
    (fun _ _ => PAPI_OK) (fun c => c mod 2) (fun _ _ => PAPI_OK)
    (fun _ => false) (fun _ => PAPI_OK)
    (PAPI_OK, [7]) [] 2400 2 (fun _ => None) PAPI_OK (-1) true.

(** A hardware layer that still knows a second thread and holds an event
    set in the running state. *)
Definition env_two_threads : papi_env :=
  mk_env 7
    (fun _ v => (PAPI_OK, v)) (fun _ v => (PAPI_OK, v, 100))
    (fun _ => PAPI_OK) (fun _ => PAPI_OK) (fun _ => PAPI_OK) PAPI_OK
    (fun s => (PAPI_OK, Z.of_nat (String.length s)))
    (fun _ _ => PAPI_OK) (fun c => c mod 2) (fun _ _ => PAPI_OK)
    (fun _ => false) (fun _ => PAPI_OK)
    (PAPI_OK, [7; 8]) [Some 1; None; Some 2] 2400 2 (fun _ => None)
    PAPI_OK (-1) true.

(** The state after a successful initialisation, before the events are
    determined. *)
Definition g_initiated : globals :=
  mk_globals (mk_registry [] 0 10 0 None 0) (mk_store None 0 0)
    (mk_lifecycle true false false false 1 true 7 0)
    (mk_effects [] [] false false).

(** One component with a delta event and an instant event, and an empty
    region store. *)
Definition g_two_events : globals :=
  mk_globals
    (mk_registry
       [mk_component 0 2 10 ["D"; "I"]%string [1; 2] [0; 1] None]
       1 10 2 (Some [Some "D"; Some "I"]%string) 2)
    (mk_store (Some []) 0 0)
    (mk_lifecycle true false true false 1 true 7 0)
    (mk_effects [] [] false false).

(** Thread-local buffers holding the cycle count [c] and the readings [d]
    and [i] of the two events. *)
Definition l_reading (c d i : Z) : locals :=
  mk_locals (Some [mk_local_component (Some [1; 2]) [d; i]]) c true 1 0.

(** A store in which thread 7 has the region "A", entered twice and read
    once. *)
Definition g_one_region : globals :=
  set_binary_tree
    (Some [mk_thread 7
             [mk_region "A"
                [mk_value 1 2 []; mk_value 200 50 [3]; mk_value 20 7 [1];
                 mk_value 6 12 [9]]]])
    g_two_events.

(** Thread 7 after one completed begin on the store [g_one_region]. *)
Definition l_after_begin : locals := l_reading 300 30 8.

(** The store [g_one_region] after one more begin than ends. *)
Definition g_unmatched : globals :=
  set_region_begin_cnt 3 (set_region_end_cnt 2 g_one_region).

(** Thread 7 on the registry [g_two_events], from an empty store: the calls
    begin("A"), end("A"), begin("B"), end("B"). *)
Definition g_two_regions : option globals :=
  '(_, g) ← region_pairs env_ok 7 "A"
              [(l_reading 100 10 4, l_reading 130 15 5)] g_two_events;
  '(_, g) ← region_pairs env_ok 7 "B"
              [(l_reading 200 20 6, l_reading 220 22 7)] g;
  Some g.

(** * Vocabulary of the further properties *)

(** ** Strings and the registry *)

(** The number of occurrences of a character in a string. *)
Fixpoint count_char (c : ascii) (s : string) : nat :=
  match s with
  | EmptyString => 0
  | String a s => (if decide (a = c) then 1 else 0) + count_char c s
  end.

(** A character occurs in a string. *)
Fixpoint occurs (c : ascii) (s : string) : Prop :=
  match s with
  | EmptyString => False
  | String a s => a = c \/ occurs c s
  end.

(** The arrays of a component have the allocated size and hold its events
    in their first cells. *)
Definition component_wf (c : components_t) : Prop :=
  length (event_names c) = max_num_of_events c
  /\ length (event_codes c) = max_num_of_events c
  /\ length (event_types c) = max_num_of_events c
  /\ (num_of_events c <= max_num_of_events c)%nat
  /\ (0 < max_num_of_events c)%nat.

(** The event in cell [k] of a component: name, code and type. *)
Definition component_event (c : components_t) (k : nat)
    : option (string * Z * Z) :=
  name ← event_names c !! k;
  code ← event_codes c !! k;
  type ← event_types c !! k;
  Some (name, code, type).

(** The requested event names are allocated, the first [n] of them are
    initialised and those from [n] up to [m] are not. *)
Definition names_ready (n m : nat) (g : globals) : Prop :=
  exists names,
    requested_event_names (reg g) = Some names
    /\ (forall i : nat, (i < n)%nat -> exists s, names !! i = Some (Some s))
    /\ (forall k : nat, (n <= k < m)%nat -> mjoin (names !! k) = None).

(** The requested event names are allocated and the first
    [num_of_requested_events] of them are initialised. *)
Definition names_initialised (g : globals) : Prop :=
  exists names,
    requested_event_names (reg g) = Some names
    /\ forall i : nat, (i < num_of_requested_events (reg g))%nat ->
                       exists s, names !! i = Some (Some s).

(** The component registry is in order: the array has its allocated size,
    the components in use fit in it and are well sized, and the number of
    tracked events is the number of events of the components in use. *)
Definition registry_wf (g : globals) : Prop :=
  length (components (reg g)) = max_num_of_components (reg g)
  /\ (num_of_components (reg g) <= max_num_of_components (reg g))%nat
  /\ (0 < max_num_of_components (reg g))%nat
  /\ slots_consistent g
  /\ forall i : nat,
       (i < num_of_components (reg g))%nat ->
       component_wf (components (reg g) !!! i).

(** Every event of component [c] belongs to it according to the library,
    under the name and the code it is stored with, and is supported. *)
Definition component_filed (env : papi_env) (c : components_t) : Prop :=
  forall (k : nat) (name : string) (code type : Z),
    (k < num_of_events c)%nat ->
    component_event c k = Some (name, code, type) ->
    PAPI_COMPONENT_INDEX env code = component_id c
    /\ PAPI_event_name_to_code env name = (PAPI_OK, code)
    /\ _internal_hl_checkCounter env name = PAPI_OK.

Definition events_filed (env : papi_env) (g : globals) : Prop :=
  forall i : nat,
    (i < num_of_components (reg g))%nat ->
    component_filed env (components (reg g) !!! i).

(** No two components in use have the same component id. *)
Definition ids_distinct (g : globals) : Prop :=
  forall i j : nat,
    (i < num_of_components (reg g))%nat ->
    (j < num_of_components (reg g))%nat ->
    component_id (components (reg g) !!! i)
    = component_id (components (reg g) !!! j) ->
    i = j.

(** The three together. *)
Definition registry_sorted (env : papi_env) (g : globals) : Prop :=
  registry_wf g /\ events_filed env g /\ ids_distinct g.

(** What holds between two iterations of the loop of
    [_internal_hl_create_components] over the first [n] names. *)
Definition create_components_inv (env : papi_env) (n m : nat)
    (vars : create_components_vars) (g : globals) : Prop :=
  registry_sorted env g
  /\ names_ready n m g
  /\ (v_component_exists vars = true ->
      (v_comp_index vars < num_of_components (reg g))%nat).

(** ** Concrete inputs *)

(** Three events were requested, the last one as an instantaneous value. *)
Definition g_requested : globals :=
  set_num_of_requested_events 3
    (set_requested_event_names
       (Some [Some "A"; Some "BB"; Some "CCC=instant"]%string) g_initiated).

(** ** Resolving the events *)

(** The library creates, cleans up and destroys event sets without
    failing. *)
Definition event_sets_ok (env : papi_env) : Prop :=
  PAPI_create_eventset env = PAPI_OK
  /\ (forall s, PAPI_cleanup_eventset env s = PAPI_OK)
  /\ (forall s, PAPI_destroy_eventset env s = PAPI_OK).

(** The registry as the static initialisers leave it: no component, no
    event, no requested name, room for at least one component. *)
Definition registry_clean (g : globals) : Prop :=
  (0 < max_num_of_components (reg g))%nat
  /\ num_of_components (reg g) = 0%nat
  /\ total_num_events (reg g) = 0%nat
  /\ num_of_requested_events (reg g) = 0%nat.

(** The event specification that [_internal_hl_read_events] parses, if
    any: its argument, or else the environment variable PAPI_EVENTS. *)
Definition user_events (env : papi_env) (events : option string)
    : option string :=
  match events with
  | Some events => Some events
  | None => getenv env "PAPI_EVENTS"
  end.

(** A specification that is not empty and has no empty field: as many
    tokens as commas, plus one. *)
Definition no_empty_field (s : string) : Prop :=
  s <> EmptyString
  /\ length (strtok s ","%char) = S (count_char ","%char s).

(** ** The region store *)

(** Two thread ids that [compar] cannot tell apart. *)
Definition same_thread (a b : Z) : Prop := (a - b) mod 2 ^ 32 = 0.

(** A region node with one slot per tracked event after the two fixed
    ones. *)
Definition region_wf (n : nat) (r : regions_t) : Prop :=
  length (region_values r) = (n + 2)%nat.



(** * Entering a region

    [PAPI_hl_region_begin] and the functions only it calls.  Two callees
    lie outside the model and are parameters of the section: PAPI_start of
    the hardware layer, and [_internal_hl_onetime_library_init], which runs
    [_internal_hl_library_init] once per process (pthread_once, atexit, the
    file system). *)

Section RegionBegin.

Variable env : papi_env.
Variable PAPI_start : eventset -> papi_retval.
Variable _internal_hl_onetime_library_init : globals -> globals.

Definition _internal_PAPI_hl_init (g : globals) : papi_retval * globals :=
  if decide (state (life g) = PAPIHL_ACTIVE) then
    if decide (hl_initiated (life g) = false /\ hl_finalized (life g) = false)
    then
      let g := _internal_hl_onetime_library_init g in
      (* check if the library has been initialized successfully *)
      if decide (state (life g) = PAPIHL_DEACTIVATED)
      then (PAPI_EMISC, g)
      else (PAPI_OK, g)
    else (PAPI_ENOINIT, g)
  else (PAPI_EMISC, g).

(** The loop [for ( j = 0; j < components[i].num_of_events; j++ )] that adds
    the event codes to the local event set; it returns with the code of the
    first PAPI_add_event that fails. *)
Fixpoint add_local_events (codes : list Z) (set : eventset)
    : eventset * option papi_retval :=
  match codes with
  | [] => (set, None)
  | code :: codes =>
      let retval := PAPI_add_event env set code in
      if decide (retval = PAPI_OK)
      then add_local_events codes (option_map (fun cs => cs ++ [code]) set)
      else (set, Some retval)
  end.

(** One iteration of the first loop of [_internal_hl_create_event_sets].
    The cells of a buffer that malloc returns hold 0 here. *)
Definition create_event_set (c : components_t) (g : globals)
    : local_components_t * globals * option papi_retval :=
  (* create EventSet *)
  let retval := PAPI_create_eventset env in
  if decide (retval = PAPI_OK) then
    let set : eventset := Some [] in
    (* Support multiplexing if user wants to *)
    let g :=
      match getenv env "PAPI_MULTIPLEX" with
      | Some _ =>
          (* multiplex only for cpu core events *)
          if decide (component_id c = 0) then
            if decide (PAPI_assign_eventset_component env set (component_id c)
                       = PAPI_OK)
            then
              if PAPI_get_multiplex env set then g
              else if decide (PAPI_set_multiplex env set = PAPI_OK) then g
                   else verbose_fprintf Err_set_multiplex_failed g
            else verbose_fprintf Err_assign_eventset_component_failed g
          else g
      | None => g
      end in
    (* add event to current EventSet *)
    match add_local_events (take (num_of_events c) (event_codes c)) set with
    | (set, Some retval) => (mk_local_component set [], g, Some retval)
    | (set, None) =>
        (* allocate memory for return values *)
        (mk_local_component set (replicate (num_of_events c) 0), g, None)
    end
  else (mk_local_component None [], g, Some retval).

Fixpoint create_local_sets (idxs : list nat) (g : globals)
    (lcs : list local_components_t)
    : globals * list local_components_t * option papi_retval :=
  match idxs with
  | [] => (g, lcs, None)
  | i :: idxs =>
      match create_event_set (components (reg g) !!! i) g with
      | (lc, g, Some retval) => (g, <[i := lc]> lcs, Some retval)
      | (lc, g, None) => create_local_sets idxs g (<[i := lc]> lcs)
      end
  end.

(** The second loop: every set is started and read once, to warm up the
    code paths.  The value returned on a failing read is the truth value of
    the comparison [PAPI_read_ts(...) != PAPI_OK], that is 1. *)
Fixpoint start_local_sets (idxs : list nat) (lcs : list local_components_t)
    : list local_components_t * option papi_retval :=
  match idxs with
  | [] => (lcs, None)
  | i :: idxs =>
      let lc := lcs !!! i in
      let retval := PAPI_start (local_EventSet lc) in
      if decide (retval = PAPI_OK) then
        (* warm up PAPI code paths and data structures *)
        let '(retval, vals, cycles) :=
          PAPI_read_ts env (local_EventSet lc) (values lc) in
        let lcs := <[i := mk_local_component (local_EventSet lc) vals]> lcs in
        if decide (retval = PAPI_OK)
        then start_local_sets idxs lcs
        else (lcs, Some (PAPI_EOTHER 1))
      else (lcs, Some retval)
  end.

Definition _internal_hl_create_event_sets (g : globals) (l : locals)
    : papi_retval * globals * locals :=
  if decide (state (life g) = PAPIHL_ACTIVE) then
    (* allocate memory for local components *)
    let n := num_of_components (reg g) in
    let lcs := replicate n inhabitant in
    match create_local_sets (seq 0 n) g lcs with
    | (g, lcs, Some retval) => (retval, g, set_local_components (Some lcs) l)
    | (g, lcs, None) =>
        match start_local_sets (seq 0 n) lcs with
        | (lcs, Some retval) => (retval, g, set_local_components (Some lcs) l)
        | (lcs, None) => (PAPI_OK, g, set_local_components (Some lcs) l)
        end
    end
  else (PAPI_EMISC, g, l).

Definition PAPI_hl_region_begin (name : string) (g : globals) (l : locals)
    : option (papi_retval * globals * locals) :=
  if decide (state (life g) = PAPIHL_DEACTIVATED)
  then Some (deactivated_entry env g l)
  else if decide (hl_finalized (life g) = true)
  then Some (PAPI_ENOTRUN, g, l)
  else
    let '(returned, g) :=
      if decide (hl_initiated (life g) = false)
      then
        let '(retval, g) := _internal_PAPI_hl_init g in
        (if decide (retval = PAPI_OK) then None else Some retval, g)
      else (None, g) in
    match returned with
    | Some retval => Some (retval, g, l)
    | None =>
        '(returned, g) ←
          (if decide (events_determined (life g) = false)
           then
             '(retval, g) ← _internal_PAPI_hl_set_events env None g;
             Some (if decide (retval = PAPI_OK) then None else Some retval, g)
           else Some (None, g));
        match returned with
        | Some retval => Some (retval, g, l)
        | None =>
            let '(returned, g, l) :=
              if decide (_local_components l = None)
              then
                let '(retval, g, l) := _internal_hl_create_event_sets g l in
                if decide (retval = PAPI_OK) then (None, g, l)
                else
                  let '(g, l) := _internal_hl_clean_up_all env true g l in
                  (Some retval, g, l)
              else (None, g, l) in
            match returned with
            | Some retval => Some (retval, g, l)
            | None =>
                (* read and store all events *)
                '(retval, g, l) ←
                  _internal_hl_read_and_store_counters env name REGION_BEGIN g l;
                if decide (retval = PAPI_OK)
                then Some (PAPI_OK, g,
                           set_local_region_begin_cnt
                             (int_of (_local_region_begin_cnt l + 1)) l)
                else Some (retval, g, l)
            end
        end
    end.

End RegionBegin.

(** ** Vocabulary for the local event sets *)

(** The hardware layer adds every event, starts every set and delivers the
    counters of every timed read. *)
Definition local_sets_ok (env : papi_env) (PAPI_start : eventset -> papi_retval)
    : Prop :=
  PAPI_create_eventset env = PAPI_OK
  /\ (forall set code, PAPI_add_event env set code = PAPI_OK)
  /\ (forall set, PAPI_start set = PAPI_OK)
  /\ (forall set vals, fst (fst (PAPI_read_ts env set vals)) = PAPI_OK).

(** The local event set that mirrors component [c]: it holds the codes of
    the events of [c] in order, and its buffer what the warm-up read left
    in a buffer of one cell per event. *)
Definition local_set_of (env : papi_env) (c : components_t)
    : local_components_t :=
  let set : eventset := Some (take (num_of_events c) (event_codes c)) in
  mk_local_component set
    (snd (fst (PAPI_read_ts env set (replicate (num_of_events c) 0)))).

(** The hardware layer delivers the counters of every read. *)
Definition reads_ok (env : papi_env) : Prop :=
  forall set vals,
    fst (PAPI_read env set vals) = PAPI_OK
    /\ fst (fst (PAPI_read_ts env set vals)) = PAPI_OK.

(** A library in its steady state: initiated, active, events determined,
    tree allocated. *)
Definition running (g : globals) : Prop :=
  state (life g) = PAPIHL_ACTIVE
  /\ hl_finalized (life g) = false
  /\ hl_initiated (life g) = true
  /\ events_determined (life g) = true
  /\ is_Some (binary_tree (sto g)).

(** What [_internal_hl_library_init] does to the variables of the model
    when the library can be initialised: it sets [hl_initiated] and leaves
    the library active; it may lower the verbosity, print and record the
    master thread. *)
Definition init_succeeds (init : globals -> globals) (g : globals) : Prop :=
  reg (init g) = reg g
  /\ sto (init g) = sto g
  /\ state (life (init g)) = PAPIHL_ACTIVE
  /\ hl_initiated (life (init g)) = true
  /\ hl_finalized (life (init g)) = hl_finalized (life g)
  /\ events_determined (life (init g)) = events_determined (life g).

(** ** The flags of the life cycle *)

(** The entry points of the file. *)
Inductive operation : Type :=
| Op_init
| Op_set_events (events : option string)
| Op_region_begin (name : string)
| Op_read (name : string)
| Op_region_end (name : string)
| Op_cleanup_thread
| Op_finalize
| Op_print_output.

(** One call of an entry point by the thread with the local variables [l];
    the return value is dropped. *)
Definition run_operation (env : papi_env) (PAPI_start : eventset -> papi_retval)
    (init : globals -> globals) (op : operation) (g : globals) (l : locals)
    : option (globals * locals) :=
  match op with
  | Op_init => Some (snd (_internal_PAPI_hl_init init g), l)
  | Op_set_events events =>
      '(_, g) ← _internal_PAPI_hl_set_events env events g; Some (g, l)
  | Op_region_begin name =>
      '(_, g, l) ← PAPI_hl_region_begin env PAPI_start init name g l; Some (g, l)
  | Op_read name => '(_, g, l) ← PAPI_hl_read env name g l; Some (g, l)
  | Op_region_end name => '(_, g, l) ← PAPI_hl_region_end env name g l; Some (g, l)
  | Op_cleanup_thread =>
      let '(_, g, l) := _internal_PAPI_hl_cleanup_thread env g l in Some (g, l)
  | Op_finalize =>
      let '(_, g, l) := _internal_PAPI_hl_finalize env g l in Some (g, l)
  | Op_print_output => g ← _internal_PAPI_hl_print_output env g; Some (g, l)
  end.

(** The flags move in one direction only: nothing reactivates the library,
    and nothing takes back that it was initiated, that its events were
    determined or that its output was generated; [hl_finalized] is not
    written at all. *)
Definition flags_le (c c' : lifecycle) : Prop :=
  (state c' = PAPIHL_ACTIVE -> state c = PAPIHL_ACTIVE)
  /\ (hl_initiated c = true -> hl_initiated c' = true)
  /\ (events_determined c = true -> events_determined c' = true)
  /\ (output_generated c = true -> output_generated c' = true)
  /\ hl_finalized c' = hl_finalized c.

(** A sequence of calls by one thread. *)
Fixpoint run_operations (env : papi_env) (PAPI_start : eventset -> papi_retval)
    (init : globals -> globals) (ops : list operation) (g : globals) (l : locals)
    : option (globals * locals) :=
  match ops with
  | [] => Some (g, l)
  | op :: ops =>
      '(g, l) ← run_operation env PAPI_start init op g l;
      run_operations env PAPI_start init ops g l
  end.

(** * Theorems *)

Local Arguments count_region_call : simpl never.
Local Arguments stored : simpl never.

(** ** Machine integers *)

Lemma wrap_signed_range_id (w x : Z) :
  0 < w -> - 2 ^ (w - 1) <= x < 2 ^ (w - 1) -> wrap_signed w x = x.
Proof.
  intros Hw Hx. unfold wrap_signed.
  assert (H2 : 2 ^ w = 2 * 2 ^ (w - 1)).
  { rewrite <- Z.pow_succ_r by lia. f_equal. lia. }
  rewrite Z.mod_small by lia. lia.
Qed.

Lemma wrap_signed_add_l (w a b : Z) :
  0 < w -> wrap_signed w (wrap_signed w a + b) = wrap_signed w (a + b).
Proof.
  intros Hw. unfold wrap_signed. f_equal.
  replace ((a + 2 ^ (w - 1)) mod 2 ^ w - 2 ^ (w - 1) + b + 2 ^ (w - 1))
    with ((a + 2 ^ (w - 1)) mod 2 ^ w + b) by lia.
  rewrite Zplus_mod_idemp_l. f_equal. lia.
Qed.

Lemma ll_range_id (x : Z) : ll_range x -> ll x = x.
Proof. intros H. apply wrap_signed_range_id; [lia | exact H]. Qed.

Lemma ll_add_ll_l (a b : Z) : ll_add (ll a) b = ll (a + b).
Proof. apply wrap_signed_add_l. lia. Qed.

Lemma ll_add_ll_r (a b : Z) : ll_add a (ll b) = ll (a + b).
Proof.
  unfold ll_add. rewrite (Z.add_comm a (ll b)), (Z.add_comm a b).
  apply wrap_signed_add_l. lia.
Qed.

Lemma ll_add_ll_sub (t a b : Z) : ll_add (ll t) (ll_sub a b) = ll (t + (a - b)).
Proof.
  unfold ll_sub. unfold ll_add. rewrite (Z.add_comm (ll t)).
  unfold ll at 1. rewrite wrap_signed_add_l by lia.
  rewrite Z.add_comm. apply wrap_signed_add_l. lia.
Qed.

(** ** The loop nest over the events *)

Section ForEachEvent.

Context {A : Type}.
Variable comps : list components_t.
Variable ncomps : nat.
Variable f : nat -> nat -> A -> A.

Lemma for_each_event_flat (c : nat) (vals : list A) :
  for_each_event comps ncomps f c vals
  = fold_left (slot_step f) (event_slots comps ncomps) (c, vals).
Proof.
  unfold for_each_event, event_slots.
  generalize (c, vals) as acc. generalize (seq 0 ncomps) as idxs.
  induction idxs as [|i idxs IH]; intros acc; simpl; [reflexivity|].
  rewrite fold_left_app, IH. f_equal.
  generalize (seq 0 (num_of_events (comps !!! i))) as js. clear.
  intros js. revert acc.
  induction js as [|j js IH]; intros acc; simpl; [reflexivity|].
  rewrite IH. reflexivity.
Qed.

Lemma slot_fold_lookup (es : list (nat * nat)) :
  forall (c : nat) (vals : list A) (k : nat),
    snd (fold_left (slot_step f) es (c, vals)) !! k
    = if decide (k < c)%nat then vals !! k
      else match es !! (k - c)%nat with
           | Some (i, j) => f i j <$> vals !! k
           | None => vals !! k
           end.
Proof.
  induction es as [|[i j] es IH]; intros c vals k; simpl.
  - destruct (decide (k < c)%nat); reflexivity.
  - unfold slot_step at 2. simpl. rewrite IH.
    destruct (decide (k < S c)%nat) as [Hlt|Hge].
    + destruct (decide (k < c)%nat) as [Hlt'|Hge'].
      * apply list_lookup_alter_ne. lia.
      * assert (k = c) by lia. subst k.
        replace (c - c)%nat with 0%nat by lia. simpl.
        rewrite list_lookup_alter. destruct (decide (c = c)); [reflexivity|lia].
    + destruct (decide (k < c)%nat) as [Hlt'|Hge']; [lia|].
      replace (k - c)%nat with (S (k - S c)) by lia. simpl.
      rewrite list_lookup_alter_ne by lia. reflexivity.
Qed.

Lemma for_each_event_lookup (c : nat) (vals : list A) (k : nat) :
  snd (for_each_event comps ncomps f c vals) !! k
  = if decide (k < c)%nat then vals !! k
    else match event_slots comps ncomps !! (k - c)%nat with
         | Some (i, j) => f i j <$> vals !! k
         | None => vals !! k
         end.
Proof. rewrite for_each_event_flat. apply slot_fold_lookup. Qed.

Lemma for_each_event_length (c : nat) (vals : list A) :
  length (snd (for_each_event comps ncomps f c vals)) = length vals.
Proof.
  rewrite for_each_event_flat.
  generalize (event_slots comps ncomps) as es. intros es. revert c vals.
  induction es as [|e es IH]; intros c vals; simpl; [reflexivity|].
  unfold slot_step at 2. simpl. rewrite IH. apply length_alter.
Qed.

(** A projection that no body changes is the same after the loops. *)
Lemma for_each_event_preserves {B : Type} (p : A -> B) (c : nat) (vals : list A) :
  (forall i j v, p (f i j v) = p v) ->
  p <$> snd (for_each_event comps ncomps f c vals) = p <$> vals.
Proof.
  intros Hp. apply list_eq. intros k. rewrite !list_lookup_fmap.
  rewrite for_each_event_lookup.
  destruct (decide (k < c)%nat); [reflexivity|].
  destruct (event_slots comps ncomps !! (k - c)%nat) as [[i j]|]; [|reflexivity].
  destruct (vals !! k); simpl; [|reflexivity]. rewrite Hp. reflexivity.
Qed.

End ForEachEvent.

Lemma fmap_alter_preserved {A B : Type} (p : A -> B) (h : A -> A) (i : nat)
    (l : list A) :
  (forall v, p (h v) = p v) -> p <$> alter h i l = p <$> l.
Proof.
  intros Hp. apply list_eq. intros k. rewrite !list_lookup_fmap.
  rewrite list_lookup_alter. destruct (decide (i = k)) as [->|]; [|reflexivity].
  destruct (l !! k); simpl; [|reflexivity]. rewrite Hp. reflexivity.
Qed.

(** ** One call on one node, slot by slot *)

Lemma add_values_retval comps ncomps l node reg_typ :
  fst (_internal_hl_add_values_to_region comps ncomps l node reg_typ) = PAPI_OK.
Proof. destruct reg_typ; reflexivity. Qed.

Lemma add_values_region comps ncomps l node reg_typ :
  region (snd (_internal_hl_add_values_to_region comps ncomps l node reg_typ))
  = region node.
Proof. destruct reg_typ; reflexivity. Qed.

Lemma add_values_lookup comps ncomps l node reg_typ (k : nat) :
  region_values
    (snd (_internal_hl_add_values_to_region comps ncomps l node reg_typ)) !! k
  = slot_update comps ncomps l reg_typ k <$> region_values node !! k.
Proof.
  destruct reg_typ; simpl; rewrite for_each_event_lookup; unfold slot_update;
    (destruct k as [|[|k]]; simpl;
     [ rewrite ?list_lookup_alter_ne by lia; rewrite ?list_lookup_alter; simpl;
       destruct (region_values node !! 0%nat); reflexivity
     | rewrite ?list_lookup_alter_ne by lia; rewrite ?list_lookup_alter; simpl;
       rewrite ?list_lookup_alter_ne by lia;
       destruct (region_values node !! 1%nat); reflexivity
     | rewrite Nat.sub_0_r;
       destruct (event_slots comps ncomps !! k) as [[i j]|];
       rewrite ?list_lookup_alter_ne by lia;
       destruct (region_values node !! S (S k)); reflexivity ]).
Qed.

Lemma add_values_length comps ncomps l node reg_typ :
  length (region_values
            (snd (_internal_hl_add_values_to_region comps ncomps l node reg_typ)))
  = length (region_values node).
Proof.
  destruct reg_typ; simpl; rewrite for_each_event_length, ?length_alter;
    reflexivity.
Qed.

(** ** Finding and writing nodes *)

Lemma list_find_insert_same {A : Type} (P : A -> Prop)
    `{!forall x, Decision (P x)} (l : list A) (i : nat) (x y : A) :
  list_find P l = Some (i, x) -> P y ->
  list_find P (<[i := y]> l) = Some (i, y).
Proof.
  intros Hfind Hy. apply list_find_Some in Hfind as (Hi & Hx & Hbefore).
  apply list_find_Some. split; [|split].
  - apply list_lookup_insert_eq. eapply lookup_lt_Some; eassumption.
  - exact Hy.
  - intros j z Hj Hlt. rewrite list_lookup_insert_ne in Hj by lia.
    eapply Hbefore; eassumption.
Qed.

Lemma compar_same_key (probe n : threads_t) :
  key probe = key n -> compar probe n = 0.
Proof.
  intros H. unfold compar. rewrite H, Z.sub_diag. reflexivity.
Qed.

Lemma find_thread_write (root : list threads_t) (tid : Z) (i : nat)
    (node : threads_t) (head_node : list regions_t) :
  _internal_hl_find_thread_node root tid = Some (i, node) ->
  _internal_hl_find_thread_node
    (write_thread root tid (mk_thread (key node) head_node)) tid
  = Some (i, mk_thread (key node) head_node).
Proof.
  intros Hfind. unfold write_thread. rewrite Hfind.
  unfold _internal_hl_find_thread_node, tfind in *.
  eapply list_find_insert_same; [exact Hfind|].
  apply list_find_Some in Hfind as (_ & Hx & _). exact Hx.
Qed.

Lemma find_region_write (head_node : list regions_t) (name : string)
    (i : nat) (node node' : regions_t) :
  _internal_hl_find_region_node head_node name = Some (i, node) ->
  region node' = name ->
  _internal_hl_find_region_node (write_region head_node name node') name
  = Some (i, node').
Proof.
  intros Hfind Hname. unfold write_region. rewrite Hfind.
  unfold _internal_hl_find_region_node in *.
  eapply list_find_insert_same; eassumption.
Qed.

Lemma find_region_name (head_node : list regions_t) (name : string)
    (i : nat) (node : regions_t) :
  _internal_hl_find_region_node head_node name = Some (i, node) ->
  region node = name /\ head_node !! i = Some node.
Proof.
  unfold _internal_hl_find_region_node. intros H.
  apply list_find_Some in H as (Hi & Hx & _). auto.
Qed.

(** ** [_internal_hl_store_counters], case by case *)

Section StoreCounters.

Variable env : papi_env.
Variable tid : Z.
Variable name : string.
Variable g : globals.
Variable l : locals.
Variable root : list threads_t.
Hypothesis Htree : binary_tree (sto g) = Some root.

Lemma store_counters_existing (reg_typ : region_type) (it ir : nat)
    (thr : threads_t) (node : regions_t) :
  _internal_hl_find_thread_node root tid = Some (it, thr) ->
  _internal_hl_find_region_node (value thr) name = Some (ir, node) ->
  _internal_hl_store_counters env tid name reg_typ g l
  = Some (PAPI_OK,
          count_region_call reg_typ
            (set_binary_tree
               (Some (<[it := mk_thread (key thr)
                                (<[ir := stored g l reg_typ node]> (value thr))]> root))
               g)).
Proof.
  intros Hthr Hreg. unfold _internal_hl_store_counters.
  rewrite Htree. simpl. rewrite Hthr, Hreg.
  unfold write_region, write_thread. rewrite Hreg, Hthr.
  pose proof (add_values_retval (components (reg g)) (num_of_components (reg g))
                l node reg_typ) as Hret.
  unfold stored.
  destruct (_internal_hl_add_values_to_region _ _ l node reg_typ) as [retval node'].
  simpl in Hret. subst retval. simpl.
  destruct reg_typ; reflexivity.
Qed.

Lemma store_counters_new_region (it : nat) (thr : threads_t) :
  _internal_hl_find_thread_node root tid = Some (it, thr) ->
  _internal_hl_find_region_node (value thr) name = None ->
  _internal_hl_store_counters env tid name REGION_BEGIN g l
  = Some (PAPI_OK,
          count_region_call REGION_BEGIN
            (set_binary_tree
               (Some (<[it := mk_thread (key thr)
                                (stored g l REGION_BEGIN
                                   (fresh_region_node (total_num_events (reg g)) name)
                                 :: value thr)]> root))
               g)).
Proof.
  intros Hthr Hreg. unfold _internal_hl_store_counters.
  rewrite Htree. simpl. rewrite Hthr, Hreg. simpl.
  unfold write_region, write_thread, _internal_hl_find_region_node.
  simpl. rewrite decide_True by reflexivity. rewrite Hthr. reflexivity.
Qed.

Lemma store_counters_new_thread :
  _internal_hl_find_thread_node root tid = None ->
  _internal_hl_store_counters env tid name REGION_BEGIN g l
  = Some (PAPI_OK,
          count_region_call REGION_BEGIN
            (set_binary_tree
               (Some (mk_thread tid
                        [stored g l REGION_BEGIN
                           (fresh_region_node (total_num_events (reg g)) name)]
                      :: root))
               g)).
Proof.
  intros Hthr. unfold _internal_hl_store_counters.
  rewrite Htree. simpl. rewrite Hthr. simpl.
  unfold tsearch. unfold _internal_hl_find_thread_node in Hthr. rewrite Hthr.
  unfold write_region, write_thread, _internal_hl_find_region_node,
    _internal_hl_find_thread_node, tfind.
  simpl.
  rewrite (decide_True (P := name = name)) by reflexivity.
  rewrite (decide_True (P := compar (mk_thread tid []) (mk_thread tid []) = 0))
    by (apply compar_same_key; reflexivity).
  reflexivity.
Qed.

Lemma store_counters_no_thread (reg_typ : region_type) :
  reg_typ <> REGION_BEGIN ->
  _internal_hl_find_thread_node root tid = None ->
  _internal_hl_store_counters env tid name reg_typ g l = Some (PAPI_EINVAL, g).
Proof.
  intros Htyp Hthr. unfold _internal_hl_store_counters.
  rewrite Htree. simpl. rewrite Hthr.
  rewrite decide_False by exact Htyp. reflexivity.
Qed.

Lemma store_counters_no_region (reg_typ : region_type) (it : nat)
    (thr : threads_t) :
  reg_typ <> REGION_BEGIN ->
  _internal_hl_find_thread_node root tid = Some (it, thr) ->
  _internal_hl_find_region_node (value thr) name = None ->
  _internal_hl_store_counters env tid name reg_typ g l
  = Some (if decide (reg_typ = REGION_READ)
          then (PAPI_OK,
                verbose_fprintf (Warn_no_matching_read name (PAPI_thread_id env)) g)
          else (PAPI_EINVAL,
                verbose_fprintf (Warn_no_matching_end name (PAPI_thread_id env)) g)).
Proof.
  intros Htyp Hthr Hreg. unfold _internal_hl_store_counters.
  rewrite Htree. simpl. rewrite Hthr, Hreg.
  rewrite decide_False by exact Htyp.
  destruct (decide (reg_typ = REGION_READ)); reflexivity.
Qed.

End StoreCounters.

Lemma count_region_call_reg reg_typ t g :
  reg (count_region_call reg_typ (set_binary_tree t g)) = reg g.
Proof. destruct reg_typ; reflexivity. Qed.

Lemma count_region_call_tree reg_typ t g :
  binary_tree (sto (count_region_call reg_typ (set_binary_tree t g))) = t.
Proof. destruct reg_typ; reflexivity. Qed.

Lemma count_region_call_life reg_typ t g :
  life (count_region_call reg_typ (set_binary_tree t g)) = life g.
Proof. destruct reg_typ; reflexivity. Qed.

Lemma count_region_call_eff reg_typ t g :
  eff (count_region_call reg_typ (set_binary_tree t g)) = eff g.
Proof. destruct reg_typ; reflexivity. Qed.

Lemma stored_region g l reg_typ node : region (stored g l reg_typ node) = region node.
Proof. apply add_values_region. Qed.

Lemma stored_lookup g l reg_typ node (k : nat) :
  region_values (stored g l reg_typ node) !! k
  = slot_update (components (reg g)) (num_of_components (reg g)) l reg_typ k
      <$> region_values node !! k.
Proof. apply add_values_lookup. Qed.

(** ** The region of a thread after a call *)

Lemma lookup_region_written (root : list threads_t) (tid : Z) (name : string)
    (it ir : nat) (thr : threads_t) (node node' : regions_t) :
  _internal_hl_find_thread_node root tid = Some (it, thr) ->
  _internal_hl_find_region_node (value thr) name = Some (ir, node) ->
  region node' = name ->
  lookup_region
    (<[it := mk_thread (key thr) (<[ir := node']> (value thr))]> root) tid name
  = Some node'.
Proof.
  intros Hthr Hreg Hname. unfold lookup_region.
  unfold _internal_hl_find_thread_node, tfind in *.
  erewrite list_find_insert_same; [|exact Hthr|].
  - simpl. unfold _internal_hl_find_region_node in *.
    erewrite list_find_insert_same; [reflexivity|exact Hreg|exact Hname].
  - apply list_find_Some in Hthr as (_ & Hx & _). exact Hx.
Qed.

Lemma lookup_region_new_region (root : list threads_t) (tid : Z)
    (name : string) (it : nat) (thr : threads_t) (node' : regions_t) :
  _internal_hl_find_thread_node root tid = Some (it, thr) ->
  region node' = name ->
  lookup_region (<[it := mk_thread (key thr) (node' :: value thr)]> root) tid name
  = Some node'.
Proof.
  intros Hthr Hname. unfold lookup_region.
  unfold _internal_hl_find_thread_node, tfind in *.
  erewrite list_find_insert_same; [|exact Hthr|].
  - simpl. unfold _internal_hl_find_region_node. simpl.
    rewrite decide_True by exact Hname. reflexivity.
  - apply list_find_Some in Hthr as (_ & Hx & _). exact Hx.
Qed.

Lemma lookup_region_new_thread (root : list threads_t) (tid : Z)
    (name : string) (node' : regions_t) :
  region node' = name ->
  lookup_region (mk_thread tid [node'] :: root) tid name = Some node'.
Proof.
  intros Hname. unfold lookup_region, _internal_hl_find_thread_node, tfind.
  simpl.
  rewrite (decide_True (P := compar (mk_thread tid []) (mk_thread tid [node']) = 0))
    by (apply compar_same_key; reflexivity).
  simpl. unfold _internal_hl_find_region_node. simpl.
  rewrite decide_True by exact Hname. reflexivity.
Qed.

Section StoreLookup.

Variable env : papi_env.
Variable tid : Z.
Variable name : string.
Variable g : globals.
Variable l : locals.
Variable root : list threads_t.
Hypothesis Htree : binary_tree (sto g) = Some root.

(** A begin call always succeeds; it works on the node of the region, or on
    a fresh one when the thread has none of that name. *)
Lemma store_counters_begin :
  exists root',
    _internal_hl_store_counters env tid name REGION_BEGIN g l
    = Some (PAPI_OK,
            count_region_call REGION_BEGIN (set_binary_tree (Some root') g))
    /\ lookup_region root' tid name
       = Some (stored g l REGION_BEGIN
                 (default (fresh_region_node (total_num_events (reg g)) name)
                    (lookup_region root tid name))).
Proof.
  unfold lookup_region at 2.
  destruct (_internal_hl_find_thread_node root tid) as [[it thr]|] eqn:Hthr.
  - simpl.
    destruct (_internal_hl_find_region_node (value thr) name) as [[ir node]|] eqn:Hreg.
    + simpl. eexists. split.
      * eapply store_counters_existing; eassumption.
      * eapply lookup_region_written; try eassumption.
        rewrite stored_region. eapply find_region_name; eassumption.
    + simpl. eexists. split.
      * eapply store_counters_new_region; eassumption.
      * eapply lookup_region_new_region; try eassumption.
        rewrite stored_region. reflexivity.
  - simpl. eexists. split.
    + eapply store_counters_new_thread; eassumption.
    + eapply lookup_region_new_thread. rewrite stored_region. reflexivity.
Qed.

(** A call on a region that has its node succeeds and works on that node. *)
Lemma store_counters_found (reg_typ : region_type) (node : regions_t) :
  lookup_region root tid name = Some node ->
  exists root',
    _internal_hl_store_counters env tid name reg_typ g l
    = Some (PAPI_OK, count_region_call reg_typ (set_binary_tree (Some root') g))
    /\ lookup_region root' tid name = Some (stored g l reg_typ node).
Proof.
  unfold lookup_region at 1.
  destruct (_internal_hl_find_thread_node root tid) as [[it thr]|] eqn:Hthr;
    [|discriminate].
  simpl.
  destruct (_internal_hl_find_region_node (value thr) name) as [[ir node0]|] eqn:Hreg;
    [|discriminate].
  simpl. intros [= <-]. eexists. split.
  - eapply store_counters_existing; eassumption.
  - eapply lookup_region_written; try eassumption.
    rewrite stored_region. eapply find_region_name; eassumption.
Qed.

End StoreLookup.

(** ** Totals over matched pairs *)

Lemma ll_idem (x : Z) : ll (ll x) = ll x.
Proof.
  pose proof (wrap_signed_add_l 64 x 0) as H. rewrite !Z.add_0_r in H.
  apply H. lia.
Qed.

Lemma ll_add_idem (a b : Z) : ll (ll_add a b) = ll_add a b.
Proof. apply ll_idem. Qed.

Section PairTotals.

Variable comps : list components_t.
Variable ncomps : nat.

Lemma pair_update_total (k : nat) (v : value_t) (p : locals * locals) :
  ll (total v) = total v ->
  total (pair_update comps ncomps k v p)
  = ll (total v + pair_delta comps ncomps k p).
Proof.
  intros Hv. unfold pair_update, pair_delta, slot_update.
  destruct k as [|[|k]]; simpl.
  - reflexivity.
  - apply ll_add_ll_r.
  - destruct (event_slots comps ncomps !! k) as [[i j]|].
    + destruct (decide (event_type_of comps i j = 1)); simpl.
      * reflexivity.
      * apply ll_add_ll_r.
    + rewrite Z.add_0_r. symmetry. exact Hv.
Qed.

Lemma pairs_update_total (k : nat) (pairs : list (locals * locals)) :
  forall v : value_t,
    ll (total v) = total v ->
    total (fold_left (pair_update comps ncomps k) pairs v)
    = ll (total v + sum_Z (map (pair_delta comps ncomps k) pairs)).
Proof.
  induction pairs as [|p pairs IH]; intros v Hv; simpl.
  - rewrite Z.add_0_r. symmetry. exact Hv.
  - rewrite IH.
    + rewrite pair_update_total by exact Hv.
      fold (ll_add (ll (total v + pair_delta comps ncomps k p))
              (sum_Z (map (pair_delta comps ncomps k) pairs))).
      rewrite ll_add_ll_l. f_equal. lia.
    + rewrite pair_update_total by exact Hv. apply ll_idem.
Qed.

End PairTotals.

Section RegionPairs.

Variable env : papi_env.
Variable tid : Z.
Variable name : string.

Lemma region_pairs_found (pairs : list (locals * locals)) :
  forall (g : globals) (root : list threads_t) (node : regions_t),
    binary_tree (sto g) = Some root ->
    lookup_region root tid name = Some node ->
    exists g' root' node',
      region_pairs env tid name pairs g
      = Some (replicate (2 * length pairs) PAPI_OK, g')
      /\ reg g' = reg g
      /\ binary_tree (sto g') = Some root'
      /\ lookup_region root' tid name = Some node'
      /\ forall k : nat,
           region_values node' !! k
           = (fun v => fold_left
                         (pair_update (components (reg g))
                            (num_of_components (reg g)) k) pairs v)
               <$> region_values node !! k.
Proof.
  induction pairs as [|[l_begin l_end] pairs IH]; intros g root node Htree Hnode.
  - exists g, root, node. simpl. repeat split; try assumption.
    intros k. destruct (region_values node !! k); reflexivity.
  - destruct (store_counters_found env tid name g l_begin root Htree
                REGION_BEGIN node Hnode) as (root1 & Hcall1 & Hnode1).
    set (g1 := count_region_call REGION_BEGIN (set_binary_tree (Some root1) g)) in *.
    assert (Htree1 : binary_tree (sto g1) = Some root1)
      by apply count_region_call_tree.
    assert (Hreg1 : reg g1 = reg g) by apply count_region_call_reg.
    destruct (store_counters_found env tid name g1 l_end root1 Htree1
                REGION_END _ Hnode1) as (root2 & Hcall2 & Hnode2).
    set (g2 := count_region_call REGION_END (set_binary_tree (Some root2) g1)) in *.
    assert (Htree2 : binary_tree (sto g2) = Some root2)
      by apply count_region_call_tree.
    assert (Hreg2 : reg g2 = reg g).
    { unfold g2. rewrite count_region_call_reg. exact Hreg1. }
    destruct (IH g2 root2 _ Htree2 Hnode2)
      as (g' & root' & node' & Hrun & Hreg' & Htree' & Hnode' & Hvals).
    exists g', root', node'. split; [|split; [|split; [|split]]].
    + cbn [region_pairs]. rewrite Hcall1. cbn [mbind option_bind].
      rewrite Hcall2. cbn [mbind option_bind]. rewrite Hrun.
      cbn [mbind option_bind length].
      replace (2 * S (length pairs))%nat with (S (S (2 * length pairs))) by lia.
      reflexivity.
    + congruence.
    + exact Htree'.
    + exact Hnode'.
    + intros k. rewrite Hvals, !stored_lookup, Hreg2, Hreg1.
      destruct (region_values node !! k); reflexivity.
Qed.

(** From any store: the first begin finds the node or makes a fresh one. *)
Lemma region_pairs_run (p : locals * locals) (ps : list (locals * locals))
    (g : globals) (root : list threads_t) :
  binary_tree (sto g) = Some root ->
  exists g' root' node',
    region_pairs env tid name (p :: ps) g
    = Some (replicate (2 * length (p :: ps)) PAPI_OK, g')
    /\ reg g' = reg g
    /\ binary_tree (sto g') = Some root'
    /\ lookup_region root' tid name = Some node'
    /\ forall k : nat,
         region_values node' !! k
         = (fun v => fold_left
                       (pair_update (components (reg g))
                          (num_of_components (reg g)) k) (p :: ps) v)
             <$> region_values
                   (default (fresh_region_node (total_num_events (reg g)) name)
                      (lookup_region root tid name)) !! k.
Proof.
  intros Htree. destruct p as [l_begin l_end].
  destruct (store_counters_begin env tid name g l_begin root Htree)
    as (root1 & Hcall1 & Hnode1).
  set (g1 := count_region_call REGION_BEGIN (set_binary_tree (Some root1) g)) in *.
  assert (Htree1 : binary_tree (sto g1) = Some root1)
    by apply count_region_call_tree.
  assert (Hreg1 : reg g1 = reg g) by apply count_region_call_reg.
  destruct (store_counters_found env tid name g1 l_end root1 Htree1
              REGION_END _ Hnode1) as (root2 & Hcall2 & Hnode2).
  set (g2 := count_region_call REGION_END (set_binary_tree (Some root2) g1)) in *.
  assert (Htree2 : binary_tree (sto g2) = Some root2)
    by apply count_region_call_tree.
  assert (Hreg2 : reg g2 = reg g).
  { unfold g2. rewrite count_region_call_reg. exact Hreg1. }
  destruct (region_pairs_found ps g2 root2 _ Htree2 Hnode2)
    as (g' & root' & node' & Hrun & Hreg' & Htree' & Hnode' & Hvals).
  exists g', root', node'. split; [|split; [|split; [|split]]].
  - cbn [region_pairs]. rewrite Hcall1. cbn [mbind option_bind].
    rewrite Hcall2. cbn [mbind option_bind]. rewrite Hrun.
    cbn [mbind option_bind length].
    replace (2 * S (length ps))%nat with (S (S (2 * length ps))) by lia.
    reflexivity.
  - congruence.
  - exact Htree'.
  - exact Hnode'.
  - intros k. rewrite Hvals, !stored_lookup, Hreg2, Hreg1.
    destruct (region_values _ !! k); reflexivity.
Qed.

End RegionPairs.

Lemma sum_Z_ones {A : Type} (xs : list A) :
  sum_Z (map (fun _ => 1) xs) = Z.of_nat (length xs).
Proof. induction xs as [|x xs IH]; simpl; [reflexivity|]. rewrite IH. lia. Qed.

Lemma fresh_region_node_lookup (n : nat) (name : string) (k : nat) :
  (k < n + 2)%nat ->
  region_values (fresh_region_node n name) !! k = Some (mk_value 0 0 []).
Proof. intros Hk. simpl. apply lookup_replicate_2. exact Hk. Qed.

(** C1: after N matched begin/end pairs on a region that had no node, the
    slot 0 total is N, the total of the cycles slot and of every delta
    event slot is the sum over the pairs of (reading at end - reading at
    begin), and the total of every instant event slot is the sum of the
    readings at the N end calls; every call returns PAPI_OK.  The sums are
    those of the integers whenever they fit a long_long. *)
Theorem region_pairs_totals (env : papi_env) (tid : Z) (name : string)
    (g : globals) (root : list threads_t) (p : locals * locals)
    (ps : list (locals * locals)) :
  binary_tree (sto g) = Some root ->
  lookup_region root tid name = None ->
  slots_consistent g ->
  exists g' root' node,
    region_pairs env tid name (p :: ps) g
    = Some (replicate (2 * length (p :: ps)) PAPI_OK, g')
    /\ binary_tree (sto g') = Some root'
    /\ lookup_region root' tid name = Some node
    /\ (Z.of_nat (length (p :: ps)) < 2 ^ 63 ->
        slot_total node 0 = Some (Z.of_nat (length (p :: ps))))
    /\ (ll_range (sum_Z (map (fun q => _local_cycles (snd q) - _local_cycles (fst q))
                           (p :: ps))) ->
        slot_total node 1
        = Some (sum_Z (map (fun q => _local_cycles (snd q) - _local_cycles (fst q))
                         (p :: ps))))
    /\ forall k i j : nat,
         event_slots (components (reg g)) (num_of_components (reg g)) !! k
         = Some (i, j) ->
         (event_type_of (components (reg g)) i j <> 1 ->
          ll_range (sum_Z (map (fun q => local_value (snd q) i j
                                         - local_value (fst q) i j) (p :: ps))) ->
          slot_total node (2 + k)
          = Some (sum_Z (map (fun q => local_value (snd q) i j
                                       - local_value (fst q) i j) (p :: ps))))
         /\ (event_type_of (components (reg g)) i j = 1 ->
             ll_range (sum_Z (map (fun q => local_value (snd q) i j) (p :: ps))) ->
             slot_total node (2 + k)
             = Some (sum_Z (map (fun q => local_value (snd q) i j) (p :: ps)))).
Proof.
  intros Htree Hnone Hcons.
  destruct (region_pairs_run env tid name p ps g root Htree)
    as (g' & root' & node & Hrun & _ & Htree' & Hnode & Hvals).
  rewrite Hnone in Hvals. cbn [default] in Hvals.
  assert (Hslot : forall k : nat,
             (k < total_num_events (reg g) + 2)%nat ->
             slot_total node k
             = Some (ll (sum_Z (map (pair_delta (components (reg g))
                                       (num_of_components (reg g)) k) (p :: ps))))).
  { intros k Hk. unfold slot_total. rewrite Hvals.
    rewrite fresh_region_node_lookup by exact Hk.
    cbn [fmap option_fmap option_map]. f_equal.
    rewrite pairs_update_total by reflexivity. reflexivity. }
  exists g', root', node.
  split; [exact Hrun|]. split; [exact Htree'|]. split; [exact Hnode|].
  split; [|split].
  - intros HN. rewrite Hslot by lia. f_equal.
    change (pair_delta (components (reg g)) (num_of_components (reg g)) 0)
      with (fun _ : locals * locals => 1).
    rewrite sum_Z_ones. apply ll_range_id. unfold ll_range. lia.
  - intros Hr. rewrite Hslot by lia. f_equal. apply ll_range_id. exact Hr.
  - intros k i j Hk.
    assert (Hlt : (2 + k < total_num_events (reg g) + 2)%nat).
    { rewrite Hcons. apply lookup_lt_Some in Hk. lia. }
    assert (Hdelta : forall q,
               pair_delta (components (reg g)) (num_of_components (reg g))
                 (2 + k) q
               = if decide (event_type_of (components (reg g)) i j = 1)
                 then local_value (snd q) i j
                 else local_value (snd q) i j - local_value (fst q) i j).
    { intros q. cbn [pair_delta Nat.add]. rewrite Hk. reflexivity. }
    split; intros Htyp Hr; rewrite Hslot by exact Hlt; f_equal;
      rewrite (map_ext _ _ Hdelta).
    + rewrite (map_ext _ (fun q => local_value (snd q) i j - local_value (fst q) i j)).
      * apply ll_range_id. exact Hr.
      * intros q. rewrite decide_False by exact Htyp. reflexivity.
    + rewrite (map_ext _ (fun q => local_value (snd q) i j)).
      * apply ll_range_id. exact Hr.
      * intros q. rewrite decide_True by exact Htyp. reflexivity.
Qed.

(** Closed range side conditions. *)
Ltac range_by_computation :=
  vm_compute; split; [discriminate | reflexivity].

Lemma region_pairs_totals_witness :
  exists node : regions_t,
    slot_total node 0 = Some 2
    /\ slot_total node 1 = Some 50
    /\ slot_total node 2 = Some 7
    /\ slot_total node 3 = Some 12.
Proof.
  destruct (region_pairs_totals env_ok 7 "A" g_two_events []
              (l_reading 100 10 4, l_reading 130 15 5)
              [(l_reading 200 20 6, l_reading 220 22 7)]
              eq_refl eq_refl eq_refl)
    as (g' & root' & node & _ & _ & _ & H0 & H1 & Hk).
  exists node. split; [|split; [|split]].
  - apply H0. reflexivity.
  - apply H1. range_by_computation.
  - apply (Hk 0%nat 0%nat 0%nat eq_refl).
    + vm_compute. discriminate.
    + range_by_computation.
  - apply (Hk 1%nat 0%nat 1%nat eq_refl).
    + reflexivity.
    + range_by_computation.
Defined.

(** ** Frame of a begin call *)

Lemma slot_update_begin_frame comps ncomps l (k : nat) (v : value_t) :
  total (slot_update comps ncomps l REGION_BEGIN k v) = total v
  /\ read_values (slot_update comps ncomps l REGION_BEGIN k v) = read_values v.
Proof.
  unfold slot_update. destruct k as [|[|k]]; simpl; [auto|auto|].
  destruct (event_slots comps ncomps !! k) as [[i j]|]; auto.
Qed.

Lemma stored_begin_preserves {B : Type} (p : value_t -> B) g l node :
  (forall comps ncomps k v,
      p (slot_update comps ncomps l REGION_BEGIN k v) = p v) ->
  p <$> region_values (stored g l REGION_BEGIN node) = p <$> region_values node.
Proof.
  intros Hp. apply list_eq. intros k. rewrite !list_lookup_fmap, stored_lookup.
  destruct (region_values node !! k); simpl; [|reflexivity].
  rewrite Hp. reflexivity.
Qed.

(** C10: a begin call that finds the node of its (thread, region) pair
    returns PAPI_OK and rewrites that node where it stands; the node keeps
    its name, and every slot keeps its total and its read samples; the
    other nodes of the thread, and the other threads, are as before. *)
Theorem region_begin_existing_frame (env : papi_env) (tid : Z) (name : string)
    (g : globals) (l : locals) (root : list threads_t) (it ir : nat)
    (thr : threads_t) (node : regions_t) :
  binary_tree (sto g) = Some root ->
  _internal_hl_find_thread_node root tid = Some (it, thr) ->
  _internal_hl_find_region_node (value thr) name = Some (ir, node) ->
  exists (g' : globals) (root' : list threads_t) (thr' : threads_t)
         (node' : regions_t),
    _internal_hl_store_counters env tid name REGION_BEGIN g l = Some (PAPI_OK, g')
    /\ binary_tree (sto g') = Some root'
    /\ reg g' = reg g
    (* the thread node and the region node stand where they stood *)
    /\ root' !! it = Some thr' /\ key thr' = key thr
    /\ value thr' !! ir = Some node'
    (* the store has the same shape, and nothing else in it changed *)
    /\ length root' = length root
    /\ (forall j : nat, j <> it -> root' !! j = root !! j)
    /\ length (value thr') = length (value thr)
    /\ (forall j : nat, j <> ir -> value thr' !! j = value thr !! j)
    (* in the node only the offsets were written *)
    /\ region node' = region node
    /\ total <$> region_values node' = total <$> region_values node
    /\ read_values <$> region_values node' = read_values <$> region_values node.
Proof.
  intros Htree Hthr Hreg.
  exists (count_region_call REGION_BEGIN
            (set_binary_tree
               (Some (<[it := mk_thread (key thr)
                                (<[ir := stored g l REGION_BEGIN node]> (value thr))]>
                        root)) g)),
    (<[it := mk_thread (key thr)
               (<[ir := stored g l REGION_BEGIN node]> (value thr))]> root),
    (mk_thread (key thr) (<[ir := stored g l REGION_BEGIN node]> (value thr))),
    (stored g l REGION_BEGIN node).
  assert (Hit : (it < length root)%nat).
  { unfold _internal_hl_find_thread_node, tfind in Hthr.
    apply list_find_Some in Hthr as (Hi & _). eapply lookup_lt_Some; eassumption. }
  assert (Hir : (ir < length (value thr))%nat).
  { apply find_region_name in Hreg as (_ & Hi). eapply lookup_lt_Some; eassumption. }
  split_and!.
  - eapply store_counters_existing; eassumption.
  - apply count_region_call_tree.
  - apply count_region_call_reg.
  - apply list_lookup_insert_eq. exact Hit.
  - reflexivity.
  - cbn [value]. apply list_lookup_insert_eq. exact Hir.
  - apply length_insert.
  - intros j Hj. apply list_lookup_insert_ne. congruence.
  - cbn [value]. apply length_insert.
  - intros j Hj. cbn [value]. apply list_lookup_insert_ne. congruence.
  - apply stored_region.
  - apply stored_begin_preserves. intros. apply slot_update_begin_frame.
  - apply stored_begin_preserves. intros. apply slot_update_begin_frame.
Qed.

Lemma region_begin_existing_frame_witness :
  exists (g' : globals) (node' : regions_t),
    _internal_hl_store_counters env_ok 7 "A" REGION_BEGIN g_one_region
      (l_reading 300 30 8) = Some (PAPI_OK, g')
    /\ region node' = "A"%string
    /\ total <$> region_values node' = [2; 50; 7; 12]
    /\ read_values <$> region_values node' = [[]; [3]; [1]; [9]].
Proof.
  destruct (region_begin_existing_frame env_ok 7 "A" g_one_region
              (l_reading 300 30 8) _ 0%nat 0%nat _ _ eq_refl eq_refl eq_refl)
    as (g' & root' & thr' & node' & Hcall & _ & _ & _ & _ & _
        & _ & _ & _ & _ & Hname & Htot & Hreads).
  exists g', node'. split_and!; assumption.
Defined.

(** ** Read samples *)

Lemma goto_last_reverse {A : Type} (nexts : list A) :
  forall (prevs : list A) (cur : A),
    fst (goto_last prevs cur nexts) :: snd (goto_last prevs cur nexts)
    = reverse nexts ++ cur :: prevs.
Proof.
  induction nexts as [|n nexts IH]; intros prevs cur; simpl.
  - reflexivity.
  - rewrite IH, reverse_cons, <- app_assoc. reflexivity.
Qed.

Lemma reads_oldest_first_reverse (read_values : list Z) :
  reads_oldest_first read_values = reverse read_values.
Proof.
  destruct read_values as [|head nexts]; [reflexivity|].
  unfold reads_oldest_first.
  pose proof (goto_last_reverse nexts [] head) as H.
  destruct (goto_last [] head nexts) as [read_node prevs]. simpl in H.
  rewrite H, reverse_cons. reflexivity.
Qed.

Section ReadSamples.

Variable comps : list components_t.
Variable ncomps : nat.

Lemma reads_update_offset (k : nat) (calls : list locals) :
  forall v, offset (fold_left (reads_update comps ncomps k) calls v) = offset v.
Proof.
  induction calls as [|l calls IH]; intros v; simpl; [reflexivity|].
  rewrite IH. unfold reads_update, slot_update.
  destruct k as [|[|k]]; [reflexivity|reflexivity|].
  destruct (event_slots comps ncomps !! k) as [[i j]|]; [|reflexivity].
  destruct (decide (event_type_of comps i j = 1)); reflexivity.
Qed.

Lemma reads_update_slot0 (calls : list locals) :
  forall v, fold_left (reads_update comps ncomps 0) calls v = v.
Proof. induction calls as [|l calls IH]; intros v; simpl; [reflexivity|apply IH]. Qed.

Lemma reads_update_cycles (calls : list locals) :
  forall v,
    reads_oldest_first (read_values (fold_left (reads_update comps ncomps 1) calls v))
    = reads_oldest_first (read_values v)
      ++ map (fun l => ll_sub (_local_cycles l) (offset v)) calls.
Proof.
  induction calls as [|l calls IH]; intros v; simpl.
  - rewrite app_nil_r. reflexivity.
  - rewrite IH. unfold reads_update.
    cbn [slot_update _internal_hl_insert_read_node read_values offset].
    rewrite !reads_oldest_first_reverse, reverse_cons, <- app_assoc.
    reflexivity.
Qed.

Lemma reads_update_event (k i j : nat) (calls : list locals) :
  event_slots comps ncomps !! k = Some (i, j) ->
  forall v,
    reads_oldest_first (read_values (fold_left (reads_update comps ncomps (2 + k)) calls v))
    = reads_oldest_first (read_values v)
      ++ map (fun l => if decide (event_type_of comps i j = 1)
                       then local_value l i j
                       else ll_sub (local_value l i j) (offset v)) calls.
Proof.
  intros Hk. induction calls as [|l calls IH]; intros v; simpl.
  - rewrite app_nil_r. reflexivity.
  - rewrite IH. unfold reads_update. cbn [slot_update Nat.add]. rewrite Hk.
    rewrite !reads_oldest_first_reverse.
    destruct (decide (event_type_of comps i j = 1));
      cbn [_internal_hl_insert_read_node read_values offset];
      rewrite reverse_cons, <- app_assoc; reflexivity.
Qed.

End ReadSamples.

Lemma region_reads_found (env : papi_env) (tid : Z) (name : string)
    (calls : list locals) :
  forall (g : globals) (root : list threads_t) (node : regions_t),
    binary_tree (sto g) = Some root ->
    lookup_region root tid name = Some node ->
    exists g' root' node',
      region_reads env tid name calls g
      = Some (replicate (length calls) PAPI_OK, g')
      /\ binary_tree (sto g') = Some root'
      /\ lookup_region root' tid name = Some node'
      /\ forall k : nat,
           region_values node' !! k
           = (fun v => fold_left
                         (reads_update (components (reg g))
                            (num_of_components (reg g)) k) calls v)
               <$> region_values node !! k.
Proof.
  induction calls as [|l calls IH]; intros g root node Htree Hnode.
  - exists g, root, node. simpl. split_and!; try assumption; try reflexivity.
    intros k. destruct (region_values node !! k); reflexivity.
  - destruct (store_counters_found env tid name g l root Htree
                REGION_READ node Hnode) as (root1 & Hcall1 & Hnode1).
    set (g1 := count_region_call REGION_READ (set_binary_tree (Some root1) g)) in *.
    assert (Htree1 : binary_tree (sto g1) = Some root1)
      by apply count_region_call_tree.
    assert (Hreg1 : reg g1 = reg g) by apply count_region_call_reg.
    destruct (IH g1 root1 _ Htree1 Hnode1)
      as (g' & root' & node' & Hrun & Htree' & Hnode' & Hvals).
    exists g', root', node'. split_and!.
    + cbn [region_reads]. rewrite Hcall1. cbn [mbind option_bind].
      rewrite Hrun. reflexivity.
    + exact Htree'.
    + exact Hnode'.
    + intros k. rewrite Hvals, stored_lookup, Hreg1.
      destruct (region_values node !! k); reflexivity.
Qed.

(** C2: read calls on a region that has its node return PAPI_OK and append,
    per call, one sample to the cycles slot (cycles - offset) and one to
    every event slot (raw value for an instant event, raw value - offset
    for a delta event), and none to slot 0; read from the oldest to the
    newest, the samples of the calls follow the earlier ones in call
    order. *)
Theorem region_reads_samples (env : papi_env) (tid : Z) (name : string)
    (g : globals) (root : list threads_t) (node : regions_t)
    (calls : list locals) :
  binary_tree (sto g) = Some root ->
  lookup_region root tid name = Some node ->
  exists g' root' node',
    region_reads env tid name calls g = Some (replicate (length calls) PAPI_OK, g')
    /\ binary_tree (sto g') = Some root'
    /\ lookup_region root' tid name = Some node'
    /\ length (region_values node') = length (region_values node)
    /\ region_values node' !! 0%nat = region_values node !! 0%nat
    /\ (forall v : value_t,
          region_values node !! 1%nat = Some v ->
          exists v',
            region_values node' !! 1%nat = Some v'
            /\ reads_oldest_first (read_values v')
               = reads_oldest_first (read_values v)
                 ++ map (fun l => ll_sub (_local_cycles l) (offset v)) calls)
    /\ (forall (k i j : nat) (v : value_t),
          event_slots (components (reg g)) (num_of_components (reg g)) !! k
          = Some (i, j) ->
          region_values node !! (2 + k)%nat = Some v ->
          exists v',
            region_values node' !! (2 + k)%nat = Some v'
            /\ reads_oldest_first (read_values v')
               = reads_oldest_first (read_values v)
                 ++ map (fun l =>
                           if decide (event_type_of (components (reg g)) i j = 1)
                           then local_value l i j
                           else ll_sub (local_value l i j) (offset v)) calls).
Proof.
  intros Htree Hnode.
  destruct (region_reads_found env tid name calls g root node Htree Hnode)
    as (g' & root' & node' & Hrun & Htree' & Hnode' & Hvals).
  exists g', root', node'. split_and!; try assumption.
  - assert (H : forall k, is_Some (region_values node' !! k)
                        <-> is_Some (region_values node !! k)).
    { intros k. rewrite Hvals. rewrite fmap_is_Some. reflexivity. }
    destruct (Nat.lt_trichotomy (length (region_values node'))
                (length (region_values node))) as [Hlt|[Heq|Hgt]]; [|exact Heq|].
    + apply lookup_lt_is_Some_2, H, lookup_lt_is_Some_1 in Hlt. lia.
    + apply lookup_lt_is_Some_2, H, lookup_lt_is_Some_1 in Hgt. lia.
  - rewrite Hvals. destruct (region_values node !! 0%nat) as [v|]; [|reflexivity].
    simpl. rewrite reads_update_slot0. reflexivity.
  - intros v Hv. rewrite Hvals, Hv. eexists. split; [reflexivity|].
    apply reads_update_cycles.
  - intros k i j v Hk Hv. rewrite Hvals, Hv. eexists. split; [reflexivity|].
    apply reads_update_event. exact Hk.
Qed.

Lemma region_reads_samples_witness :
  exists node' : regions_t,
    read_values <$> region_values node'
    = [[]; [110; 100; 3]; [15; 10; 1]; [46; 36; 9]].
Proof.
  assert (Htree : binary_tree (sto g_one_region)
                  = Some (default [] (binary_tree (sto g_one_region))))
    by reflexivity.
  assert (Hnode : lookup_region (default [] (binary_tree (sto g_one_region))) 7 "A"
                  = Some (mk_region "A"
                            [mk_value 1 2 []; mk_value 200 50 [3];
                             mk_value 20 7 [1]; mk_value 6 12 [9]]))
    by reflexivity.
  pose proof (region_reads_samples env_ok 7 "A" g_one_region _ _
                [l_reading 300 30 36; l_reading 310 35 46] Htree Hnode) as H.
  destruct H as (g' & root' & node' & Hrun & Htree' & Hnode' & _).
  exists node'. vm_compute in Hrun. injection Hrun as <-.
  vm_compute in Htree'. injection Htree' as <-.
  vm_compute in Hnode'. injection Hnode' as <-. reflexivity.
Defined.

(** ** Diagnostics and clean-up leave the rest of the state alone *)

Lemma verbose_fprintf_frame (d : diagnostic) (g : globals) :
  reg (verbose_fprintf d g) = reg g
  /\ sto (verbose_fprintf d g) = sto g
  /\ life (verbose_fprintf d g) = life g
  /\ output_files (eff (verbose_fprintf d g)) = output_files (eff g)
  /\ papi_shutdown_called (eff (verbose_fprintf d g)) = papi_shutdown_called (eff g)
  /\ components_freed (eff (verbose_fprintf d g)) = components_freed (eff g).
Proof.
  unfold verbose_fprintf. destruct (decide (verbosity (life g) = 1));
    split_and!; reflexivity.
Qed.

Lemma same_but_stdout_refl (g : globals) : same_but_stdout g g.
Proof. unfold same_but_stdout. split_and!; reflexivity. Qed.

Lemma same_but_stdout_trans (g1 g2 g3 : globals) :
  same_but_stdout g1 g2 -> same_but_stdout g2 g3 -> same_but_stdout g1 g3.
Proof.
  unfold same_but_stdout. intros (?&?&?&?&?&?) (?&?&?&?&?&?).
  split_and!; congruence.
Qed.

Lemma verbose_fprintf_same (d : diagnostic) (g : globals) :
  same_but_stdout g (verbose_fprintf d g).
Proof. apply verbose_fprintf_frame. Qed.

Lemma clean_up_local_component_same (env : papi_env) (g : globals)
    (lc : local_components_t) :
  same_but_stdout g (clean_up_local_component env g lc).
Proof.
  unfold clean_up_local_component.
  repeat match goal with
         | |- context [decide ?P] => destruct (decide P)
         end;
    repeat (first [ apply same_but_stdout_refl
                  | eapply same_but_stdout_trans; [|apply verbose_fprintf_same] ]).
Qed.

Lemma clean_up_local_components_same (env : papi_env)
    (lcs : list local_components_t) (idxs : list nat) :
  forall g : globals,
    same_but_stdout g
      (fold_left (fun g i => clean_up_local_component env g (lcs !!! i)) idxs g).
Proof.
  induction idxs as [|i idxs IH]; intros g; simpl.
  - apply same_but_stdout_refl.
  - eapply same_but_stdout_trans; [apply clean_up_local_component_same|apply IH].
Qed.

(** [_internal_hl_clean_up_local_data] deactivates the thread and, apart
    from diagnostics, only counts the thread as cleaned. *)
Lemma clean_up_local_data_spec (env : papi_env) (g : globals) (l : locals) :
  let g' := fst (_internal_hl_clean_up_local_data env g l) in
  let l' := snd (_internal_hl_clean_up_local_data env g l) in
  _local_state l' = PAPIHL_DEACTIVATED
  /\ reg g' = reg g /\ sto g' = sto g
  /\ state (life g') = state (life g)
  /\ hl_initiated (life g') = hl_initiated (life g)
  /\ events_determined (life g') = events_determined (life g)
  /\ output_generated (life g') = output_generated (life g)
  /\ verbosity (life g') = verbosity (life g)
  /\ output_files (eff g') = output_files (eff g)
  /\ papi_shutdown_called (eff g') = papi_shutdown_called (eff g)
  /\ components_freed (eff g') = components_freed (eff g).
Proof.
  unfold _internal_hl_clean_up_local_data.
  destruct (_local_components l) as [lcs|]; cbn [fst snd].
  - pose proof (clean_up_local_components_same env lcs
                  (seq 0 (num_of_components (reg g))) g)
      as (Hreg & Hsto & Hlife & Hfiles & Hshut & Hfreed).
    cbn. rewrite Hreg, Hsto, Hlife, Hfiles, Hshut, Hfreed.
    split_and!; reflexivity.
  - split_and!; reflexivity.
Qed.

(** [_internal_hl_clean_up_all(true)]: both states end deactivated, output
    counts as generated, and the tree is either untouched or emptied. *)
Lemma clean_up_all_spec (env : papi_env) (g : globals) (l : locals) :
  let g' := fst (_internal_hl_clean_up_all env true g l) in
  let l' := snd (_internal_hl_clean_up_all env true g l) in
  state (life g') = PAPIHL_DEACTIVATED
  /\ _local_state l' = PAPIHL_DEACTIVATED
  /\ output_generated (life g') = true
  /\ (binary_tree (sto g') = binary_tree (sto g)
      \/ binary_tree (sto g') = Some [])
  /\ (state (life g) = PAPIHL_ACTIVE ->
      forall root, binary_tree (sto g) = Some root ->
                   binary_tree (sto g') = Some []).
Proof.
  unfold _internal_hl_clean_up_all.
  set (g0 := set_output_generated true g).
  assert (Hl : exists g1 l1,
             (if decide (_local_state l = PAPIHL_ACTIVE)
              then _internal_hl_clean_up_local_data env g0 l else (g0, l))
             = (g1, l1)
             /\ _local_state l1 = PAPIHL_DEACTIVATED
             /\ sto g1 = sto g /\ state (life g1) = state (life g)
             /\ output_generated (life g1) = true).
  { destruct (decide (_local_state l = PAPIHL_ACTIVE)) as [Ha|Ha].
    - pose proof (clean_up_local_data_spec env g0 l)
        as (H1 & _ & H3 & H4 & _ & _ & H7 & _).
      destruct (_internal_hl_clean_up_local_data env g0 l) as [g1 l1].
      exists g1, l1. cbn [fst snd] in *. split_and!; try assumption; reflexivity.
    - exists g0, l. split_and!; try reflexivity.
      unfold PAPIHL_ACTIVE, PAPIHL_DEACTIVATED in *.
      destruct (_local_state l); congruence. }
  destruct Hl as (g1 & l1 & -> & Hl1 & Hsto1 & Hstate1 & Hout1).
  cbn [fst snd].
  destruct (decide (state (life g1) = PAPIHL_ACTIVE)) as [Ha|Ha].
  - set (g2 := verbose_fprintf Info_output_deactivated g1).
    pose proof (verbose_fprintf_frame Info_output_deactivated g1)
      as (_ & Hsto2 & Hlife2 & _).
    fold g2 in Hsto2, Hlife2.
    assert (Htree3 : binary_tree (sto (_internal_hl_clean_up_global_data g2))
                     = match binary_tree (sto g) with
                       | Some _ => Some []
                       | None => None
                       end).
    { unfold _internal_hl_clean_up_global_data. rewrite <- Hsto1, <- Hsto2.
      destruct (binary_tree (sto g2)) eqn:E; cbn; [reflexivity|exact E]. }
    assert (Hlife3 : life (_internal_hl_clean_up_global_data g2) = life g1).
    { unfold _internal_hl_clean_up_global_data. rewrite <- Hlife2.
      destruct (binary_tree (sto g2)); reflexivity. }
    set (g3 := _internal_hl_clean_up_global_data g2) in *.
    clearbody g3.
    match goal with
    | |- context [decide ?P] => destruct (decide P)
    end.
    + cbn. rewrite Htree3, Hlife3, Hout1.
      split_and!; try reflexivity; try assumption.
      * destruct (binary_tree (sto g)); auto.
      * intros _ root ->. reflexivity.
    + pose proof (verbose_fprintf_frame Warn_no_shutdown g3)
        as (_ & Hsto4 & Hlife4 & _).
      cbn. rewrite Hsto4, Hlife4, Htree3, Hlife3, Hout1.
      split_and!; try reflexivity; try assumption.
      * destruct (binary_tree (sto g)); auto.
      * intros _ root ->. reflexivity.
  - rewrite Hsto1, Hout1. split_and!; try reflexivity; try assumption.
    + unfold PAPIHL_ACTIVE, PAPIHL_DEACTIVATED in *.
      destruct (state (life g1)); congruence.
    + auto.
    + intros Hact. rewrite <- Hstate1 in Hact. contradiction.
Qed.

(** ** Calls that name a region without node *)

Lemma read_components_some (env : papi_env) (ncomps : nat) (idxs : list nat) :
  forall l : locals,
    is_Some (_local_components l) ->
    exists retval l1,
      read_components env ncomps idxs l = Some (retval, l1)
      /\ is_Some (_local_components l1)
      /\ _local_state l1 = _local_state l
      /\ _local_region_begin_cnt l1 = _local_region_begin_cnt l
      /\ _local_region_end_cnt l1 = _local_region_end_cnt l.
Proof.
  induction idxs as [|i idxs IH]; intros l [lcs Hlcs]; simpl.
  - exists PAPI_OK, l. split_and!; try reflexivity. rewrite Hlcs. eauto.
  - unfold read_component. rewrite Hlcs. cbn [mbind option_bind].
    destruct (decide (Z.of_nat i < Z.of_nat ncomps - 1)).
    + destruct (PAPI_read env _ _) as [retval vals].
      destruct (decide (retval = PAPI_OK)).
      * edestruct IH as (r & l1 & -> & H1 & H2 & H3 & H4); [|eauto 10].
        cbn. eauto.
      * eexists _, _. split_and!; try reflexivity. cbn. eauto.
    + destruct (PAPI_read_ts env _ _) as [[retval vals] cycles].
      destruct (decide (retval = PAPI_OK)).
      * edestruct IH as (r & l1 & -> & H1 & H2 & H3 & H4); [|eauto 10].
        cbn. eauto.
      * eexists _, _. split_and!; try reflexivity. cbn. eauto.
Qed.

Lemma read_counters_some (env : papi_env) (g : globals) (l : locals) :
  is_Some (_local_components l) ->
  exists retval l1,
    _internal_hl_read_counters env g l = Some (retval, l1)
    /\ _local_state l1 = _local_state l.
Proof.
  intros H. destruct (read_components_some env (num_of_components (reg g))
                        (seq 0 (num_of_components (reg g))) l H)
    as (r & l1 & Hr & _ & Hs & _).
  exists r, l1. split; assumption.
Qed.

(** A read or end call that finds no node for the region: the result of
    [_internal_hl_store_counters]. *)
Lemma store_counters_unmatched (env : papi_env) (tid : Z) (name : string)
    (reg_typ : region_type) (g : globals) (l : locals) (root : list threads_t) :
  binary_tree (sto g) = Some root ->
  lookup_region root tid name = None ->
  reg_typ <> REGION_BEGIN ->
  exists retval g',
    _internal_hl_store_counters env tid name reg_typ g l = Some (retval, g')
    /\ same_but_stdout g g'
    /\ (retval = PAPI_OK
        <-> reg_typ = REGION_READ
            /\ is_Some (_internal_hl_find_thread_node root tid))
    /\ (retval <> PAPI_OK -> retval = PAPI_EINVAL).
Proof.
  intros Htree Hnone Htyp. unfold lookup_region in Hnone.
  destruct (_internal_hl_find_thread_node root tid) as [[it thr]|] eqn:Hthr.
  - cbn [mbind option_bind] in Hnone.
    destruct (_internal_hl_find_region_node (value thr) name) as [[ir node]|] eqn:Hreg;
      [discriminate|].
    rewrite (store_counters_no_region env tid name g l root Htree reg_typ it thr)
      by assumption.
    destruct (decide (reg_typ = REGION_READ)) as [Hr|Hr]; eexists _, _;
      (split; [reflexivity|]); (split; [apply verbose_fprintf_same|]).
    + split; [split; [intros _; split; [exact Hr|eauto]|reflexivity]|congruence].
    + split; [split; [discriminate|intros [? _]; contradiction]|reflexivity].
  - rewrite (store_counters_no_thread env tid name g l root Htree reg_typ)
      by assumption.
    exists PAPI_EINVAL, g. split; [reflexivity|].
    split; [apply same_but_stdout_refl|].
    split; [split; [discriminate|intros [_ [? ?]]; discriminate]|reflexivity].
Qed.

(** C3, as stated, fails: on an active system whose thread 7 has begun the
    region "A" only, PAPI_hl_region_end("B") finds no node, returns
    PAPI_EINVAL and leaves both the global and the thread-local state
    deactivated and the store emptied; PAPI_hl_read("B") returns PAPI_OK,
    no error. *)
Lemma unmatched_region_call_counterexample :
  lookup_region (default [] (binary_tree (sto g_one_region)))
    (PAPI_thread_id env_ok) "B" = None
  /\ state (life g_one_region) = PAPIHL_ACTIVE
  /\ _local_state l_after_begin = PAPIHL_ACTIVE
  /\ ('(retval, g', l') ← PAPI_hl_region_end env_ok "B" g_one_region l_after_begin;
      Some (retval, state (life g'), _local_state l', binary_tree (sto g')))
     = Some (PAPI_EINVAL, PAPIHL_DEACTIVATED, PAPIHL_DEACTIVATED, Some [])
  /\ ('(retval, g', l') ← PAPI_hl_read env_ok "B" g_one_region l_after_begin;
      Some retval)
     = Some PAPI_OK
  /\ ~ nonfatal_unmatched_outcome g_one_region l_after_begin
        (PAPI_hl_region_end env_ok "B" g_one_region l_after_begin)
  /\ ~ nonfatal_unmatched_outcome g_one_region l_after_begin
        (PAPI_hl_read env_ok "B" g_one_region l_after_begin).
Proof.
  split_and!; try (vm_compute; reflexivity).
  - intros (retval & g' & l' & Hcall & _ & _ & Hstate & _).
    vm_compute in Hcall. injection Hcall as <- <- <-. discriminate Hstate.
  - intros (retval & g' & l' & Hcall & Hret & _).
    vm_compute in Hcall. injection Hcall as <- <- <-. apply Hret. reflexivity.
Qed.

(** C3, amended: a read or end call naming a region that has no node for
    the calling thread creates no node: the tree is as before or emptied.
    With a begin count of 0 it warns and returns PAPI_EMISC, without local
    event sets it returns PAPI_ENOTRUN, and nothing else changes.  Once the
    counters are read, PAPI_hl_region_end returns PAPI_EINVAL and the
    clean-up deactivates the thread-local and the global state and empties
    the store; PAPI_hl_read does the same when the thread has no node, and
    warns and returns PAPI_OK, changing only the diagnostics, when it has
    one.  PAPI_hl_region_end never returns PAPI_OK. *)
Theorem unmatched_region_call (env : papi_env) (name : string) (g : globals)
    (l : locals) (root : list threads_t) :
  state (life g) = PAPIHL_ACTIVE ->
  binary_tree (sto g) = Some root ->
  lookup_region root (PAPI_thread_id env) name = None ->
  (exists retval g' l',
      PAPI_hl_region_end env name g l = Some (retval, g', l')
      /\ retval <> PAPI_OK
      /\ (binary_tree (sto g') = Some root \/ binary_tree (sto g') = Some [])
      /\ (_local_region_begin_cnt l = 0 ->
          retval = PAPI_EMISC /\ same_but_stdout g g' /\ l' = l)
      /\ (_local_region_begin_cnt l <> 0 -> _local_components l = None ->
          retval = PAPI_ENOTRUN /\ g' = g /\ l' = l)
      /\ (_local_region_begin_cnt l <> 0 -> _local_components l <> None ->
          counters_read_ok env g l ->
          retval = PAPI_EINVAL
          /\ state (life g') = PAPIHL_DEACTIVATED
          /\ _local_state l' = PAPIHL_DEACTIVATED
          /\ binary_tree (sto g') = Some []))
  /\ (exists retval g' l',
         PAPI_hl_read env name g l = Some (retval, g', l')
         /\ (binary_tree (sto g') = Some root \/ binary_tree (sto g') = Some [])
         /\ (_local_region_begin_cnt l = 0 ->
             retval = PAPI_EMISC /\ same_but_stdout g g' /\ l' = l)
         /\ (_local_region_begin_cnt l <> 0 -> _local_components l = None ->
             retval = PAPI_ENOTRUN /\ g' = g /\ l' = l)
         /\ (_local_region_begin_cnt l <> 0 -> _local_components l <> None ->
             counters_read_ok env g l ->
             (is_Some (_internal_hl_find_thread_node root (PAPI_thread_id env)) ->
              retval = PAPI_OK /\ same_but_stdout g g'
              /\ _local_state l' = _local_state l)
             /\ (_internal_hl_find_thread_node root (PAPI_thread_id env) = None ->
                 retval = PAPI_EINVAL
                 /\ state (life g') = PAPIHL_DEACTIVATED
                 /\ _local_state l' = PAPIHL_DEACTIVATED
                 /\ binary_tree (sto g') = Some []))).
Proof.
  intros Hact Htree Hnone.
  assert (Hnd : state (life g) <> PAPIHL_DEACTIVATED).
  { rewrite Hact. discriminate. }
  (* what [_internal_hl_read_and_store_counters] does on both calls *)
  assert (Hrs : forall reg_typ, reg_typ <> REGION_BEGIN ->
             _local_components l <> None ->
             exists retval g' l',
               _internal_hl_read_and_store_counters env name reg_typ g l
               = Some (retval, g', l')
               /\ (binary_tree (sto g') = Some root \/ binary_tree (sto g') = Some [])
               /\ (retval = PAPI_OK -> reg_typ = REGION_READ)
               /\ (counters_read_ok env g l ->
                   (reg_typ = REGION_READ ->
                    is_Some (_internal_hl_find_thread_node root (PAPI_thread_id env)) ->
                    retval = PAPI_OK /\ same_but_stdout g g'
                    /\ _local_state l' = _local_state l)
                   /\ (reg_typ = REGION_END
                       \/ _internal_hl_find_thread_node root (PAPI_thread_id env) = None ->
                       retval = PAPI_EINVAL
                       /\ state (life g') = PAPIHL_DEACTIVATED
                       /\ _local_state l' = PAPIHL_DEACTIVATED
                       /\ binary_tree (sto g') = Some []))).
  { intros reg_typ Htyp Hlc.
    assert (Hsome : is_Some (_local_components l)).
    { destruct (_local_components l); [eauto|contradiction]. }
    destruct (read_counters_some env g l Hsome) as (r & l1 & Hread & Hl1).
    unfold _internal_hl_read_and_store_counters, counters_read_ok.
    rewrite Hread. cbn [mbind option_bind].
    destruct (decide (r = PAPI_OK)) as [->|Hr].
    - destruct (store_counters_unmatched env (PAPI_thread_id env) name reg_typ
                  g l1 root Htree Hnone Htyp)
        as (r2 & g2 & -> & Hsame & Hok & Herr).
      cbn [mbind option_bind].
      destruct (decide (r2 = PAPI_OK)) as [->|Hr2].
      + destruct Hok as [Hok _].
        destruct (Hok eq_refl) as [Hread' Hthr].
        exists PAPI_OK, g2, l1. split; [reflexivity|].
        destruct Hsame as (Hreg & Hsto & Hrest).
        split; [left; rewrite Hsto; exact Htree|].
        split; [auto|]. intros _. split.
        * intros _ _. split; [reflexivity|]. split; [|exact Hl1].
          split; [exact Hreg|]. split; [exact Hsto|]. exact Hrest.
        * intros [He|Hn]; [congruence|]. rewrite Hn in Hthr.
          destruct Hthr as [? ?]. discriminate.
      + specialize (Herr Hr2). subst r2.
        set (g3 := verbose_fprintf Advice_check_regions
                     (verbose_fprintf (Err_could_not_store (PAPI_thread_id env)) g2)).
        assert (Hg3 : same_but_stdout g g3).
        { eapply same_but_stdout_trans; [exact Hsame|].
          eapply same_but_stdout_trans; apply verbose_fprintf_same. }
        destruct Hg3 as (_ & Hsto3 & Hlife3 & _).
        pose proof (clean_up_all_spec env g3 l1) as (H1 & H2 & _ & H4 & H5).
        destruct (_internal_hl_clean_up_all env true g3 l1) as [g4 l4].
        cbn [fst snd] in *.
        exists PAPI_EINVAL, g4, l4. split; [reflexivity|].
        rewrite Hsto3, Htree in H4. split; [exact H4|].
        split; [discriminate|]. intros _. split.
        * intros Hr Hthr. exfalso. apply Hr2. apply Hok. auto.
        * intros _. split; [reflexivity|]. split; [exact H1|]. split; [exact H2|].
          eapply H5; [rewrite Hlife3; exact Hact|rewrite Hsto3; exact Htree].
    - set (g3 := verbose_fprintf (Err_could_not_read (PAPI_thread_id env)) g).
      pose proof (verbose_fprintf_same (Err_could_not_read (PAPI_thread_id env)) g)
        as (_ & Hsto3 & _).
      fold g3 in Hsto3.
      pose proof (clean_up_all_spec env g3 l1) as (_ & _ & _ & H4 & _).
      destruct (_internal_hl_clean_up_all env true g3 l1) as [g4 l4].
      cbn [fst snd] in *.
      exists r, g4, l4. split; [reflexivity|].
      rewrite Hsto3, Htree in H4. split; [exact H4|].
      split; [intros; contradiction|].
      intros [l1' Hok]. congruence. }
  split.
  - unfold PAPI_hl_region_end. rewrite decide_False by exact Hnd.
    destruct (decide (_local_region_begin_cnt l = 0)) as [Hc|Hc].
    { eexists _, _, _. split; [reflexivity|]. split; [discriminate|].
      pose proof (verbose_fprintf_same
                    (Warn_no_matching_end name (PAPI_thread_id env)) g) as Hs.
      split; [left; destruct Hs as (_ & -> & _); exact Htree|].
      split_and!; intros; try contradiction. split_and!; auto. }
    destruct (decide (_local_components l = None)) as [Hlc|Hlc].
    { eexists _, _, _. split; [reflexivity|]. split; [discriminate|].
      split; [left; exact Htree|].
      split_and!; intros; try contradiction. split_and!; reflexivity. }
    destruct (Hrs REGION_END ltac:(discriminate) Hlc)
      as (r & g' & l' & -> & Htree' & Hnok & Hread).
    cbn [mbind option_bind].
    destruct (decide (r = PAPI_OK)) as [Hr|Hr];
      [apply Hnok in Hr; discriminate|].
    exists r, g', l'. split; [reflexivity|]. split; [exact Hr|].
    split; [exact Htree'|].
    split_and!; [intros; contradiction|intros; contradiction|intros _ _ Hcr].
    apply Hread in Hcr as [_ Hcr]. apply Hcr. left. reflexivity.
  - unfold PAPI_hl_read. rewrite decide_False by exact Hnd.
    destruct (decide (_local_region_begin_cnt l = 0)) as [Hc|Hc].
    { eexists _, _, _. split; [reflexivity|].
      pose proof (verbose_fprintf_same
                    (Warn_no_matching_read name (PAPI_thread_id env)) g) as Hs.
      split; [left; destruct Hs as (_ & -> & _); exact Htree|].
      split_and!; intros; try contradiction. split_and!; auto. }
    destruct (decide (_local_components l = None)) as [Hlc|Hlc].
    { eexists _, _, _. split; [reflexivity|].
      split; [left; exact Htree|].
      split_and!; intros; try contradiction. split_and!; reflexivity. }
    destruct (Hrs REGION_READ ltac:(discriminate) Hlc)
      as (r & g' & l' & -> & Htree' & Hnok & Hread).
    cbn [mbind option_bind].
    assert (Hsame : (if decide (r = PAPI_OK) then Some (PAPI_OK, g', l')
                     else Some (r, g', l')) = Some (r, g', l')).
    { destruct (decide (r = PAPI_OK)) as [->|]; reflexivity. }
    rewrite Hsame. exists r, g', l'. split; [reflexivity|].
    split; [exact Htree'|].
    split_and!; [intros; contradiction|intros; contradiction|intros _ _ Hcr].
    apply Hread in Hcr as [H1 H2].
    split.
    + intros Hthr. apply H1; [reflexivity|exact Hthr].
    + intros Hthr. apply H2. right. exact Hthr.
Qed.

Lemma unmatched_region_call_witness :
  exists retval g' l',
    PAPI_hl_region_end env_ok "B" g_one_region l_after_begin
    = Some (retval, g', l')
    /\ retval <> PAPI_OK
    /\ (binary_tree (sto g') = binary_tree (sto g_one_region)
        \/ binary_tree (sto g') = Some []).
Proof.
  assert (Hact : state (life g_one_region) = PAPIHL_ACTIVE) by reflexivity.
  assert (Htree : binary_tree (sto g_one_region)
                  = Some (default [] (binary_tree (sto g_one_region))))
    by reflexivity.
  assert (Hnone : lookup_region (default [] (binary_tree (sto g_one_region)))
                    (PAPI_thread_id env_ok) "B" = None)
    by reflexivity.
  pose proof (unmatched_region_call env_ok "B" g_one_region l_after_begin _
                Hact Htree Hnone) as [Hend _].
  destruct Hend as (retval & g' & l' & Hcall & Hret & Hstore & _).
  exists retval, g', l'. split_and!; assumption.
Defined.

(** ** Report generation with unmatched regions *)

(** C4: when report generation runs with unequal begin and end counts, no
    file is written, the warning goes to the diagnostics (printed at
    verbosity 1), output is marked as generated, and a second
    print-output call changes nothing. *)
Theorem print_output_unmatched (env : papi_env) (g : globals)
    (root : list threads_t) :
  state (life g) = PAPIHL_ACTIVE ->
  hl_initiated (life g) = true ->
  output_generated (life g) = false ->
  binary_tree (sto g) = Some root ->
  region_begin_cnt (sto g) <> region_end_cnt (sto g) ->
  exists g',
    _internal_PAPI_hl_print_output env g = Some g'
    /\ output_files (eff g') = output_files (eff g)
    /\ stdout (eff g')
       = stdout (eff g)
         ++ (if decide (verbosity (life g) = 1)
             then [Warn_not_matching_regions] else [])
    /\ output_generated (life g') = true
    /\ reg g' = reg g /\ sto g' = sto g
    /\ forall env2, _internal_PAPI_hl_print_output env2 g' = Some g'.
Proof.
  intros Hact Hinit Hgen Htree Hcnt.
  unfold _internal_PAPI_hl_print_output, _internal_hl_write_output.
  rewrite decide_True by auto. rewrite decide_True by exact Hgen.
  rewrite Htree. rewrite decide_False by exact Hcnt.
  eexists. split; [reflexivity|].
  unfold verbose_fprintf.
  destruct (decide (verbosity (life g) = 1)); cbn.
  - split_and!; try reflexivity.
    intros env2. rewrite decide_False; [reflexivity|].
    cbn. intros (_ & _ & H). discriminate.
  - rewrite app_nil_r. split_and!; try reflexivity.
    intros env2. rewrite decide_False; [reflexivity|].
    cbn. intros (_ & _ & H). discriminate.
Qed.

Lemma print_output_unmatched_witness :
  exists g',
    _internal_PAPI_hl_print_output env_ok g_unmatched = Some g'
    /\ output_files (eff g') = []
    /\ stdout (eff g') = [Warn_not_matching_regions]
    /\ output_generated (life g') = true.
Proof.
  assert (Hcnt : region_begin_cnt (sto g_unmatched)
                 <> region_end_cnt (sto g_unmatched)) by discriminate.
  destruct (print_output_unmatched env_ok g_unmatched _ eq_refl eq_refl eq_refl
              eq_refl Hcnt)
    as (g' & Hcall & Hfiles & Hout & Hgen & _).
  exists g'. split_and!; assumption.
Defined.

(** ** Global shutdown *)

Lemma check_for_clean_thread_states_ok (env : papi_env) :
  _internal_hl_check_for_clean_thread_states env = PAPI_OK
  <-> no_session_running env.
Proof.
  unfold _internal_hl_check_for_clean_thread_states, no_session_running.
  induction (global_eventset_map env) as [|slot slots IH]; simpl.
  - split; [|reflexivity]. intros _ st H. inversion H.
  - destruct slot as [st|]; simpl.
    + destruct (Z.eqb_spec (Z.land st (PAPI_RUNNING env)) 0) as [Hz|Hz]; simpl.
      * rewrite IH. split.
        -- intros H st' Hin. apply elem_of_cons in Hin as [[= ->]|Hin]; auto.
        -- intros H st' Hin. apply H. apply elem_of_cons. auto.
      * split; [discriminate|]. intros H. exfalso. apply Hz, H.
        apply elem_of_cons. auto.
    + rewrite IH. split.
      * intros H st' Hin. apply elem_of_cons in Hin as [[=]|Hin]; auto.
      * intros H st' Hin. apply H. apply elem_of_cons. auto.
Qed.

(** C9: in [_internal_hl_clean_up_all], PAPI_shutdown is called and the
    component arrays are freed exactly when the global part runs (the
    global state is active) with the number of threads the hardware layer
    lists equal to the number of cleaned threads and no event set in the
    running state; when the global part runs otherwise, neither happens
    and the warning goes to the diagnostics (printed at verbosity 1). *)
Theorem shutdown_only_when_clean (env : papi_env) (deactivate : bool)
    (g : globals) (l : locals) :
  papi_shutdown_called (eff g) = false ->
  components_freed (eff g) = false ->
  let g' := fst (_internal_hl_clean_up_all env deactivate g l) in
  let clean :=
    Z.of_nat (length (snd (PAPI_list_threads env)))
    = num_of_cleaned_threads (life g')
    /\ no_session_running env in
  (papi_shutdown_called (eff g') = true
   <-> state (life g) = PAPIHL_ACTIVE /\ clean)
  /\ components_freed (eff g') = papi_shutdown_called (eff g')
  /\ (state (life g) = PAPIHL_ACTIVE -> ~ clean ->
      papi_shutdown_called (eff g') = false
      /\ components_freed (eff g') = false
      /\ (verbosity (life g) = 1 ->
          exists printed, stdout (eff g') = printed ++ [Warn_no_shutdown])).
Proof.
  intros Hshut Hfreed. unfold _internal_hl_clean_up_all.
  set (g0 := set_output_generated true g).
  assert (Hl : exists g1 l1,
             (if decide (_local_state l = PAPIHL_ACTIVE)
              then _internal_hl_clean_up_local_data env g0 l else (g0, l))
             = (g1, l1)
             /\ state (life g1) = state (life g)
             /\ verbosity (life g1) = verbosity (life g)
             /\ papi_shutdown_called (eff g1) = false
             /\ components_freed (eff g1) = false).
  { destruct (decide (_local_state l = PAPIHL_ACTIVE)) as [Ha|Ha].
    - pose proof (clean_up_local_data_spec env g0 l)
        as (_ & _ & _ & H4 & _ & _ & _ & H8 & _ & H10 & H11).
      destruct (_internal_hl_clean_up_local_data env g0 l) as [g1 l1].
      exists g1, l1. cbn [fst snd] in *.
      rewrite H4, H8, H10, H11. split_and!; try reflexivity; assumption.
    - exists g0, l. split_and!; try reflexivity; assumption. }
  destruct Hl as (g1 & l1 & -> & Hstate1 & Hverb1 & Hshut1 & Hfreed1).
  cbn [fst snd]. rewrite <- Hstate1, <- Hverb1. clearbody g0. clear g0.
  destruct (decide (state (life g1) = PAPIHL_ACTIVE)) as [Ha|Ha].
  - set (g2 := verbose_fprintf Info_output_deactivated g1).
    pose proof (verbose_fprintf_frame Info_output_deactivated g1)
      as (_ & _ & Hlife2 & _ & Hshut2 & Hfreed2).
    fold g2 in Hlife2, Hshut2, Hfreed2.
    set (g3 := _internal_hl_clean_up_global_data g2).
    assert (Hg3 : life g3 = life g1 /\ papi_shutdown_called (eff g3) = false
                  /\ components_freed (eff g3) = false).
    { unfold g3, _internal_hl_clean_up_global_data.
      destruct (binary_tree (sto g2)); cbn; rewrite Hlife2, Hshut2, Hfreed2; auto. }
    destruct Hg3 as (Hlife3 & Hshut3 & Hfreed3). clearbody g3.
    match goal with
    | |- context [decide ?P] => destruct (decide P) as [Hc|Hc]
    end; rewrite check_for_clean_thread_states_ok in Hc.
    + rewrite Hlife3 in Hc.
      destruct deactivate; cbn; rewrite Hlife3;
        (split_and!;
         [ split; [intros _; split; [exact Ha|tauto]|reflexivity]
         | reflexivity
         | intros _ Hn; exfalso; apply Hn; tauto ]).
    + rewrite Hlife3 in Hc.
      pose proof (verbose_fprintf_frame Warn_no_shutdown g3)
        as (_ & _ & Hlife4 & _ & Hshut4 & Hfreed4).
      assert (Hout4 : verbosity (life g1) = 1 ->
                      stdout (eff (verbose_fprintf Warn_no_shutdown g3))
                      = stdout (eff g3) ++ [Warn_no_shutdown]).
      { intros Hv. unfold verbose_fprintf. rewrite Hlife3.
        rewrite decide_True by exact Hv. reflexivity. }
      destruct deactivate; cbn; rewrite Hlife4, Hshut4, Hfreed4, Hlife3, Hshut3, Hfreed3;
        (split_and!;
         [ split; [discriminate|intros [_ Hcl]; exfalso; apply Hc; tauto]
         | reflexivity
         | intros _ _; split_and!; try reflexivity;
           intros Hv; eexists; apply Hout4; exact Hv ]).
  - rewrite Hshut1, Hfreed1. split_and!.
    + split; [discriminate|intros [? _]; contradiction].
    + reflexivity.
    + intros; contradiction.
Qed.

(** ** The order of the report *)

Section ReportOrder.

Variable comps : list components_t.
Variable ncomps : nat.
Variable total_num_events : nat.
Variable beautifier : bool.

Lemma int_of_small (n : Z) : - 2 ^ 31 <= n < 2 ^ 31 -> int_of n = n.
Proof. intros H. apply wrap_signed_range_id; [lia|exact H]. Qed.

Lemma json_reads_labelled (last_slot : bool) (prevs : list Z) :
  forall (read_cnt read_node : Z),
    0 <= read_cnt ->
    read_cnt + Z.of_nat (length prevs) < 2 ^ 31 ->
    json_reads beautifier last_slot read_cnt read_node prevs
    = report_reads beautifier last_slot
        (imap (fun k x => (read_cnt + Z.of_nat k, x)) (read_node :: prevs)).
Proof.
  induction prevs as [|p prevs IH]; intros read_cnt read_node H0 Hlt.
  - cbn. rewrite Z.add_0_r. reflexivity.
  - cbn [length] in Hlt.
    assert (Hint : int_of (read_cnt + 1) = read_cnt + 1)
      by (apply int_of_small; lia).
    cbn [json_reads]. rewrite Hint, IH by lia.
    assert (Himap :
              imap (fun (k : nat) (x : Z) => (read_cnt + 1 + Z.of_nat k, x))
                (p :: prevs)
              = imap ((fun (k : nat) (x : Z) => (read_cnt + Z.of_nat k, x)) ∘ S)
                  (p :: prevs)).
    { apply imap_ext. intros k x _. cbn. f_equal. lia. }
    rewrite Himap. cbn [imap report_reads compose].
    replace (read_cnt + Z.of_nat 0) with read_cnt by lia. reflexivity.
Qed.

Lemma json_regions_from_report (prevs : list regions_t) :
  forall regions : regions_t,
    json_regions_from comps ncomps total_num_events beautifier regions prevs
    = report_regions comps ncomps total_num_events beautifier (regions :: prevs).
Proof.
  induction prevs as [|p prevs IH]; intros regions.
  - reflexivity.
  - cbn [json_regions_from report_regions]. rewrite IH. reflexivity.
Qed.

End ReportOrder.

(** C5, as stated, fails for the regions: after begin("A"), end("A"),
    begin("B"), end("B") the list of thread 7 holds "B" before "A"
    (newest first), and the report written for it prints the entry of "A"
    (position 33 of the file) before the entry of "B" (position 91): the
    text of the regions is not that of the list in its newest-first
    order. *)
Lemma report_regions_counterexample :
  (g ← g_two_regions;
   root ← binary_tree (sto g);
   Some (map (fun t => map region (value t)) root))
  = Some [["B"; "A"]%string]
  /\ (g ← g_two_regions;
      g' ← _internal_PAPI_hl_print_output env_ok g;
      file ← head (output_files (eff g'));
      Some (first_index (dq +:+ "A" +:+ dq +:+ ":{") file,
            first_index (dq +:+ "B" +:+ dq +:+ ":{") file))
     = Some (Some 33%nat, Some 91%nat)
  /\ (g ← g_two_regions;
      root ← binary_tree (sto g);
      thread_node ← head root;
      _internal_hl_json_regions (components (reg g)) (num_of_components (reg g))
        (total_num_events (reg g)) true thread_node)
     <> (g ← g_two_regions;
         root ← binary_tree (sto g);
         thread_node ← head root;
         Some (report_regions (components (reg g)) (num_of_components (reg g))
                 (total_num_events (reg g)) true (value thread_node))).
Proof.
  split_and!; try (vm_compute; reflexivity).
  intros H. vm_compute in H. discriminate H.
Qed.

(** C5, amended: in the report the regions of a thread appear in the
    reverse of the store's newest-first order, the oldest insertion first;
    the read samples of a slot appear from the oldest to the newest,
    labelled read_1, read_2, ... in that order. *)
Theorem report_order (comps : list components_t) (ncomps : nat)
    (total_num_events : nat) (beautifier : bool) (thread_node : threads_t) :
  value thread_node <> [] ->
  _internal_hl_json_regions comps ncomps total_num_events beautifier thread_node
  = Some (report_regions comps ncomps total_num_events beautifier
            (reverse (value thread_node)))
  /\ forall (regions : regions_t) (j : nat),
       read_values (region_values regions !!! j) <> [] ->
       Z.of_nat (length (read_values (region_values regions !!! j))) < 2 ^ 31 ->
       json_region_event comps ncomps total_num_events beautifier regions j
       = lb beautifier 6
         ++ [dq +:+ all_event_names comps ncomps total_num_events !!! j
             +:+ dq +:+ ":{"]
         ++ lb beautifier 7
         ++ [dq +:+ "total" +:+ dq +:+ ":" +:+ dq
             +:+ pretty (total (region_values regions !!! j)) +:+ dq +:+ ","]
         ++ report_reads beautifier
              (bool_decide (j = total_num_events + 2 - 1)%nat)
              (labelled_reads (read_values (region_values regions !!! j))).
Proof.
  intros Hne. split.
  - unfold _internal_hl_json_regions.
    destruct (value thread_node) as [|head nexts]; [contradiction|].
    pose proof (goto_last_reverse nexts [] head) as H.
    destruct (goto_last [] head nexts) as [regions prevs]. cbn [fst snd] in H.
    rewrite json_regions_from_report, H, reverse_cons. reflexivity.
  - intros regions j Hreads Hlen. unfold json_region_event.
    destruct (read_values (region_values regions !!! j)) as [|head nexts] eqn:E;
      [contradiction|].
    pose proof (goto_last_reverse nexts [] head) as H.
    destruct (goto_last [] head nexts) as [read_node prevs]. cbn [fst snd] in H.
    assert (Hl : length (read_node :: prevs) = length (head :: nexts)).
    { rewrite H, length_app, length_reverse. cbn [length]. lia. }
    rewrite json_reads_labelled; [|lia|cbn [length] in *; lia].
    unfold labelled_reads. rewrite reverse_cons, <- H.
    do 5 f_equal. apply imap_ext. intros k x _. f_equal. lia.
Qed.

Lemma report_order_witness :
  _internal_hl_json_regions [] 0 0 false
    (mk_thread 7 [mk_region "B" [mk_value 1 1 []; mk_value 0 5 [9; 8]];
                  mk_region "A" [mk_value 1 2 []; mk_value 0 7 []]])
  = Some (report_regions [] 0 0 false
            [mk_region "A" [mk_value 1 2 []; mk_value 0 7 []];
             mk_region "B" [mk_value 1 1 []; mk_value 0 5 [9; 8]]]).
Proof.
  apply (report_order [] 0%nat 0%nat false
           (mk_thread 7 [mk_region "B" [mk_value 1 1 []; mk_value 0 5 [9; 8]];
                         mk_region "A" [mk_value 1 2 []; mk_value 0 7 []]])).
  discriminate.
Defined.

(** ** Event resolver *)

(** C7 (the code fails the claim): on the empty string
    [_internal_hl_read_user_events] returns PAPI_OK, reports one requested
    event and leaves [requested_event_names] as it was; started from the
    initial state, where that pointer is NULL, setting the events then
    dereferences it. *)
Theorem read_user_events_empty (g : globals) :
  _internal_hl_read_user_events EmptyString g
  = (PAPI_OK, set_num_of_requested_events 1 g)
  /\ _internal_PAPI_hl_set_events env_ok (Some EmptyString) g_initiated = None.
Proof. split; [reflexivity|vm_compute; reflexivity]. Qed.

(** The type tag an iteration of the loop of
    [_internal_hl_create_components] works with: decided by the text from
    the first '=' of the name on, and, for a name without '=', the tag the
    previous iteration left. *)
Lemma create_components_event_type (env : papi_env) (i : nat)
    (vars : create_components_vars) (g : globals)
    (names : list (option string)) (name : string) :
  requested_event_names (reg g) = Some names ->
  names !! i = Some (Some name) ->
  exists vars' g' returned,
    create_components_event env i vars g = Some (vars', g', returned)
    /\ v_event_type vars'
       = match strchr name "="%char with
         | Some ret => if decide (ret = "=instant"%string) then 1 else 0
         | None => v_event_type vars
         end.
Proof.
  intros Hnames Hname. unfold create_components_event.
  rewrite Hnames. cbn [mbind option_bind]. rewrite Hname.
  cbn [mjoin option_join mbind option_bind id].
  set (tag := match strchr name "="%char with
              | Some ret => if decide (ret = "=instant"%string) then 1 else 0
              | None => v_event_type vars
              end).
  assert (Hsplit : exists name',
             match strchr name "="%char with
             | Some ret =>
                 if decide (ret = "=instant"%string \/ ret = "=delta"%string)
                 then (if decide (ret = "=instant"%string) then 1 else 0,
                       String.substring 0
                         (String.length name - String.length ret) name)
                 else (if decide (ret = "=instant"%string) then 1 else 0, name)
             | None => (v_event_type vars, name)
             end = (tag, name')).
  { unfold tag. destruct (strchr name "="%char) as [ret|]; [|eauto].
    destruct (decide (ret = "=instant"%string \/ ret = "=delta"%string)); eauto. }
  destruct Hsplit as [name' ->].
  repeat case_match; simplify_eq; eexists _, _, _; (split; reflexivity).
Qed.

(** C6 (the code fails the claim): with the specification
    "A=instant,B" the event "B", which has no suffix, is registered with
    type 1 (instant): the type of the previous name is carried over. *)
Theorem event_type_carried_over :
  ('(retval, g) ← _internal_PAPI_hl_set_events env_ok (Some "A=instant,B"%string)
                    g_initiated;
   Some (retval,
         map (fun c => (take (num_of_events c) (event_names c),
                        take (num_of_events c) (event_types c)))
           (take (num_of_components (reg g)) (components (reg g)))))
  = Some (PAPI_OK, [(["A"; "B"]%string, [1; 1])]).
Proof. vm_compute. reflexivity. Qed.

Lemma read_events_determined (env : papi_env) (events : option string)
    (g g' : globals) :
  _internal_hl_read_events env events g = Some (PAPI_OK, g') ->
  events_determined (life g') = true.
Proof.
  unfold _internal_hl_read_events.
  match goal with
  | |- context [let '(_, _) := ?X in _] => destruct X as [r0 g0]
  end.
  destruct (decide (r0 = PAPI_OK)) as [_|Hr0]; [|intros [= ? ?]; contradiction].
  destruct (_internal_hl_create_components env g0) as [[r1 g1]|];
    cbn [mbind option_bind]; [|discriminate].
  destruct (decide (r1 = PAPI_OK)) as [_|Hr1]; [intros [= <-]; reflexivity|].
  match goal with
  | |- context [_internal_hl_determine_default_events env ?X] =>
      destruct (_internal_hl_determine_default_events env X) as [r2 g2]
  end.
  destruct (decide (r2 = PAPI_OK)) as [_|Hr2]; [|intros [= ? ?]; contradiction].
  destruct (_internal_hl_create_components env g2) as [[r3 g3]|];
    cbn [mbind option_bind]; [|discriminate].
  destruct (decide (r3 = PAPI_OK)) as [_|Hr3]; [intros [= <-]; reflexivity|].
  intros [= ? ?]; contradiction.
Qed.

(** Once the events are determined, setting them is a no-op that succeeds. *)
Lemma set_events_determined_noop (env : papi_env) (events : option string)
    (g : globals) :
  state (life g) = PAPIHL_ACTIVE ->
  events_determined (life g) = true ->
  _internal_PAPI_hl_set_events env events g = Some (PAPI_OK, g).
Proof.
  intros Hact Hdet. unfold _internal_PAPI_hl_set_events.
  rewrite decide_True by exact Hact.
  rewrite decide_False by (intros [_ H]; congruence).
  cbn [mbind option_bind].
  rewrite decide_False by (rewrite Hact; discriminate). reflexivity.
Qed.

Lemma active_or_deactivated (b : bool) :
  b <> PAPIHL_DEACTIVATED -> b = PAPIHL_ACTIVE.
Proof. unfold PAPIHL_ACTIVE, PAPIHL_DEACTIVATED. destruct b; congruence. Qed.

(** C8: when a call of PAPI_hl_set_events on an initiated system returns
    PAPI_OK, the events are determined, and any further call returns
    PAPI_OK and leaves the whole state, so the event list, the components
    and the number of tracked events, as it is. *)
Theorem set_events_idempotent (env1 env2 : papi_env)
    (events1 events2 : option string) (g g1 : globals) :
  hl_initiated (life g) = true ->
  _internal_PAPI_hl_set_events env1 events1 g = Some (PAPI_OK, g1) ->
  events_determined (life g1) = true
  /\ _internal_PAPI_hl_set_events env2 events2 g1 = Some (PAPI_OK, g1).
Proof.
  intros Hinit Hcall.
  assert (H : state (life g1) = PAPIHL_ACTIVE /\ events_determined (life g1) = true).
  { revert Hcall. unfold _internal_PAPI_hl_set_events.
    destruct (decide (state (life g) = PAPIHL_ACTIVE)) as [Hact|Hact];
      [|discriminate].
    destruct (decide (hl_initiated (life g) = true
                      /\ events_determined (life g) = false)) as [[_ Hdet]|Hdet].
    - destruct (_internal_hl_read_events env1 events1 g) as [[r ga]|] eqn:Hread;
        cbn [mbind option_bind]; [|discriminate].
      destruct (decide (r = PAPI_OK)) as [->|Hr];
        [|cbn [mbind option_bind]; intros [= ? ?]; contradiction].
      apply read_events_determined in Hread.
      cbn [_internal_hl_create_global_binary_tree].
      rewrite decide_True by reflexivity. cbn [mbind option_bind].
      destruct (decide (state (life (set_binary_tree (Some []) ga))
                        = PAPIHL_DEACTIVATED)) as [|Hs]; [discriminate|].
      intros [= <-]. split; [apply active_or_deactivated; exact Hs|exact Hread].
    - cbn [mbind option_bind].
      destruct (decide (state (life g) = PAPIHL_DEACTIVATED)); [discriminate|].
      intros [= <-]. split; [exact Hact|].
      destruct (events_determined (life g)); [reflexivity|].
      exfalso. apply Hdet. auto. }
  destruct H as [Hact Hdet]. split; [exact Hdet|].
  apply set_events_determined_noop; assumption.
Qed.

Lemma set_events_idempotent_witness :
  exists g1,
    _internal_PAPI_hl_set_events env_ok (Some "A=instant,B"%string) g_initiated
    = Some (PAPI_OK, g1)
    /\ events_determined (life g1) = true
    /\ _internal_PAPI_hl_set_events env_two_threads (Some "C"%string) g1
       = Some (PAPI_OK, g1).
Proof.
  destruct (_internal_PAPI_hl_set_events env_ok (Some "A=instant,B"%string)
              g_initiated) as [[r g1]|] eqn:Hcall;
    vm_compute in Hcall; [|discriminate].
  injection Hcall as <- <-.
  eexists. split; [reflexivity|].
  apply (set_events_idempotent env_ok env_two_threads
           (Some "A=instant,B"%string) (Some "C"%string) g_initiated);
    [reflexivity|vm_compute; reflexivity].
Defined.

Lemma shutdown_only_when_clean_witness :
  papi_shutdown_called
    (eff (fst (_internal_hl_clean_up_all env_two_threads true g_one_region
                 l_after_begin))) = false
  /\ papi_shutdown_called
       (eff (fst (_internal_hl_clean_up_all env_ok true g_one_region
                    l_after_begin))) = true.
Proof.
  split.
  - destruct (shutdown_only_when_clean env_two_threads true g_one_region
                l_after_begin eq_refl eq_refl) as (_ & _ & H).
    apply H; [reflexivity|].
    intros [Hn _]. vm_compute in Hn. discriminate.
  - destruct (shutdown_only_when_clean env_ok true g_one_region
                l_after_begin eq_refl eq_refl) as (H & _).
    apply H. split; [reflexivity|]. split; [vm_compute; reflexivity|].
    intros st Hin. vm_compute in Hin. inversion Hin.
Defined.

(** * Further properties of the code *)

(** ** Parsing the event specification *)

Lemma remove_spaces_no_space (s : string) :
  ~ occurs " "%char (_internal_hl_remove_spaces s).
Proof.
  induction s as [|a s IH]; simpl; [tauto|].
  destruct (decide (a = " "%char)); simpl; [exact IH|]. tauto.
Qed.

Lemma remove_spaces_keeps (c : ascii) (s : string) :
  c <> " "%char ->
  (occurs c (_internal_hl_remove_spaces s) <-> occurs c s).
Proof.
  intros Hc. induction s as [|a s IH]; simpl; [tauto|].
  destruct (decide (a = " "%char)) as [->|]; simpl; [|tauto].
  split; [tauto|]. intros [H|H]; [congruence|tauto].
Qed.

Lemma count_separators_count (sep : ascii) (s : string) :
  forall n : nat, count_separators s sep n = (n + count_char sep s)%nat.
Proof.
  induction s as [|a s IH]; intros n; simpl; [lia|].
  rewrite IH. destruct (decide (a = sep)); lia.
Qed.

Lemma fields_length (sep : ascii) (s : string) :
  length (fields sep s) = S (count_char sep s).
Proof.
  induction s as [|a s IH]; simpl; [reflexivity|].
  destruct (decide (a = sep)); simpl; [rewrite IH; reflexivity|].
  destruct (fields sep s) as [|f fs]; simpl in *; [discriminate|exact IH].
Qed.

Lemma fields_no_separator (sep : ascii) (s : string) :
  Forall (fun f => ~ occurs sep f) (fields sep s).
Proof.
  induction s as [|a s IH]; simpl.
  - constructor; [simpl; tauto|constructor].
  - destruct (decide (a = sep)).
    + constructor; [simpl; tauto|exact IH].
    + destruct (fields sep s) as [|f fs]; [repeat constructor; simpl; tauto|].
      inversion IH; subst. constructor; [simpl; tauto|assumption].
Qed.

Lemma strtok_length (s : string) (sep : ascii) :
  (length (strtok s sep) <= S (count_char sep s))%nat.
Proof.
  unfold strtok. rewrite <- fields_length. apply length_filter.
Qed.

Lemma strtok_tokens (s : string) (sep : ascii) :
  Forall (fun t => t <> EmptyString /\ ~ occurs sep t) (strtok s sep).
Proof.
  unfold strtok. apply Forall_forall. intros t Ht.
  apply list_elem_of_filter in Ht as [Hne Hin].
  split; [exact Hne|].
  pose proof (fields_no_separator sep s) as H.
  rewrite Forall_forall in H. apply H. exact Hin.
Qed.

(** The loop over the tokens stores them from [req_event_index] on and
    never finds more tokens than cells. *)
Lemma store_tokens_fits (tokens : list string) (num : nat) :
  forall (idx : nat) (names : list (option string)),
    length names = num ->
    (idx + length tokens <= num)%nat ->
    store_tokens tokens num idx names
    = (take idx names
       ++ map (fun t => Some (_internal_hl_remove_spaces t)) tokens
       ++ drop (idx + length tokens) names, None).
Proof.
  induction tokens as [|t tokens IH]; intros idx names Hlen Hfit; simpl.
  - rewrite Nat.add_0_r, take_drop. reflexivity.
  - simpl in Hfit. rewrite decide_False by lia.
    rewrite IH by (rewrite ?length_insert; lia). f_equal.
    rewrite (take_S_r (<[idx := Some (_internal_hl_remove_spaces t)]> names) idx
               (Some (_internal_hl_remove_spaces t)))
      by (apply list_lookup_insert_eq; lia).
    rewrite take_insert_ge by lia.
    replace (S idx + length tokens)%nat with (idx + S (length tokens))%nat by lia.
    rewrite drop_insert_lt by lia.
    rewrite <- app_assoc. reflexivity.
Qed.

(** The result of [_internal_hl_read_user_events] on a non-empty string. *)
Lemma read_user_events_result (user_events : string) (g : globals) :
  user_events <> EmptyString ->
  _internal_hl_read_user_events user_events g
  = (PAPI_OK,
     set_num_of_requested_events (S (count_char ","%char user_events))
       (set_requested_event_names
          (Some (map (fun t => Some (_internal_hl_remove_spaces t))
                   (strtok user_events ","%char)
                 ++ replicate (S (count_char ","%char user_events)
                               - length (strtok user_events ","%char)) None))
          g)).
Proof.
  intros Hne. unfold _internal_hl_read_user_events.
  rewrite decide_True by (destruct user_events; [contradiction|simpl; lia]).
  rewrite count_separators_count. cbn [Nat.add].
  rewrite store_tokens_fits.
  - cbn [take app Nat.add]. rewrite drop_replicate.
    rewrite decide_False by discriminate. reflexivity.
  - apply length_replicate.
  - cbn [Nat.add]. apply strtok_length.
Qed.

(** X1: on a non-empty specification [_internal_hl_read_user_events]
    always returns PAPI_OK: it reports one requested event more than the
    string has commas and stores the non-empty fields between the commas,
    without their spaces and in order, in the first cells of the array; the
    cells left over (there are some exactly when a field is empty) stay
    uninitialised.  No stored name holds a space or a comma. *)
Theorem read_user_events_parses (user_events : string) (g : globals) :
  user_events <> EmptyString ->
  _internal_hl_read_user_events user_events g
  = (PAPI_OK,
     set_num_of_requested_events (S (count_char ","%char user_events))
       (set_requested_event_names
          (Some (map (fun t => Some (_internal_hl_remove_spaces t))
                   (strtok user_events ","%char)
                 ++ replicate (S (count_char ","%char user_events)
                               - length (strtok user_events ","%char)) None))
          g))
  /\ (length (strtok user_events ","%char)
      <= S (count_char ","%char user_events))%nat
  /\ Forall (fun t => ~ occurs " "%char (_internal_hl_remove_spaces t)
                      /\ ~ occurs ","%char (_internal_hl_remove_spaces t))
       (strtok user_events ","%char).
Proof.
  intros Hne. split; [|split].
  - apply read_user_events_result, Hne.
  - apply strtok_length.
  - pose proof (strtok_tokens user_events ","%char) as H.
    eapply Forall_impl; [exact H|]. intros t [_ Hsep]. split.
    + apply remove_spaces_no_space.
    + rewrite remove_spaces_keeps by discriminate. exact Hsep.
Qed.

Lemma read_user_events_parses_witness :
  requested_event_names
    (reg (snd (_internal_hl_read_user_events "A, B C,,D=instant" g_initiated)))
  = Some [Some "A"; Some "BC"; Some "D=instant"; None]%string.
Proof.
  destruct (read_user_events_parses "A, B C,,D=instant" g_initiated) as [H _];
    [discriminate|].
  rewrite H. reflexivity.
Defined.

(** The result of [_internal_hl_determine_default_events]. *)
Lemma determine_default_events_result (env : papi_env) (g : globals) :
  num_of_requested_events (reg g) = 0%nat ->
  _internal_hl_determine_default_events env g
  = (PAPI_OK,
     set_num_of_requested_events
       (length (filter (fun name => _internal_hl_checkCounter env name = PAPI_OK)
                  default_events))
       (set_requested_event_names
          (Some (map Some
                   (filter (fun name => _internal_hl_checkCounter env name = PAPI_OK)
                      default_events)
                 ++ replicate
                      (5 - length
                             (filter
                                (fun name => _internal_hl_checkCounter env name = PAPI_OK)
                                default_events))
                      None))
          g)).
Proof.
  intros Hnum. destruct g as [[comps n m t names k] s c e].
  cbn in Hnum. subst k.
  unfold _internal_hl_determine_default_events, default_events.
  cbn [length seq fold_left lookup_total list_lookup_total].
  cbn [filter list_filter].
  repeat match goal with
         | |- context [_internal_hl_checkCounter env ?x] =>
             generalize (_internal_hl_checkCounter env x); intros ?
         end.
  repeat match goal with
         | |- context [decide (?r = PAPI_OK)] => destruct (decide (r = PAPI_OK))
         end;
    vm_compute; reflexivity.
Qed.


(** X2: started with no requested event,
    [_internal_hl_determine_default_events] always returns PAPI_OK, also
    when the machine supports none of the defaults: the requested events
    are the defaults that [_internal_hl_checkCounter] accepts, in the order
    of the table, followed by the unused cells of the five allocated. *)
Theorem determine_default_events_filters (env : papi_env) (g : globals) :
  num_of_requested_events (reg g) = 0%nat ->
  let supported :=
    filter (fun name => _internal_hl_checkCounter env name = PAPI_OK)
      default_events in
  _internal_hl_determine_default_events env g
  = (PAPI_OK,
     set_num_of_requested_events (length supported)
       (set_requested_event_names
          (Some (map Some supported ++ replicate (5 - length supported) None))
          g))
  /\ (length supported <= 5)%nat
  /\ Forall (fun name => _internal_hl_checkCounter env name = PAPI_OK) supported.
Proof.
  intros Hnum supported. split_and!.
  - apply determine_default_events_result, Hnum.
  - apply (length_filter _ default_events).
  - apply Forall_forall. intros name Hin.
    apply list_elem_of_filter in Hin as [Hok _]. exact Hok.
Qed.

Lemma determine_default_events_filters_witness :
  snd (_internal_hl_determine_default_events env_ok g_initiated)
  = set_num_of_requested_events 5
      (set_requested_event_names
         (Some (map Some default_events)) g_initiated).
Proof.
  destruct (determine_default_events_filters env_ok g_initiated eq_refl) as (H & _).
  rewrite H. reflexivity.
Defined.

(** ** Components *)

(** What [_internal_hl_add_event_to_component] does to the component. *)
Lemma add_event_to_component_spec (env : papi_env) (name : string)
    (event type : Z) (c : components_t) (g : globals) :
  component_wf c ->
  exists (retval : papi_retval) (c' : components_t) (g' : globals),
    _internal_hl_add_event_to_component env name event type c g
    = (retval, c', g')
    /\ component_wf c'
    /\ component_id c' = component_id c
    /\ (forall k : nat, (k < num_of_events c)%nat ->
                        component_event c' k = component_event c k)
    /\ same_but_stdout
         (set_total_num_events
            (num_of_events c' - num_of_events c + total_num_events (reg g)) g)
         g'
    /\ (max_num_of_events c'
        = if decide (num_of_events c = max_num_of_events c)
          then (max_num_of_events c * 2)%nat else max_num_of_events c)
    /\ (PAPI_add_event env (EventSet c) event = PAPI_OK ->
        retval = PAPI_OK
        /\ num_of_events c' = S (num_of_events c)
        /\ component_event c' (num_of_events c) = Some (name, event, type)
        /\ EventSet c' = option_map (fun cs => cs ++ [event]) (EventSet c))
    /\ (PAPI_add_event env (EventSet c) event <> PAPI_OK ->
        retval = PAPI_EINVAL
        /\ num_of_events c' = num_of_events c
        /\ EventSet c' = EventSet c).
Proof.
  intros (Hn & Hc & Ht & Hle & Hpos).
  unfold _internal_hl_add_event_to_component.
  set (c1 := if decide (num_of_events c = max_num_of_events c)
             then _ else c).
  assert (H1 : component_wf c1 /\ component_id c1 = component_id c
               /\ num_of_events c1 = num_of_events c
               /\ EventSet c1 = EventSet c
               /\ (num_of_events c1 < max_num_of_events c1)%nat
               /\ (forall k, (k < num_of_events c)%nat ->
                             component_event c1 k = component_event c k)
               /\ max_num_of_events c1
                  = if decide (num_of_events c = max_num_of_events c)
                    then (max_num_of_events c * 2)%nat else max_num_of_events c).
  { unfold c1. destruct (decide (num_of_events c = max_num_of_events c)) as [Hfull|Hfree].
    - unfold component_wf. cbn. rewrite !length_app, !length_replicate.
      split_and!; try reflexivity; try lia.
      intros k Hk. unfold component_event. cbn.
      rewrite !lookup_app_l by lia. reflexivity.
    - unfold component_wf. split_and!; try reflexivity; try assumption; lia. }
  clearbody c1.
  destruct H1 as ((Hn1 & Hc1 & Ht1 & Hle1 & Hpos1) & Hid1 & Hnum1 & Hset1 & Hlt1
                  & Hold1 & Hmax1).
  rewrite Hset1.
  destruct (decide (PAPI_add_event env (EventSet c) event = PAPI_OK)) as [Hok|Hko].
  - eexists _, _, _. split; [reflexivity|]. cbn.
    unfold component_wf. cbn. rewrite !length_insert.
    split_and!; try assumption; try lia.
    + intros k Hk. rewrite <- Hold1 by exact Hk. unfold component_event. cbn.
      rewrite !list_lookup_insert_ne by lia. reflexivity.
    + rewrite Hnum1.
      replace (S (num_of_events c) - num_of_events c + total_num_events (reg g))%nat
        with (S (total_num_events (reg g))) by lia.
      apply same_but_stdout_refl.
    + intros _. split_and!.
      * reflexivity.
      * f_equal. exact Hnum1.
      * rewrite <- Hnum1. unfold component_event. cbn.
        rewrite !list_lookup_insert_eq by lia. reflexivity.
      * reflexivity.
    + intros Hn'. contradiction.
  - eexists _, _, _. split; [reflexivity|].
    split; [unfold component_wf; split_and!; assumption|].
    split_and!; try assumption.
    + rewrite Hnum1, Nat.sub_diag. cbn [Nat.add].
      eapply same_but_stdout_trans; [|apply verbose_fprintf_same].
      destruct g as [[? ? ? ? ? ?] ? ? ?]. apply same_but_stdout_refl.
    + intros Hok. contradiction.
    + intros _. split_and!; [reflexivity|exact Hnum1|exact Hset1].
Qed.

(** X3: [_internal_hl_add_event_to_component] keeps the arrays of a component
    well sized, doubling their capacity exactly when they are full, and
    keeps the events already stored.  When the hardware layer accepts the
    event it returns PAPI_OK, the event is the next one of the component
    (name, code and type in the cell after the last) and the number of
    tracked events grows by one; when it refuses, it returns PAPI_EINVAL
    and neither number changes. *)
Theorem add_event_to_component_stores (env : papi_env) (name : string)
    (event type : Z) (c : components_t) (g : globals) :
  component_wf c ->
  exists (retval : papi_retval) (c' : components_t) (g' : globals),
    _internal_hl_add_event_to_component env name event type c g
    = (retval, c', g')
    /\ component_wf c'
    /\ (forall k : nat, (k < num_of_events c)%nat ->
                        component_event c' k = component_event c k)
    /\ (max_num_of_events c'
        = if decide (num_of_events c = max_num_of_events c)
          then (max_num_of_events c * 2)%nat else max_num_of_events c)
    /\ (PAPI_add_event env (EventSet c) event = PAPI_OK ->
        retval = PAPI_OK
        /\ num_of_events c' = S (num_of_events c)
        /\ component_event c' (num_of_events c) = Some (name, event, type)
        /\ total_num_events (reg g') = S (total_num_events (reg g)))
    /\ (PAPI_add_event env (EventSet c) event <> PAPI_OK ->
        retval = PAPI_EINVAL
        /\ num_of_events c' = num_of_events c
        /\ total_num_events (reg g') = total_num_events (reg g)).
Proof.
  intros Hwf.
  destruct (add_event_to_component_spec env name event type c g Hwf)
    as (r & c' & g' & Hcall & Hwf' & _ & Hold & Hsame & Hmax & Hok & Hko).
  exists r, c', g'. destruct Hsame as (Hreg & _).
  split_and!; try assumption.
  - intros H. destruct (Hok H) as (? & Hn & ? & _). split_and!; try assumption.
    rewrite Hreg. cbn. rewrite Hn. lia.
  - intros H. destruct (Hko H) as (? & Hn & _). split_and!; try assumption.
    rewrite Hreg. cbn. rewrite Hn. lia.
Qed.

Lemma add_event_to_component_stores_witness :
  exists c' g',
    _internal_hl_add_event_to_component env_ok "E" 5 1
      (mk_component 0 1 1 ["D"%string] [1] [0] (Some [1])) g_initiated
    = (PAPI_OK, c', g')
    /\ max_num_of_events c' = 2%nat
    /\ component_event c' 0 = Some ("D"%string, 1, 0)
    /\ component_event c' 1 = Some ("E"%string, 5, 1).
Proof.
  assert (Hwf : component_wf (mk_component 0 1 1 ["D"%string] [1] [0] (Some [1]))).
  { unfold component_wf. cbn. split_and!; lia. }
  destruct (add_event_to_component_stores env_ok "E" 5 1 _ g_initiated Hwf)
    as (r & c' & g' & Hcall & _ & Hold & Hmax & Hok & _).
  destruct (Hok eq_refl) as (-> & _ & Hnew & _).
  exists c', g'. split_and!; [exact Hcall|exact Hmax|apply (Hold 0%nat); cbn; lia|exact Hnew].
Defined.

(** *** The registry stays in order *)

Lemma event_slots_S (comps : list components_t) (n : nat) :
  event_slots comps (S n)
  = event_slots comps n ++ map (pair n) (seq 0 (num_of_events (comps !!! n))).
Proof.
  unfold event_slots. rewrite seq_S, flat_map_app. simpl.
  rewrite app_nil_r. reflexivity.
Qed.

Lemma event_slots_ext (c1 c2 : list components_t) (n : nat) :
  (forall i, (i < n)%nat -> num_of_events (c1 !!! i) = num_of_events (c2 !!! i)) ->
  event_slots c1 n = event_slots c2 n.
Proof.
  induction n as [|n IH]; intros H; [reflexivity|].
  rewrite !event_slots_S, IH, H by (intros; try apply H; lia). reflexivity.
Qed.

Lemma event_slots_insert_length (comps : list components_t) (idx : nat)
    (c' : components_t) (n : nat) :
  (idx < n)%nat -> (idx < length comps)%nat ->
  (length (event_slots (<[idx := c']> comps) n) + num_of_events (comps !!! idx)
   = length (event_slots comps n) + num_of_events c')%nat.
Proof.
  intros Hidx Hlen. induction n as [|n IH]; [lia|].
  rewrite !event_slots_S, !length_app, !length_map, !length_seq.
  destruct (decide (idx = n)) as [->|Hne].
  - rewrite list_lookup_total_insert_eq by exact Hlen.
    rewrite (event_slots_ext (<[n := c']> comps) comps n).
    + lia.
    + intros i Hi. rewrite list_lookup_total_insert_ne by lia. reflexivity.
  - rewrite list_lookup_total_insert_ne by exact Hne.
    assert (idx < n)%nat by lia. specialize (IH ltac:(assumption)). lia.
Qed.

(** [registry_wf] looks at the components, their number, the capacity and
    the number of tracked events only. *)
Lemma registry_wf_ext (g g' : globals) :
  components (reg g') = components (reg g) ->
  num_of_components (reg g') = num_of_components (reg g) ->
  max_num_of_components (reg g') = max_num_of_components (reg g) ->
  total_num_events (reg g') = total_num_events (reg g) ->
  registry_wf g -> registry_wf g'.
Proof.
  unfold registry_wf, slots_consistent. intros -> -> -> ->. tauto.
Qed.

Lemma registry_wf_same (g g' : globals) :
  same_but_stdout g g' -> registry_wf g -> registry_wf g'.
Proof.
  intros (Hreg & _). apply registry_wf_ext; rewrite Hreg; reflexivity.
Qed.

(** Doubling the array of components when it is full. *)
Lemma registry_wf_realloc (g : globals) :
  registry_wf g ->
  let g' :=
    if decide (num_of_components (reg g) = max_num_of_components (reg g))
    then set_components
           (components (reg g)
              ++ replicate (max_num_of_components (reg g)) inhabitant)
           (set_max_num_of_components (max_num_of_components (reg g) * 2)%nat g)
    else g in
  registry_wf g'
  /\ (num_of_components (reg g') < max_num_of_components (reg g'))%nat
  /\ num_of_components (reg g') = num_of_components (reg g)
  /\ total_num_events (reg g') = total_num_events (reg g)
  /\ requested_event_names (reg g') = requested_event_names (reg g)
  /\ num_of_requested_events (reg g') = num_of_requested_events (reg g).
Proof.
  intros (Hlen & Hle & Hpos & Hslots & Hwf).
  destruct (decide (num_of_components (reg g) = max_num_of_components (reg g)))
    as [Hfull|Hfree]; cbn zeta.
  - unfold registry_wf, slots_consistent in *. cbn -[event_slots].
    rewrite length_app, length_replicate.
    split_and!; try reflexivity; try lia.
    + rewrite Hslots. f_equal. apply event_slots_ext.
      intros i Hi. rewrite lookup_total_app_l by lia. reflexivity.
    + intros i Hi. rewrite lookup_total_app_l by lia. apply Hwf. exact Hi.
  - split_and!; try reflexivity; [|lia].
    unfold registry_wf. split_and!; assumption.
Qed.

(** A new component, with no event yet, in the first free cell. *)
Lemma registry_wf_new_component (g : globals) (c : components_t) :
  registry_wf g ->
  (num_of_components (reg g) < max_num_of_components (reg g))%nat ->
  component_wf c -> num_of_events c = 0%nat ->
  registry_wf
    (set_components (<[num_of_components (reg g) := c]> (components (reg g)))
       (set_num_of_components (S (num_of_components (reg g))) g)).
Proof.
  intros (Hlen & Hle & Hpos & Hslots & Hwf) Hlt Hc Hzero.
  unfold registry_wf, slots_consistent in *. cbn -[event_slots].
  rewrite length_insert. split_and!; try assumption; try lia.
  - rewrite event_slots_S, length_app, length_map, length_seq.
    rewrite list_lookup_total_insert_eq by lia. rewrite Hzero, Nat.add_0_r.
    rewrite Hslots. f_equal. apply event_slots_ext.
    intros i Hi. rewrite list_lookup_total_insert_ne by lia. reflexivity.
  - intros i Hi. destruct (decide (i = num_of_components (reg g))) as [->|Hne].
    + rewrite list_lookup_total_insert_eq by lia. exact Hc.
    + rewrite list_lookup_total_insert_ne by lia. apply Hwf. lia.
Qed.

(** Writing a cell of the array that is not in use. *)
Lemma registry_wf_write_free (g : globals) (c : components_t) :
  registry_wf g ->
  registry_wf
    (set_components (<[num_of_components (reg g) := c]> (components (reg g))) g).
Proof.
  intros (Hlen & Hle & Hpos & Hslots & Hwf).
  unfold registry_wf, slots_consistent in *. cbn -[event_slots].
  rewrite length_insert. split_and!; try assumption.
  - rewrite Hslots. f_equal. apply event_slots_ext.
    intros i Hi. rewrite list_lookup_total_insert_ne by lia. reflexivity.
  - intros i Hi. rewrite list_lookup_total_insert_ne by lia. apply Hwf. lia.
Qed.

(** Writing back a component in use whose number of events grew by [d],
    together with the number of tracked events. *)
Lemma registry_wf_write_used (g : globals) (idx : nat) (c' : components_t)
    (total' : nat) :
  registry_wf g ->
  (idx < num_of_components (reg g))%nat ->
  component_wf c' ->
  (total' + num_of_events (components (reg g) !!! idx)
   = total_num_events (reg g) + num_of_events c')%nat ->
  registry_wf
    (set_components (<[idx := c']> (components (reg g)))
       (set_total_num_events total' g)).
Proof.
  intros (Hlen & Hle & Hpos & Hslots & Hwf) Hidx Hc Htotal.
  unfold registry_wf, slots_consistent in *. cbn -[event_slots].
  rewrite length_insert. split_and!; try assumption.
  - pose proof (event_slots_insert_length (components (reg g)) idx c'
                  (num_of_components (reg g)) Hidx ltac:(lia)) as H.
    lia.
  - intros i Hi. destruct (decide (i = idx)) as [->|Hne].
    + rewrite list_lookup_total_insert_eq by lia. exact Hc.
    + rewrite list_lookup_total_insert_ne by lia. apply Hwf. exact Hi.
Qed.

Lemma registry_sorted_ext (env : papi_env) (g g' : globals) :
  components (reg g') = components (reg g) ->
  num_of_components (reg g') = num_of_components (reg g) ->
  max_num_of_components (reg g') = max_num_of_components (reg g) ->
  total_num_events (reg g') = total_num_events (reg g) ->
  registry_sorted env g -> registry_sorted env g'.
Proof.
  intros Hc Hn Hm Ht (Hwf & Hfiled & Hids). split_and!.
  - eapply registry_wf_ext; eassumption.
  - unfold events_filed. rewrite Hc, Hn. exact Hfiled.
  - unfold ids_distinct. rewrite Hc, Hn. exact Hids.
Qed.

Lemma registry_sorted_same (env : papi_env) (g g' : globals) :
  same_but_stdout g g' -> registry_sorted env g -> registry_sorted env g'.
Proof.
  intros (Hreg & _). apply registry_sorted_ext; rewrite Hreg; reflexivity.
Qed.

Lemma registry_sorted_verbose (env : papi_env) (d : diagnostic) (g : globals) :
  registry_sorted env g -> registry_sorted env (verbose_fprintf d g).
Proof.
  apply registry_sorted_same, verbose_fprintf_same.
Qed.

Lemma registry_sorted_realloc (env : papi_env) (g : globals) :
  registry_sorted env g ->
  let g' :=
    if decide (num_of_components (reg g) = max_num_of_components (reg g))
    then set_components
           (components (reg g)
              ++ replicate (max_num_of_components (reg g)) inhabitant)
           (set_max_num_of_components (max_num_of_components (reg g) * 2)%nat g)
    else g in
  registry_sorted env g'
  /\ (num_of_components (reg g') < max_num_of_components (reg g'))%nat
  /\ num_of_components (reg g') = num_of_components (reg g)
  /\ (forall i, (i < num_of_components (reg g))%nat ->
                components (reg g') !!! i = components (reg g) !!! i)
  /\ requested_event_names (reg g') = requested_event_names (reg g)
  /\ num_of_requested_events (reg g') = num_of_requested_events (reg g).
Proof.
  intros (Hwf & Hfiled & Hids).
  pose proof (registry_wf_realloc g Hwf) as H. cbn zeta in *.
  destruct H as (Hwf' & Hlt & Hnum & _ & Hnames & Hreq).
  assert (Hsame : forall i, (i < num_of_components (reg g))%nat ->
            components (reg (if decide (num_of_components (reg g)
                                        = max_num_of_components (reg g))
                    then set_components
                           (components (reg g)
                              ++ replicate (max_num_of_components (reg g)) inhabitant)
                           (set_max_num_of_components
                              (max_num_of_components (reg g) * 2)%nat g)
                    else g)) !!! i
            = components (reg g) !!! i).
  { intros i Hi. destruct Hwf as (Hlen & Hle & _).
    destruct (decide _); [|reflexivity]. cbn.
    rewrite lookup_total_app_l by lia. reflexivity. }
  split_and!; try assumption.
  split_and!; [assumption| |].
  - intros i Hi. rewrite Hnum in Hi. rewrite Hsame by exact Hi. apply Hfiled, Hi.
  - intros i j Hi Hj. rewrite Hnum in Hi, Hj. rewrite !Hsame by assumption.
    apply Hids; assumption.
Qed.

Lemma registry_sorted_new_component (env : papi_env) (g : globals)
    (c : components_t) :
  registry_sorted env g ->
  (num_of_components (reg g) < max_num_of_components (reg g))%nat ->
  component_wf c -> num_of_events c = 0%nat ->
  (forall j, (j < num_of_components (reg g))%nat ->
             component_id (components (reg g) !!! j) <> component_id c) ->
  registry_sorted env
    (set_components (<[num_of_components (reg g) := c]> (components (reg g)))
       (set_num_of_components (S (num_of_components (reg g))) g)).
Proof.
  intros (Hwf & Hfiled & Hids) Hlt Hc Hzero Hnew.
  assert (Hlen : length (components (reg g)) = max_num_of_components (reg g))
    by apply Hwf.
  split_and!.
  - apply registry_wf_new_component; assumption.
  - intros i Hi. cbn in Hi |- *.
    destruct (decide (i = num_of_components (reg g))) as [->|Hne].
    + rewrite list_lookup_total_insert_eq by lia.
      intros k name code type Hk. lia.
    + rewrite list_lookup_total_insert_ne by lia. apply Hfiled. lia.
  - intros i j Hi Hj. cbn in Hi, Hj |- *.
    destruct (decide (i = num_of_components (reg g))) as [->|Hi'];
      destruct (decide (j = num_of_components (reg g))) as [->|Hj'].
    + reflexivity.
    + rewrite list_lookup_total_insert_eq by lia.
      rewrite list_lookup_total_insert_ne by lia.
      intros Heq. exfalso. apply (Hnew j); [lia|]. symmetry. exact Heq.
    + rewrite list_lookup_total_insert_ne by lia.
      rewrite list_lookup_total_insert_eq by lia.
      intros Heq. exfalso. apply (Hnew i); [lia|]. exact Heq.
    + rewrite !list_lookup_total_insert_ne by lia. apply Hids; lia.
Qed.

Lemma registry_sorted_write_free (env : papi_env) (g : globals)
    (c : components_t) :
  registry_sorted env g ->
  registry_sorted env
    (set_components (<[num_of_components (reg g) := c]> (components (reg g))) g).
Proof.
  intros (Hwf & Hfiled & Hids). split_and!.
  - apply registry_wf_write_free. exact Hwf.
  - intros i Hi. cbn in Hi |- *.
    rewrite list_lookup_total_insert_ne by lia. apply Hfiled, Hi.
  - intros i j Hi Hj. cbn in Hi, Hj |- *.
    rewrite !list_lookup_total_insert_ne by lia. apply Hids; assumption.
Qed.

Lemma registry_sorted_write_used (env : papi_env) (g : globals) (idx : nat)
    (c' : components_t) (total' : nat) :
  registry_sorted env g ->
  (idx < num_of_components (reg g))%nat ->
  component_wf c' ->
  component_filed env c' ->
  component_id c' = component_id (components (reg g) !!! idx) ->
  (total' + num_of_events (components (reg g) !!! idx)
   = total_num_events (reg g) + num_of_events c')%nat ->
  registry_sorted env
    (set_components (<[idx := c']> (components (reg g)))
       (set_total_num_events total' g)).
Proof.
  intros (Hwf & Hfiled & Hids) Hidx Hc Hf Hid Htotal.
  assert (Hlen : length (components (reg g)) = max_num_of_components (reg g))
    by apply Hwf.
  assert (Hle : (num_of_components (reg g) <= max_num_of_components (reg g))%nat)
    by apply Hwf.
  assert (Hids' : forall i, (i < num_of_components (reg g))%nat ->
            component_id (<[idx := c']> (components (reg g)) !!! i)
            = component_id (components (reg g) !!! i)).
  { intros i Hi. destruct (decide (i = idx)) as [->|Hne].
    - rewrite list_lookup_total_insert_eq by lia. exact Hid.
    - rewrite list_lookup_total_insert_ne by lia. reflexivity. }
  split_and!.
  - apply registry_wf_write_used; assumption.
  - intros i Hi. cbn in Hi |- *. destruct (decide (i = idx)) as [->|Hne].
    + rewrite list_lookup_total_insert_eq by lia. exact Hf.
    + rewrite list_lookup_total_insert_ne by lia. apply Hfiled, Hi.
  - intros i j Hi Hj. cbn in Hi, Hj |- *. rewrite !Hids' by assumption.
    apply Hids; assumption.
Qed.

(** The search for a component id: a hit is a component in use with that
    id, a miss means that no component in use has it. *)
Lemma find_component_spec (comps : list components_t) (id : Z) (js : list nat)
    (e : bool) (idx : nat) :
  forall ce ci,
    find_component comps id js e idx = (ce, ci) ->
    (ce = true ->
     (ci ∈ js /\ component_id (comps !!! ci) = id)
     \/ (js = [] /\ e = true /\ ci = idx))
    /\ (ce = false -> forall j, j ∈ js -> component_id (comps !!! j) <> id).
Proof.
  revert e. induction js as [|j js IH]; intros e ce ci; cbn.
  - intros [= <- <-]. split.
    + intros ->. right. auto.
    + intros _ j Hj. inversion Hj.
  - destruct (decide (component_id (comps !!! j) = id)) as [Hid|Hid].
    + intros [= <- <-]. split; [|discriminate].
      intros _. left. split; [apply elem_of_cons; left; reflexivity|exact Hid].
    + intros Hfind. destruct (IH _ _ _ Hfind) as (Hhit & Hmiss). split.
      * intros Hce. destruct (Hhit Hce) as [(Hin & Hci)|(_ & [=] & _)].
        left. split; [apply elem_of_cons; right; exact Hin|exact Hci].
      * intros Hce j' Hj'. apply elem_of_cons in Hj' as [->|Hj'].
        -- exact Hid.
        -- apply Hmiss; assumption.
Qed.

Lemma add_event_step (env : papi_env) (name : string) (event type : Z)
    (idx : nat) (g : globals) :
  registry_sorted env g ->
  (idx < num_of_components (reg g))%nat ->
  PAPI_COMPONENT_INDEX env event = component_id (components (reg g) !!! idx) ->
  PAPI_event_name_to_code env name = (PAPI_OK, event) ->
  _internal_hl_checkCounter env name = PAPI_OK ->
  exists (retval : papi_retval) (c' : components_t) (g' : globals),
    _internal_hl_add_event_to_component env name event type
      (components (reg g) !!! idx) g
    = (retval, c', g')
    /\ retval <> PAPI_ENOMEM
    /\ registry_sorted env
         (set_components (<[idx := c']> (components (reg g'))) g')
    /\ num_of_components (reg g') = num_of_components (reg g)
    /\ requested_event_names (reg g') = requested_event_names (reg g)
    /\ num_of_requested_events (reg g') = num_of_requested_events (reg g).
Proof.
  intros Hsorted Hidx Hid Hcode Hsupp.
  set (c := components (reg g) !!! idx) in *.
  assert (Hwf : component_wf c) by (apply Hsorted; exact Hidx).
  assert (Hfiled : component_filed env c) by (apply Hsorted; exact Hidx).
  destruct (add_event_to_component_spec env name event type c g Hwf)
    as (retval & c' & g' & Hrun & Hwf' & Hid' & Hold & Hsame & _ & Hok & Hko).
  exists retval, c', g'. destruct Hsame as (Hreg & _).
  assert (Hnum : (num_of_events c <= num_of_events c')%nat
                 /\ retval <> PAPI_ENOMEM
                 /\ component_filed env c').
  { destruct (decide (PAPI_add_event env (EventSet c) event = PAPI_OK)) as [H|H].
    - destruct (Hok H) as (-> & Hn & Hnew & _). split_and!; [lia|discriminate|].
      intros k name' code' type' Hk Hev.
      destruct (decide (k = num_of_events c)) as [->|Hne].
      + rewrite Hnew in Hev. injection Hev as <- <- <-.
        rewrite Hid'. auto.
      + rewrite Hid'. rewrite Hold in Hev by lia. eapply (Hfiled k); [lia|exact Hev].
    - destruct (Hko H) as (-> & Hn & _). split_and!; [lia|discriminate|].
      intros k name' code' type' Hk Hev. rewrite Hid'.
      rewrite Hold in Hev by lia. eapply (Hfiled k); [lia|exact Hev]. }
  destruct Hnum as (Hle & Hnomem & Hfiled').
  split_and!; try assumption; try (rewrite Hreg; reflexivity).
  eapply registry_sorted_ext;
    [| | | |apply (registry_sorted_write_used env g idx c'
                     (num_of_events c' - num_of_events c + total_num_events (reg g))
                     Hsorted Hidx Hwf' Hfiled' Hid')];
    try (cbn; rewrite Hreg; reflexivity).
  fold c. lia.
Qed.

Lemma new_component_step (env : papi_env) (id : Z) (g : globals) :
  registry_sorted env g ->
  (num_of_components (reg g) < max_num_of_components (reg g))%nat ->
  (forall j, (j < num_of_components (reg g))%nat ->
             component_id (components (reg g) !!! j) <> id) ->
  exists (retval : papi_retval) (c : components_t) (g' : globals),
    _internal_hl_new_component env id
      (components (reg g) !!! num_of_components (reg g)) g
    = (retval, c, g')
    /\ registry_sorted env
         (set_components
            (<[num_of_components (reg g) := c]> (components (reg g'))) g')
    /\ requested_event_names (reg g') = requested_event_names (reg g)
    /\ num_of_requested_events (reg g') = num_of_requested_events (reg g)
    /\ components (reg g') = components (reg g)
    /\ retval = PAPI_create_eventset env
    /\ ((retval = PAPI_OK
         /\ num_of_components (reg g') = S (num_of_components (reg g))
         /\ component_id c = id)
        \/ (retval <> PAPI_OK
            /\ num_of_components (reg g') = num_of_components (reg g))).
Proof.
  intros Hsorted Hlt Hnew. unfold _internal_hl_new_component.
  destruct (decide (PAPI_create_eventset env = PAPI_OK)) as [Hok|Hko].
  - match goal with
    | |- context [set_num_of_components _ ?g1] => set (g0 := g1)
    end.
    assert (Hsame : same_but_stdout g g0).
    { unfold g0. repeat case_match;
        first [apply same_but_stdout_refl | apply verbose_fprintf_same]. }
    clearbody g0. destruct Hsame as (Hreg & _).
    eexists _, _, _. split; [reflexivity|].
    split_and!; try (cbn; rewrite Hreg; reflexivity).
    2:{ symmetry. exact Hok. }
    + eapply registry_sorted_ext;
        [| | | |apply (registry_sorted_new_component env g
                         (mk_component id 0 10 (replicate 10 EmptyString)
                            (replicate 10 0) (replicate 10 0) (Some [])))];
        try (cbn; rewrite Hreg; reflexivity); try assumption.
      * unfold component_wf. cbn. lia.
      * reflexivity.
    + left. split_and!; [reflexivity|cbn; rewrite Hreg; reflexivity|reflexivity].
  - pose proof (verbose_fprintf_frame (Err_cannot_create_eventset id) g)
      as (Hreg & _).
    eexists _, _, _. split; [reflexivity|].
    split_and!; try (rewrite Hreg; reflexivity); try reflexivity.
    + eapply registry_sorted_ext;
        [| | | |eapply (registry_sorted_write_free env g), Hsorted];
        try (cbn; rewrite Hreg; reflexivity).
    + right. split; [exact Hko|rewrite Hreg; reflexivity].
Qed.

(** A name that passes the support check has a code, and the library could
    create an event set. *)
Lemma checkCounter_ok (env : papi_env) (name : string) :
  _internal_hl_checkCounter env name = PAPI_OK ->
  PAPI_create_eventset env = PAPI_OK
  /\ exists code,
       PAPI_event_name_to_code env name = (PAPI_OK, code)
       /\ PAPI_add_event env (Some []) code = PAPI_OK.
Proof.
  unfold _internal_hl_checkCounter.
  destruct (decide (PAPI_create_eventset env = PAPI_OK)) as [Hcreate|]; [|congruence].
  destruct (PAPI_event_name_to_code env name) as [retval code].
  destruct (decide (retval = PAPI_OK)) as [->|]; [|congruence].
  destruct (decide (PAPI_add_event env (Some []) code = PAPI_OK)) as [Hadd|];
    [|congruence].
  intros _. split; [exact Hcreate|]. exists code. split; [reflexivity|exact Hadd].
Qed.

(** One iteration of the loop keeps the registry sorted and does not
    return: the support check has made the library calls that could make
    it return, with the same arguments. *)
Lemma create_components_event_inv (env : papi_env) (n m i : nat)
    (vars : create_components_vars) (g : globals) :
  create_components_inv env n m vars g ->
  (i < n)%nat ->
  exists vars' g' returned,
    create_components_event env i vars g = Some (vars', g', returned)
    /\ create_components_inv env n m vars' g'
    /\ num_of_requested_events (reg g') = num_of_requested_events (reg g)
    /\ returned = None.
Proof.
  intros (Hsorted & (names & Hnames & Hinit & Hrest) & Hvars) Hi.
  destruct (Hinit i Hi) as (s & Hs).
  unfold create_components_event. rewrite Hnames. cbn [mbind option_bind].
  rewrite Hs. cbn [mjoin option_join mbind option_bind].
  set (p := match strchr s "="%char with Some ret => _ | None => _ end).
  clearbody p. destruct p as [event_type name].
  set (g1 := set_requested_event_names (Some (<[i := Some name]> names)) g).
  assert (Hsorted1 : registry_sorted env g1)
    by (eapply registry_sorted_ext, Hsorted; reflexivity).
  assert (Hinit1 : names_ready n m g1).
  { exists (<[i := Some name]> names). split; [reflexivity|]. split.
    - intros k Hk. destruct (decide (k = i)) as [->|Hne].
      + exists name. apply list_lookup_insert_eq. apply lookup_lt_Some in Hs.
        exact Hs.
      + rewrite list_lookup_insert_ne by lia. apply Hinit, Hk.
    - intros k Hk. rewrite list_lookup_insert_ne by lia. apply Hrest, Hk. }
  assert (Hnum1 : num_of_components (reg g1) = num_of_components (reg g))
    by reflexivity.
  assert (Hreq1 : num_of_requested_events (reg g1) = num_of_requested_events (reg g))
    by reflexivity.
  clearbody g1. cbn [v_component_exists v_comp_index].
  destruct (decide (_internal_hl_checkCounter env name = PAPI_OK)) as [Hsupp|Hsupp].
  2:{ pose proof (verbose_fprintf_frame (Warn_not_supported name) g1) as (Hreg & _).
      eexists _, _, _. split; [reflexivity|]. split; [|split; [rewrite Hreg; exact Hreq1|reflexivity]].
      split_and!.
      - apply registry_sorted_verbose, Hsorted1.
      - destruct Hinit1 as (names1 & Hn1 & Hi1). exists names1.
        rewrite Hreg. split; assumption.
      - cbn. rewrite Hreg, Hnum1. exact Hvars. }
  destruct (PAPI_event_name_to_code env name) as [retval event] eqn:Hcode.
  destruct (decide (retval = PAPI_OK)) as [->|Hko].
  2:{ eexists _, _, _. split; [reflexivity|].
      split; [|split; [exact Hreq1|]].
      2:{ exfalso. apply Hko. apply checkCounter_ok in Hsupp as (_ & code & Hc & _).
          rewrite Hcode in Hc. injection Hc as -> _. reflexivity. }
      split_and!; try assumption. cbn. rewrite Hnum1. exact Hvars. }
  destruct (find_component (components (reg g1)) (PAPI_COMPONENT_INDEX env event)
              (seq 0 (num_of_components (reg g1))) (v_component_exists vars)
              (v_comp_index vars)) as [ce ci] eqn:Hfind.
  apply find_component_spec in Hfind as (Hhit & Hmiss).
  destruct ce.
  - (* the component exists *)
    assert (Hci : (ci < num_of_components (reg g1))%nat
                  /\ component_id (components (reg g1) !!! ci)
                     = PAPI_COMPONENT_INDEX env event).
    { destruct (Hhit eq_refl) as [(Hin & Hid)|(Hnil & He & ->)].
      - apply elem_of_seq in Hin. split; [lia|exact Hid].
      - specialize (Hvars He). destruct (num_of_components (reg g1)); [lia|].
        discriminate Hnil. }
    destruct Hci as (Hci & Hid). cbn [v_comp_index].
    destruct (add_event_step env name event event_type ci g1 Hsorted1 Hci
                (eq_sym Hid) Hcode Hsupp)
      as (retval & c' & g' & Hrun & Hnomem & Hsorted' & Hnum' & Hnames' & Hreq').
    rewrite Hrun. eexists _, _, _. split; [reflexivity|].
    split; [|split; [cbn; rewrite Hreq'; exact Hreq1|]].
    2:{ destruct (decide (retval = PAPI_ENOMEM)); [contradiction|reflexivity]. }
    split_and!; [exact Hsorted'| |].
    + destruct Hinit1 as (names1 & Hn1 & Hi1). exists names1. cbn.
      rewrite Hnames'. split; assumption.
    + intros _. cbn. rewrite Hnum'. exact Hci.
  - (* a new component *)
    pose proof (registry_sorted_realloc env g1 Hsorted1) as Hrealloc.
    cbn zeta in Hrealloc.
    set (g2 := if decide (num_of_components (reg g1) = max_num_of_components (reg g1))
               then _ else g1) in *.
    clearbody g2.
    destruct Hrealloc as (Hsorted2 & Hlt2 & Hnum2 & Hsame2 & Hnames2 & Hreq2).
    destruct (new_component_step env (PAPI_COMPONENT_INDEX env event) g2 Hsorted2 Hlt2)
      as (retval & c & g3 & Hrun & Hsorted3 & Hnames3 & Hreq3 & Hcomps3 & Hcreate
          & Hcases).
    { intros j Hj. rewrite Hsame2 by lia. apply Hmiss; [reflexivity|].
      apply elem_of_seq. lia. }
    rewrite Hrun. cbn [v_comp_index].
    set (g4 := set_components _ g3) in *.
    assert (Hinit4 : names_ready n m g4).
    { destruct Hinit1 as (names1 & Hn1 & Hi1). exists names1. unfold g4. cbn.
      rewrite Hnames3, Hnames2. split; assumption. }
    assert (Hreq4 : num_of_requested_events (reg g4)
                    = num_of_requested_events (reg g))
      by (unfold g4; cbn; rewrite Hreq3, Hreq2; exact Hreq1).
    destruct Hcases as [(-> & Hnum3 & Hid)|(Hko & Hnum3)].
    + destruct (decide (PAPI_OK = PAPI_OK)) as [_|[]]; [|reflexivity].
      assert (Hidx : (num_of_components (reg g2) < num_of_components (reg g4))%nat)
        by (unfold g4; cbn; lia).
      assert (Hid4 : PAPI_COMPONENT_INDEX env event
                     = component_id (components (reg g4)
                                       !!! num_of_components (reg g2))).
      { unfold g4. cbn. rewrite list_lookup_total_insert_eq; [symmetry; exact Hid|].
        rewrite Hcomps3. destruct Hsorted2 as ((Hlen & _) & _). lia. }
      destruct (add_event_step env name event event_type
                  (num_of_components (reg g2)) g4 Hsorted3 Hidx Hid4 Hcode Hsupp)
        as (retval & c' & g' & Hrun' & Hnomem & Hsorted' & Hnum' & Hnames' & Hreq').
      rewrite Hrun'. eexists _, _, _. split; [reflexivity|].
      split; [|split; [cbn; rewrite Hreq'; exact Hreq4|]].
      2:{ destruct (decide (retval = PAPI_ENOMEM)); [contradiction|reflexivity]. }
      split_and!; [exact Hsorted'| |].
      * destruct Hinit4 as (names4 & Hn4 & Hi4). exists names4. cbn.
        rewrite Hnames'. split; assumption.
      * intros _. cbn. rewrite Hnum'. exact Hidx.
    + exfalso. apply Hko. rewrite Hcreate. apply checkCounter_ok in Hsupp.
      apply Hsupp.
Qed.

Lemma create_components_events_inv (env : papi_env) (n m : nat)
    (idxs : list nat) :
  forall (vars : create_components_vars) (g : globals),
    create_components_inv env n m vars g ->
    (forall i, i ∈ idxs -> (i < n)%nat) ->
    exists vars' g',
      create_components_events env idxs vars g = Some (vars', g', None)
      /\ create_components_inv env n m vars' g'
      /\ num_of_requested_events (reg g') = num_of_requested_events (reg g).
Proof.
  induction idxs as [|i idxs IH]; intros vars g Hinv Hidxs; cbn.
  - eexists _, _. split; [reflexivity|]. split; [exact Hinv|reflexivity].
  - destruct (create_components_event_inv env n m i vars g Hinv)
      as (vars1 & g1 & returned1 & Hrun & Hinv1 & Hreq1 & ->).
    { apply Hidxs. apply elem_of_cons. left. reflexivity. }
    rewrite Hrun.
    destruct (IH vars1 g1 Hinv1) as (vars2 & g2 & Hrun2 & Hinv2 & Hreq2).
    { intros k Hk. apply Hidxs. apply elem_of_cons. right. exact Hk. }
    rewrite Hrun2. eexists _, _. split; [reflexivity|].
    split; [exact Hinv2|rewrite Hreq2; exact Hreq1].
Qed.

Lemma fold_verbose_fprintf_same {A : Type} (f : A -> diagnostic) (js : list A) :
  forall g : globals,
    same_but_stdout g (fold_left (fun g j => verbose_fprintf (f j) g) js g).
Proof.
  induction js as [|j js IH]; intros g; cbn.
  - apply same_but_stdout_refl.
  - eapply same_but_stdout_trans; [apply verbose_fprintf_same|apply IH].
Qed.

(** The loop that destroys the global event sets keeps the registry sorted
    and, when it runs to its end, leaves no event set behind. *)
Lemma destroy_component_sets_inv (env : papi_env) (idxs : list nat) :
  forall g : globals,
    registry_sorted env g ->
    (forall i, i ∈ idxs -> (i < num_of_components (reg g))%nat) ->
    exists g' returned,
      destroy_component_sets env idxs g = (g', returned)
      /\ registry_sorted env g'
      /\ num_of_components (reg g') = num_of_components (reg g)
      /\ requested_event_names (reg g') = requested_event_names (reg g)
      /\ num_of_requested_events (reg g') = num_of_requested_events (reg g)
      /\ sto g' = sto g /\ life g' = life g
      /\ (forall j, EventSet (components (reg g) !!! j) = None ->
                    EventSet (components (reg g') !!! j) = None)
      /\ (returned = None ->
          forall i, i ∈ idxs -> EventSet (components (reg g') !!! i) = None)
      /\ (forall r, returned = Some r ->
                     r <> PAPI_OK
                     /\ ((exists s, r = PAPI_cleanup_eventset env s)
                         \/ (exists s, r = PAPI_destroy_eventset env s))).
Proof.
  induction idxs as [|i idxs IH]; intros g Hsorted Hidxs; cbn.
  - eexists _, _. split; [reflexivity|]. split_and!; try reflexivity; try assumption.
    + auto.
    + intros _ i Hi. apply elem_of_nil in Hi. contradiction.
    + discriminate.
  - set (c := components (reg g) !!! i).
    destruct (decide (PAPI_cleanup_eventset env (EventSet c) = PAPI_OK)) as [Hclean|Hclean].
    2:{ eexists _, _. split; [reflexivity|].
        split_and!; try reflexivity; try assumption;
          [auto|discriminate|].
        intros r [= <-]. split; [exact Hclean|]. left. eexists. reflexivity. }
    destruct (decide (PAPI_destroy_eventset env (option_map (fun _ => []) (EventSet c))
                      = PAPI_OK)) as [Hdestroy|Hdestroy].
    2:{ eexists _, _. split; [reflexivity|].
        split_and!; try reflexivity; try assumption;
          [auto|discriminate|].
        intros r [= <-]. split; [exact Hdestroy|]. right. eexists. reflexivity. }
    set (c' := mk_component _ _ _ _ _ _ None).
    set (g1 := set_components (<[i := c']> (components (reg g))) g).
    set (g2 := fold_left _ _ g1).
    assert (Hi : (i < num_of_components (reg g))%nat)
      by (apply Hidxs, elem_of_cons; left; reflexivity).
    assert (Hlen : (num_of_components (reg g) <= length (components (reg g)))%nat).
    { destruct Hsorted as ((Hlen & Hle & _) & _). lia. }
    assert (Hsame : same_but_stdout g1 g2).
    { apply (fold_verbose_fprintf_same (fun j => Info_event (event_names c !!! j))). }
    clearbody g2. destruct Hsame as (Hreg & Hsto & Hlife & _).
    assert (Hsorted1 : registry_sorted env g1).
    { eapply registry_sorted_ext;
        [| | | |apply (registry_sorted_write_used env g i c'
                         (total_num_events (reg g)) Hsorted Hi)];
        try reflexivity.
      - assert (Hwf : component_wf c) by (apply Hsorted; exact Hi). exact Hwf.
      - intros k name code type Hk Hev.
        destruct Hsorted as (_ & Hfiled & _).
        eapply (Hfiled i Hi k); [exact Hk|exact Hev]. }
    assert (Hsorted2 : registry_sorted env g2)
      by (eapply registry_sorted_ext, Hsorted1; rewrite Hreg; reflexivity).
    destruct (IH g2 Hsorted2)
      as (g' & returned & Hrun & Hsorted' & Hnum' & Hnames' & Hreq' & Hsto' & Hlife'
          & Hkeep & Hnone & Hret).
    { intros k Hk. rewrite Hreg. cbn. apply Hidxs, elem_of_cons. right. exact Hk. }
    rewrite Hrun. exists g', returned. split; [reflexivity|].
    assert (Hset1 : forall j, EventSet (components (reg g) !!! j) = None ->
                              EventSet (components (reg g2) !!! j) = None).
    { intros j Hj. rewrite Hreg. cbn. destruct (decide (j = i)) as [->|Hne].
      - rewrite list_lookup_total_insert_eq by lia. reflexivity.
      - rewrite list_lookup_total_insert_ne by lia. exact Hj. }
    split_and!; try assumption.
    + rewrite Hnum', Hreg. reflexivity.
    + rewrite Hnames', Hreg. reflexivity.
    + rewrite Hreq', Hreg. reflexivity.
    + rewrite Hsto', Hsto. reflexivity.
    + rewrite Hlife', Hlife. reflexivity.
    + intros j Hj. apply Hkeep, Hset1, Hj.
    + intros Hnil k Hk. apply elem_of_cons in Hk as [->|Hk].
      * apply Hkeep. rewrite Hreg. cbn.
        rewrite list_lookup_total_insert_eq by lia. reflexivity.
      * apply Hnone; assumption.
Qed.

(** [_internal_hl_create_components] on a registry without components. *)
Lemma create_components_spec (env : papi_env) (g : globals) :
  names_initialised g ->
  (0 < max_num_of_components (reg g))%nat ->
  num_of_components (reg g) = 0%nat ->
  total_num_events (reg g) = 0%nat ->
  exists (retval : papi_retval) (g' : globals),
    _internal_hl_create_components env g = Some (retval, g')
    /\ registry_sorted env g'
    /\ num_of_requested_events (reg g') = num_of_requested_events (reg g)
    /\ (retval = PAPI_OK ->
        (0 < num_of_components (reg g'))%nat
        /\ forall i, (i < num_of_components (reg g'))%nat ->
                     EventSet (components (reg g') !!! i) = None)
    /\ (retval <> PAPI_OK ->
        num_of_components (reg g') = 0%nat
        \/ (exists s, retval = PAPI_cleanup_eventset env s)
        \/ (exists s, retval = PAPI_destroy_eventset env s)).
Proof.
  intros (names & Hnames & Hinit) Hmax Hnum Htotal.
  unfold _internal_hl_create_components.
  set (g0 := set_components (replicate (max_num_of_components (reg g)) inhabitant) g).
  assert (Hinv : create_components_inv env (num_of_requested_events (reg g0))
                   (num_of_requested_events (reg g0)) (mk_vars 0 false 0) g0).
  { split_and!.
    - split_and!.
      + unfold registry_wf, slots_consistent, g0. cbn -[event_slots].
        rewrite length_replicate, Hnum, Htotal.
        split_and!; try reflexivity; lia.
      + intros i Hi. unfold g0 in Hi. cbn in Hi. lia.
      + intros i j Hi. unfold g0 in Hi. cbn in Hi. lia.
    - exists names. split_and!; [exact Hnames|exact Hinit|]. intros k Hk. lia.
    - discriminate. }
  destruct (create_components_events_inv env _ _
              (seq 0 (num_of_requested_events (reg g0))) _ g0 Hinv)
    as (vars & g1 & Hrun & (Hsorted1 & _ & _) & Hreq1).
  { intros i Hi. apply elem_of_seq in Hi. lia. }
  rewrite Hrun. cbn [mbind option_bind].
  set (g2 := if decide (0 < num_of_components (reg g1))%nat
             then verbose_fprintf Info_using_events g1 else g1).
  assert (Hsame : same_but_stdout g1 g2).
  { unfold g2. destruct (decide _);
      [apply verbose_fprintf_same|apply same_but_stdout_refl]. }
  clearbody g2.
  assert (Hsorted2 : registry_sorted env g2)
    by (eapply registry_sorted_same; eassumption).
  destruct Hsame as (Hreg & _).
  destruct (destroy_component_sets_inv env (seq 0 (num_of_components (reg g2))) g2
              Hsorted2)
    as (g3 & returned & Hrun3 & Hsorted3 & Hnum3 & _ & Hreq3 & _ & _ & _ & Hnone
        & Hret3).
  { intros i Hi. apply elem_of_seq in Hi. lia. }
  rewrite Hrun3.
  assert (Hreq : num_of_requested_events (reg g3) = num_of_requested_events (reg g))
    by (rewrite Hreq3, Hreg, Hreq1; reflexivity).
  destruct returned as [retval|].
  - eexists _, _. split; [reflexivity|]. split_and!; try assumption.
    + intros ->. exfalso. apply (Hret3 PAPI_OK); reflexivity.
    + intros _. right. apply Hret3. reflexivity.
  - destruct (decide (num_of_components (reg g3) = 0%nat)) as [Hzero|Hpos].
    + eexists _, _. split; [reflexivity|]. split_and!; try assumption.
      * discriminate.
      * intros _. left. exact Hzero.
    + eexists _, _. split; [reflexivity|]. split_and!; try assumption.
      * intros _. split; [lia|]. intros i Hi. apply Hnone; [reflexivity|].
        apply elem_of_seq. lia.
      * intros []. reflexivity.
Qed.

(** X4: on a registry without components and with every requested name
    initialised, _internal_hl_create_components runs to a result and leaves
    the registry in order: the array of components has its allocated size,
    the components in use fit in it, each of them has arrays of its
    capacity holding its events, and total_num_events is the sum of their
    numbers of events.  The number of requested events is unchanged. *)
Theorem create_components_consistent (env : papi_env) (g : globals) :
  names_initialised g ->
  (0 < max_num_of_components (reg g))%nat ->
  num_of_components (reg g) = 0%nat ->
  total_num_events (reg g) = 0%nat ->
  exists (retval : papi_retval) (g' : globals),
    _internal_hl_create_components env g = Some (retval, g')
    /\ registry_wf g'
    /\ total_num_events (reg g')
       = sum_list_with (fun i => num_of_events (components (reg g') !!! i))
           (seq 0 (num_of_components (reg g')))
    /\ num_of_requested_events (reg g') = num_of_requested_events (reg g).
Proof.
  intros Hnames Hmax Hnum Htotal.
  destruct (create_components_spec env g Hnames Hmax Hnum Htotal)
    as (retval & g' & Hrun & (Hwf & _) & Hreq & _ & _).
  exists retval, g'. split_and!; try assumption.
  destruct Hwf as (_ & _ & _ & Hslots & _). rewrite Hslots.
  generalize (num_of_components (reg g')). intros n.
  induction n as [|n IH]; [reflexivity|].
  rewrite event_slots_S, length_app, length_map, length_seq, IH.
  rewrite seq_S, sum_list_with_app. cbn. lia.
Qed.

Lemma create_components_consistent_witness :
  exists (retval : papi_retval) (g' : globals),
    _internal_hl_create_components env_ok g_requested = Some (retval, g')
    /\ registry_wf g'
    /\ total_num_events (reg g')
       = sum_list_with (fun i => num_of_events (components (reg g') !!! i))
           (seq 0 (num_of_components (reg g')))
    /\ num_of_requested_events (reg g') = 3%nat.
Proof.
  apply (create_components_consistent env_ok g_requested).
  - eexists. split; [reflexivity|].
    intros [|[|[|i]]] Hi; cbn in Hi; try lia; eexists; reflexivity.
  - cbn. lia.
  - reflexivity.
  - reflexivity.
Defined.

(** X5: under the same conditions every event that
    _internal_hl_create_components stored passed the support check and is
    kept, with the code the library gave for its name, in the component
    whose id the library gives for that code; no two components in use
    have the same id; and when the function returns PAPI_OK there is at
    least one component and no component holds an event set any more. *)
Theorem create_components_groups_events (env : papi_env) (g : globals) :
  names_initialised g ->
  (0 < max_num_of_components (reg g))%nat ->
  num_of_components (reg g) = 0%nat ->
  total_num_events (reg g) = 0%nat ->
  exists (retval : papi_retval) (g' : globals),
    _internal_hl_create_components env g = Some (retval, g')
    /\ events_filed env g'
    /\ ids_distinct g'
    /\ (retval = PAPI_OK ->
        (0 < num_of_components (reg g'))%nat
        /\ forall i, (i < num_of_components (reg g'))%nat ->
                     EventSet (components (reg g') !!! i) = None).
Proof.
  intros Hnames Hmax Hnum Htotal.
  destruct (create_components_spec env g Hnames Hmax Hnum Htotal)
    as (retval & g' & Hrun & (_ & Hfiled & Hids) & _ & Hok & _).
  exists retval, g'. split_and!; assumption.
Qed.

Lemma create_components_groups_events_witness :
  exists (g' : globals),
    _internal_hl_create_components env_ok g_requested = Some (PAPI_OK, g')
    /\ events_filed env_ok g'
    /\ ids_distinct g'
    /\ (0 < num_of_components (reg g'))%nat.
Proof.
  assert (Hnames : names_initialised g_requested).
  { eexists. split; [reflexivity|].
    intros [|[|[|i]]] Hi; cbn in Hi; try lia; eexists; reflexivity. }
  assert (Hmax : (0 < max_num_of_components (reg g_requested))%nat) by (cbn; lia).
  pose proof (create_components_groups_events env_ok g_requested Hnames Hmax
                eq_refl eq_refl) as H.
  destruct H as (retval & g' & Hrun & Hfiled & Hids & Hok).
  assert (Hret : retval = PAPI_OK).
  { assert (Hfst : fst <$> _internal_hl_create_components env_ok g_requested
                   = Some PAPI_OK) by (vm_compute; reflexivity).
    rewrite Hrun in Hfst. injection Hfst as <-. reflexivity. }
  subst retval. exists g'. split_and!; try assumption. apply Hok. reflexivity.
Defined.

(** *** Creating the components touches the registry and the output only *)

Lemma add_event_to_component_frame (env : papi_env) (name : string)
    (event type : Z) (c : components_t) (g : globals) :
  forall retval c' g',
    _internal_hl_add_event_to_component env name event type c g = (retval, c', g') ->
    sto g' = sto g /\ life g' = life g.
Proof.
  intros retval c' g'. unfold _internal_hl_add_event_to_component.
  destruct (decide (PAPI_add_event env _ event = PAPI_OK)); intros [= _ _ <-].
  - split; reflexivity.
  - split; apply verbose_fprintf_frame.
Qed.

Lemma new_component_frame (env : papi_env) (id : Z) (c : components_t)
    (g : globals) :
  forall retval c' g',
    _internal_hl_new_component env id c g = (retval, c', g') ->
    sto g' = sto g /\ life g' = life g.
Proof.
  intros retval c' g'. unfold _internal_hl_new_component.
  destruct (decide (PAPI_create_eventset env = PAPI_OK)); intros [= _ _ <-].
  - match goal with
    | |- context [set_num_of_components _ ?g1] => set (g0 := g1)
    end.
    assert (Hsame : same_but_stdout g g0).
    { unfold g0. repeat case_match;
        first [apply same_but_stdout_refl | apply verbose_fprintf_same]. }
    destruct Hsame as (_ & Hsto & Hlife & _). split; [exact Hsto|exact Hlife].
  - pose proof (verbose_fprintf_frame (Err_cannot_create_eventset id) g)
      as (_ & Hsto & Hlife & _).
    split; [exact Hsto|exact Hlife].
Qed.

Lemma create_components_event_frame (env : papi_env) (i : nat)
    (vars : create_components_vars) (g : globals) :
  forall vars' g' returned,
    create_components_event env i vars g = Some (vars', g', returned) ->
    sto g' = sto g /\ life g' = life g.
Proof.
  intros vars' g' returned. unfold create_components_event.
  destruct (requested_event_names (reg g)) as [names|]; [|discriminate].
  cbn [mbind option_bind].
  destruct (mjoin (names !! i)) as [s|]; [|discriminate].
  cbn [mbind option_bind].
  set (p := match strchr s "="%char with Some ret => _ | None => _ end).
  clearbody p. destruct p as [event_type name].
  set (g1 := set_requested_event_names (Some (<[i := Some name]> names)) g).
  assert (H1 : sto g1 = sto g /\ life g1 = life g) by (split; reflexivity).
  clearbody g1. destruct H1 as (Hsto1 & Hlife1).
  destruct (decide (_internal_hl_checkCounter env name = PAPI_OK)).
  2:{ intros [= _ <- _].
      pose proof (verbose_fprintf_frame (Warn_not_supported name) g1)
        as (_ & Hsto & Hlife & _).
      split; congruence. }
  destruct (PAPI_event_name_to_code env name) as [retval event].
  destruct (decide (retval = PAPI_OK)).
  2:{ intros [= _ <- _]. split; assumption. }
  destruct (find_component _ _ _ _ _) as [ce ci]. destruct ce.
  - destruct (_internal_hl_add_event_to_component _ _ _ _ _ _)
      as [[r c'] g2] eqn:Hadd.
    apply add_event_to_component_frame in Hadd as (Hsto & Hlife).
    intros [= _ <- _]. split; cbn; congruence.
  - set (g2 := if decide (num_of_components (reg g1) = max_num_of_components (reg g1))
               then _ else g1).
    assert (H2 : sto g2 = sto g1 /\ life g2 = life g1)
      by (unfold g2; destruct (decide _); split; reflexivity).
    clearbody g2. destruct H2 as (Hsto2 & Hlife2).
    destruct (_internal_hl_new_component _ _ _ _) as [[r c] g3] eqn:Hnew.
    apply new_component_frame in Hnew as (Hsto3 & Hlife3).
    destruct (decide (r = PAPI_OK)).
    + destruct (_internal_hl_add_event_to_component _ _ _ _ _ _)
        as [[r' c'] g4] eqn:Hadd.
      apply add_event_to_component_frame in Hadd as (Hsto & Hlife).
      intros [= _ <- _]. cbn in Hsto, Hlife |- *. split; congruence.
    + intros [= _ <- _]. cbn. split; congruence.
Qed.

Lemma create_components_events_frame (env : papi_env) (idxs : list nat) :
  forall vars g vars' g' returned,
    create_components_events env idxs vars g = Some (vars', g', returned) ->
    sto g' = sto g /\ life g' = life g.
Proof.
  induction idxs as [|i idxs IH]; intros vars g vars' g' returned; cbn.
  - intros [= _ <- _]. split; reflexivity.
  - destruct (create_components_event env i vars g) as [[[vars1 g1] [r|]]|] eqn:Hev;
      [| |discriminate]; apply create_components_event_frame in Hev as (Hsto & Hlife).
    + intros [= _ <- _]. split; assumption.
    + intros Hrun. apply IH in Hrun as (Hsto' & Hlife'). split; congruence.
Qed.

Lemma create_components_frame (env : papi_env) (g : globals) :
  forall retval g',
    _internal_hl_create_components env g = Some (retval, g') ->
    sto g' = sto g /\ life g' = life g.
Proof.
  intros retval g'. unfold _internal_hl_create_components.
  destruct (create_components_events _ _ _ _) as [[[vars g1] returned]|] eqn:Hloop;
    [|discriminate].
  apply create_components_events_frame in Hloop as (Hsto1 & Hlife1).
  cbn in Hsto1, Hlife1. cbn [mbind option_bind].
  destruct returned as [r|]; [intros [= _ <-]; split; assumption|].
  set (g2 := if decide (0 < num_of_components (reg g1))%nat
             then verbose_fprintf Info_using_events g1 else g1).
  assert (Hsame : same_but_stdout g1 g2).
  { unfold g2. destruct (decide _);
      [apply verbose_fprintf_same|apply same_but_stdout_refl]. }
  clearbody g2. destruct Hsame as (_ & Hsto2 & Hlife2 & _).
  assert (Hdestroy : forall idxs g g3 returned,
            destroy_component_sets env idxs g = (g3, returned) ->
            sto g3 = sto g /\ life g3 = life g).
  { clear. induction idxs as [|i idxs IH]; intros g g3 returned; cbn.
    - intros [= <- _]. split; reflexivity.
    - destruct (decide _); [|intros [= <- _]; split; reflexivity].
      destruct (decide _); [|intros [= <- _]; split; reflexivity].
      intros Hrun. apply IH in Hrun as (Hsto & Hlife).
      match type of Hsto with
      | _ = sto (fold_left ?f ?js ?g1) =>
          pose proof (fold_verbose_fprintf_same
                        (fun j => Info_event (event_names (components (reg g) !!! i) !!! j))
                        js g1) as (_ & Hsto1 & Hlife1 & _)
      end.
      split; [rewrite Hsto|rewrite Hlife]; [rewrite Hsto1|rewrite Hlife1]; reflexivity. }
  destruct (destroy_component_sets _ _ _) as [g3 [r|]] eqn:Hrun.
  - apply Hdestroy in Hrun as (Hsto3 & Hlife3). intros [= _ <-]. split; congruence.
  - apply Hdestroy in Hrun as (Hsto3 & Hlife3).
    destruct (decide _); intros [= _ <-]; split; congruence.
Qed.

(** ** Resolving the events *)

Lemma names_initialised_user (s : string) (g : globals) :
  no_empty_field s ->
  exists g1,
    _internal_hl_read_user_events s g = (PAPI_OK, g1)
    /\ names_initialised g1
    /\ components (reg g1) = components (reg g)
    /\ num_of_components (reg g1) = num_of_components (reg g)
    /\ max_num_of_components (reg g1) = max_num_of_components (reg g)
    /\ total_num_events (reg g1) = total_num_events (reg g)
    /\ sto g1 = sto g /\ life g1 = life g.
Proof.
  intros (Hne & Hlen). rewrite (read_user_events_result s g Hne).
  eexists. split; [reflexivity|]. split_and!; try reflexivity.
  eexists. split; [reflexivity|]. cbn. intros i Hi.
  rewrite Hlen, Nat.sub_diag, app_nil_r.
  destruct (strtok s ","%char !! i) as [t|] eqn:Ht.
  - exists (_internal_hl_remove_spaces t). rewrite list_lookup_fmap, Ht. reflexivity.
  - apply lookup_ge_None in Ht. lia.
Qed.

Lemma names_initialised_default (env : papi_env) (g : globals) :
  num_of_requested_events (reg g) = 0%nat ->
  exists g1,
    _internal_hl_determine_default_events env g = (PAPI_OK, g1)
    /\ names_initialised g1
    /\ components (reg g1) = components (reg g)
    /\ num_of_components (reg g1) = num_of_components (reg g)
    /\ max_num_of_components (reg g1) = max_num_of_components (reg g)
    /\ total_num_events (reg g1) = total_num_events (reg g)
    /\ sto g1 = sto g /\ life g1 = life g.
Proof.
  intros Hnum. rewrite (determine_default_events_result env g Hnum).
  eexists. split; [reflexivity|]. split_and!; try reflexivity.
  eexists. split; [reflexivity|]. cbn -[filter default_events]. intros i Hi.
  set (supported := filter _ default_events) in *.
  destruct (supported !! i) as [t|] eqn:Ht.
  - exists t. rewrite lookup_app_l by (rewrite length_map; exact Hi).
    rewrite list_lookup_fmap, Ht. reflexivity.
  - apply lookup_ge_None in Ht. lia.
Qed.

(** With a library whose event-set calls succeed,
    [_internal_hl_create_components] fails only when it created no
    component. *)
Lemma create_components_run (env : papi_env) (g : globals) :
  event_sets_ok env ->
  names_initialised g ->
  (0 < max_num_of_components (reg g))%nat ->
  num_of_components (reg g) = 0%nat ->
  total_num_events (reg g) = 0%nat ->
  exists (retval : papi_retval) (g' : globals),
    _internal_hl_create_components env g = Some (retval, g')
    /\ registry_sorted env g'
    /\ sto g' = sto g /\ life g' = life g
    /\ (retval = PAPI_OK ->
        (0 < num_of_components (reg g'))%nat
        /\ forall i, (i < num_of_components (reg g'))%nat ->
                     EventSet (components (reg g') !!! i) = None)
    /\ (retval <> PAPI_OK ->
        (0 < max_num_of_components (reg g'))%nat
        /\ num_of_components (reg g') = 0%nat
        /\ total_num_events (reg g') = 0%nat).
Proof.
  intros (Hcreate & Hcleanup & Hdestroy) Hnames Hmax Hnum Htotal.
  destruct (create_components_spec env g Hnames Hmax Hnum Htotal)
    as (retval & g' & Hrun & Hsorted & _ & Hok & Hko).
  destruct (create_components_frame env g retval g' Hrun) as (Hsto & Hlife).
  exists retval, g'. split_and!; try assumption.
  intros Hfail.
  assert (Hzero : num_of_components (reg g') = 0%nat).
  { destruct (Hko Hfail) as [H|[(s & H)|(s & H)]]; [exact H| |];
      exfalso; apply Hfail; rewrite H; auto. }
  destruct Hsorted as ((_ & _ & Hpos & Hslots & _) & _).
  split_and!; [exact Hpos|exact Hzero|].
  unfold slots_consistent in Hslots. rewrite Hslots, Hzero. reflexivity.
Qed.

(** [_internal_hl_read_events] on a clean registry. *)
Lemma read_events_spec (env : papi_env) (events : option string) (g : globals) :
  event_sets_ok env ->
  registry_clean g ->
  (forall s, user_events env events = Some s -> no_empty_field s) ->
  exists (retval : papi_retval) (g' : globals),
    _internal_hl_read_events env events g = Some (retval, g')
    /\ registry_sorted env g'
    /\ sto g' = sto g
    /\ (retval = PAPI_OK ->
        life g' = life (set_events_determined true g)
        /\ (0 < num_of_components (reg g'))%nat
        /\ forall i, (i < num_of_components (reg g'))%nat ->
                     EventSet (components (reg g') !!! i) = None)
    /\ (retval <> PAPI_OK ->
        life g' = life g /\ num_of_components (reg g') = 0%nat).
Proof.
  intros Hsets (Hmax & Hnum & Htotal & Hreq) Huser.
  unfold _internal_hl_read_events.
  (* the requested events *)
  match goal with
  | |- context [let '(retval, g) := ?first in _] => set (requested := first)
  end.
  assert (Hrequested : exists g1,
             requested = (PAPI_OK, g1)
             /\ names_initialised g1
             /\ components (reg g1) = components (reg g)
             /\ num_of_components (reg g1) = num_of_components (reg g)
             /\ max_num_of_components (reg g1) = max_num_of_components (reg g)
             /\ total_num_events (reg g1) = total_num_events (reg g)
             /\ sto g1 = sto g /\ life g1 = life g).
  { unfold requested. unfold user_events in Huser. destruct events as [s|].
    - destruct (names_initialised_user s g (Huser s eq_refl)) as (g1 & Hrun & H).
      rewrite Hrun. rewrite decide_True by reflexivity. exists g1. split; [reflexivity|exact H].
    - destruct (getenv env "PAPI_EVENTS") as [s|].
      + destruct (names_initialised_user s g (Huser s eq_refl)) as (g1 & Hrun & H).
        rewrite Hrun. rewrite decide_True by reflexivity. exists g1.
        split; [reflexivity|exact H].
      + apply names_initialised_default, Hreq. }
  clearbody requested.
  destruct Hrequested as (g1 & -> & Hnames1 & _ & Hnum1 & Hmax1 & Htotal1 & Hsto1 & Hlife1).
  rewrite decide_True by reflexivity.
  destruct (create_components_run env g1 Hsets Hnames1)
    as (retval & g2 & Hrun & Hsorted2 & Hsto2 & Hlife2 & Hok2 & Hko2); [lia..|].
  rewrite Hrun. cbn [mbind option_bind].
  destruct (decide (retval = PAPI_OK)) as [->|Hfail].
  { eexists _, _. split; [reflexivity|]. split_and!.
    - eapply registry_sorted_ext, Hsorted2; reflexivity.
    - cbn. congruence.
    - intros _. split_and!; [cbn; congruence|apply Hok2; reflexivity..].
    - intros []. reflexivity. }
  (* the requested events do not work: the defaults *)
  destruct (Hko2 Hfail) as (Hmax2 & Hnum2 & Htotal2).
  set (g3 := set_num_of_requested_events 0
               (set_requested_event_names None
                  (verbose_fprintf Warn_all_requested_fail g2))).
  pose proof (verbose_fprintf_frame Warn_all_requested_fail g2)
    as (Hreg3 & Hsto3 & Hlife3 & _).
  destruct (names_initialised_default env g3 eq_refl)
    as (g4 & Hrun4 & Hnames4 & _ & Hnum4 & Hmax4 & Htotal4 & Hsto4 & Hlife4).
  rewrite Hrun4. rewrite decide_True by reflexivity.
  destruct (create_components_run env g4 Hsets Hnames4)
    as (retval' & g5 & Hrun5 & Hsorted5 & Hsto5 & Hlife5 & Hok5 & Hko5).
  { rewrite Hmax4. unfold g3. cbn. rewrite Hreg3. exact Hmax2. }
  { rewrite Hnum4. unfold g3. cbn. rewrite Hreg3. exact Hnum2. }
  { rewrite Htotal4. unfold g3. cbn. rewrite Hreg3. exact Htotal2. }
  rewrite Hrun5. cbn [mbind option_bind].
  assert (Hsto : sto g5 = sto g).
  { rewrite Hsto5, Hsto4. unfold g3. cbn. congruence. }
  assert (Hlife : life g5 = life g).
  { rewrite Hlife5, Hlife4. unfold g3. cbn. congruence. }
  destruct (decide (retval' = PAPI_OK)) as [->|Hfail'].
  - eexists _, _. split; [reflexivity|]. split_and!.
    + eapply registry_sorted_ext, Hsorted5; reflexivity.
    + exact Hsto.
    + intros _. split_and!; [cbn; congruence|apply Hok5; reflexivity..].
    + intros []. reflexivity.
  - eexists _, _. split; [reflexivity|]. split_and!; try assumption.
    + intros ->. contradiction.
    + intros _. split; [exact Hlife|]. apply Hko5, Hfail'.
Qed.

(** The first call of [_internal_PAPI_hl_set_events]. *)
Lemma set_events_first (env : papi_env) (events : option string)
    (g : globals) :
  event_sets_ok env ->
  registry_clean g ->
  (forall s, user_events env events = Some s -> no_empty_field s) ->
  state (life g) = PAPIHL_ACTIVE ->
  hl_initiated (life g) = true ->
  events_determined (life g) = false ->
  exists (retval : papi_retval) (g' : globals),
    _internal_PAPI_hl_set_events env events g = Some (retval, g')
    /\ ((retval = PAPI_OK
         /\ life g' = life (set_events_determined true g)
         /\ sto g' = sto (set_binary_tree (Some []) g)
         /\ registry_sorted env g'
         /\ (0 < num_of_components (reg g'))%nat
         /\ forall i, (i < num_of_components (reg g'))%nat ->
                      EventSet (components (reg g') !!! i) = None)
        \/ (retval <> PAPI_OK
            /\ life g' = life (set_state PAPIHL_DEACTIVATED g)
            /\ requested_event_names (reg g') = None
            /\ num_of_components (reg g') = 0%nat)).
Proof.
  intros Hsets Hclean Huser Hstate Hinit Hdet.
  destruct (read_events_spec env events g Hsets Hclean Huser)
    as (retval & g1 & Hrun & Hsorted & Hsto & Hok & Hko).
  unfold _internal_PAPI_hl_set_events.
  rewrite decide_True by exact Hstate.
  rewrite decide_True by (split; assumption).
  rewrite Hrun. cbn [mbind option_bind].
  destruct (decide (retval = PAPI_OK)) as [->|Hfail].
  - destruct (Hok eq_refl) as (Hlife & Hpos & Hsets1).
    unfold _internal_hl_create_global_binary_tree.
    rewrite decide_True by reflexivity. cbn [mbind option_bind].
    assert (Hstate1 : state (life (set_binary_tree (Some []) g1)) = PAPIHL_ACTIVE).
    { cbn. rewrite Hlife. cbn. exact Hstate. }
    rewrite decide_False by (rewrite Hstate1; discriminate).
    eexists _, _. split; [reflexivity|]. left.
    split_and!;
      [reflexivity|exact Hlife|cbn; rewrite Hsto; reflexivity
      |eapply registry_sorted_ext, Hsorted; reflexivity|exact Hpos|exact Hsets1].
  - destruct (Hko Hfail) as (Hlife & Hzero). cbn [mbind option_bind].
    eexists _, _. split; [reflexivity|]. right.
    unfold _internal_hl_clean_up_global_data.
    destruct (binary_tree (sto (set_state PAPIHL_DEACTIVATED g1)));
      (split_and!; [exact Hfail|cbn; rewrite Hlife; reflexivity|reflexivity
                   |exact Hzero]).
Qed.

(** X6: the first call of _internal_PAPI_hl_set_events on an initialised,
    active library with a clean registry, a specification without empty
    field (or none at all, which selects the defaults) and a library whose
    event-set calls succeed.  Either it returns PAPI_OK: then the events
    are determined, the region store is an empty tree, the registry is in
    order (sizes, number of tracked events, every event in the component
    the library names for it, ids distinct), there is at least one
    component and no global event set is left.  Or it returns an error
    code: then the library is deactivated, the events stay undetermined,
    the requested names are freed and there is no component. *)
Theorem set_events_first_call (env : papi_env) (events : option string)
    (g : globals) :
  event_sets_ok env ->
  registry_clean g ->
  (forall s, user_events env events = Some s -> no_empty_field s) ->
  state (life g) = PAPIHL_ACTIVE ->
  hl_initiated (life g) = true ->
  events_determined (life g) = false ->
  exists (retval : papi_retval) (g' : globals),
    _internal_PAPI_hl_set_events env events g = Some (retval, g')
    /\ ((retval = PAPI_OK
         /\ events_determined (life g') = true
         /\ state (life g') = PAPIHL_ACTIVE
         /\ binary_tree (sto g') = Some []
         /\ registry_wf g' /\ events_filed env g' /\ ids_distinct g'
         /\ (0 < num_of_components (reg g'))%nat
         /\ forall i, (i < num_of_components (reg g'))%nat ->
                      EventSet (components (reg g') !!! i) = None)
        \/ (retval <> PAPI_OK
            /\ events_determined (life g') = false
            /\ state (life g') = PAPIHL_DEACTIVATED
            /\ requested_event_names (reg g') = None
            /\ num_of_components (reg g') = 0%nat)).
Proof.
  intros Hsets Hclean Huser Hstate Hinit Hdet.
  destruct (set_events_first env events g Hsets Hclean Huser Hstate Hinit Hdet)
    as (retval & g' & Hrun & Hcases).
  exists retval, g'. split; [exact Hrun|].
  destruct Hcases as [(Hok & Hlife & Hsto & (Hwf & Hfiled & Hids) & Hpos & Hnone)
                     |(Hko & Hlife & Hnames & Hzero)].
  - left. rewrite Hlife, Hsto. split_and!; try assumption; try reflexivity.
  - right. rewrite Hlife. split_and!; try assumption; reflexivity.
Qed.

Lemma set_events_first_call_witness :
  exists (g' : globals),
    _internal_PAPI_hl_set_events env_ok (Some "A, BB,CCC=instant"%string) g_initiated
    = Some (PAPI_OK, g')
    /\ events_determined (life g') = true
    /\ binary_tree (sto g') = Some []
    /\ registry_wf g'.
Proof.
  assert (Hsets : event_sets_ok env_ok) by (split_and!; intros; reflexivity).
  assert (Hclean : registry_clean g_initiated) by (split_and!; cbn; lia).
  assert (Huser : forall s,
             user_events env_ok (Some "A, BB,CCC=instant"%string) = Some s ->
             no_empty_field s).
  { intros s [= <-]. split; [discriminate|vm_compute; reflexivity]. }
  pose proof (set_events_first_call env_ok (Some "A, BB,CCC=instant"%string)
                g_initiated Hsets Hclean Huser eq_refl eq_refl eq_refl) as H.
  destruct H as (retval & g' & Hrun & [H|H]).
  - destruct H as (-> & Hdet & _ & Htree & Hwf & _). exists g'.
    split_and!; assumption.
  - exfalso. destruct H as (Hfail & _). apply Hfail.
    assert (Hfst : fst <$> _internal_PAPI_hl_set_events env_ok
                             (Some "A, BB,CCC=instant"%string) g_initiated
                   = Some PAPI_OK) by (vm_compute; reflexivity).
    rewrite Hrun in Hfst. injection Hfst as <-. reflexivity.
Defined.

(** ** The region store *)

Lemma compar_zero (a b : threads_t) :
  compar a b = 0 <-> same_thread (key a) (key b).
Proof.
  unfold compar, same_thread, int_of, wrap_signed.
  change (2 ^ (32 - 1)) with 2147483648.
  change (2 ^ 32) with 4294967296.
  change (2 ^ 64) with (4294967296 * 4294967296).
  set (d := key a - key b).
  assert (Hmod : (d mod (4294967296 * 4294967296)) mod 4294967296
                 = d mod 4294967296).
  { rewrite Z.rem_mul_r by lia.
    rewrite (Z.mul_comm 4294967296 (_ mod _)), Z.mod_add by lia.
    apply Z.mod_mod. lia. }
  set (x := d mod (4294967296 * 4294967296)) in *. clearbody x.
  rewrite <- Hmod.
  pose proof (Z.mod_pos_bound x 4294967296 ltac:(lia)) as Hx.
  pose proof (Z.mod_pos_bound (x + 2147483648) 4294967296 ltac:(lia)) as Hy.
  pose proof (Z.div_mod x 4294967296 ltac:(lia)) as Hdx.
  pose proof (Z.div_mod (x + 2147483648) 4294967296 ltac:(lia)) as Hdy.
  split; intros H; lia.
Qed.

Lemma same_thread_refl (a : Z) : same_thread a a.
Proof. unfold same_thread. rewrite Z.sub_diag. reflexivity. Qed.

Lemma same_thread_sym (a b : Z) : same_thread a b -> same_thread b a.
Proof.
  unfold same_thread. intros H.
  replace (b - a) with (- (a - b)) by lia.
  apply Z.mod_opp_l_z; [lia|exact H].
Qed.

Lemma same_thread_trans (a b c : Z) :
  same_thread a b -> same_thread b c -> same_thread a c.
Proof.
  unfold same_thread. intros H1 H2.
  replace (a - c) with ((a - b) + (b - c)) by lia.
  rewrite Z.add_mod, H1, H2 by lia. reflexivity.
Qed.


Lemma find_thread_node_Some (root : list threads_t) (tid : Z) (i : nat)
    (t : threads_t) :
  _internal_hl_find_thread_node root tid = Some (i, t) ->
  root !! i = Some t /\ same_thread tid (key t).
Proof.
  unfold _internal_hl_find_thread_node, tfind. intros H.
  apply list_find_Some in H as (Hi & Hc & _). split; [exact Hi|].
  apply compar_zero in Hc. exact Hc.
Qed.


(** Thread ids that [compar] cannot tell apart find the same node. *)
Lemma find_thread_node_same (root : list threads_t) (tid tid' : Z) :
  same_thread tid tid' ->
  _internal_hl_find_thread_node root tid
  = _internal_hl_find_thread_node root tid'.
Proof.
  intros Hsame. unfold _internal_hl_find_thread_node, tfind.
  apply list_find_ext. intros t. rewrite !compar_zero. cbn. split; intros H.
  - eapply same_thread_trans; [apply same_thread_sym, Hsame|exact H].
  - eapply same_thread_trans; [exact Hsame|exact H].
Qed.

(** The five outcomes of [_internal_hl_store_counters], by what they do to
    the tree. *)
Lemma store_counters_cases (env : papi_env) (tid : Z) (name : string)
    (reg_typ : region_type) (g : globals) (l : locals) (root : list threads_t) :
  binary_tree (sto g) = Some root ->
  exists retval g' root',
    _internal_hl_store_counters env tid name reg_typ g l = Some (retval, g')
    /\ reg g' = reg g /\ life g' = life g
    /\ binary_tree (sto g') = Some root'
    /\ ((retval <> PAPI_OK \/ reg_typ = REGION_READ) /\ reg_typ <> REGION_BEGIN
        /\ lookup_region root tid name = None /\ root' = root
        \/ retval = PAPI_OK
           /\ ((exists it ir thr node,
                  _internal_hl_find_thread_node root tid = Some (it, thr)
                  /\ _internal_hl_find_region_node (value thr) name = Some (ir, node)
                  /\ root' = <[it := mk_thread (key thr)
                                       (<[ir := stored g l reg_typ node]> (value thr))]>
                               root)
               \/ (exists it thr,
                     reg_typ = REGION_BEGIN
                     /\ _internal_hl_find_thread_node root tid = Some (it, thr)
                     /\ _internal_hl_find_region_node (value thr) name = None
                     /\ root' = <[it := mk_thread (key thr)
                                          (stored g l REGION_BEGIN
                                             (fresh_region_node
                                                (total_num_events (reg g)) name)
                                           :: value thr)]> root)
               \/ (reg_typ = REGION_BEGIN
                   /\ _internal_hl_find_thread_node root tid = None
                   /\ root' = mk_thread tid
                                [stored g l REGION_BEGIN
                                   (fresh_region_node (total_num_events (reg g)) name)]
                              :: root))).
Proof.
  intros Htree.
  destruct (_internal_hl_find_thread_node root tid) as [[it thr]|] eqn:Hthr.
  - destruct (_internal_hl_find_region_node (value thr) name) as [[ir node]|] eqn:Hreg.
    + rewrite (store_counters_existing env tid name g l root Htree reg_typ it ir thr
                 node Hthr Hreg).
      eexists _, _, _. split; [reflexivity|].
      rewrite count_region_call_reg, count_region_call_life, count_region_call_tree.
      split_and!; try reflexivity. right. split; [reflexivity|]. left.
      exists it, ir, thr, node. split_and!; first [reflexivity|assumption].
    + destruct (decide (reg_typ = REGION_BEGIN)) as [->|Hne].
      * rewrite (store_counters_new_region env tid name g l root Htree it thr Hthr Hreg).
        eexists _, _, _. split; [reflexivity|].
        rewrite count_region_call_reg, count_region_call_life, count_region_call_tree.
        split_and!; try reflexivity. right. split; [reflexivity|]. right. left.
        exists it, thr. split_and!; first [reflexivity|assumption].
      * rewrite (store_counters_no_region env tid name g l root Htree reg_typ it thr
                   Hne Hthr Hreg).
        assert (Hnone : lookup_region root tid name = None).
        { unfold lookup_region. rewrite Hthr. cbn. rewrite Hreg. reflexivity. }
        destruct (decide (reg_typ = REGION_READ)) as [->|Hne'].
        -- pose proof (verbose_fprintf_frame
                         (Warn_no_matching_read name (PAPI_thread_id env)) g)
             as (Hr & Hs & Hl & _).
           eexists _, _, _. split; [reflexivity|]. rewrite Hr, Hs, Hl.
           split_and!; try reflexivity; [exact Htree|]. left.
           split_and!; [right; reflexivity|discriminate|exact Hnone|reflexivity].
        -- pose proof (verbose_fprintf_frame
                         (Warn_no_matching_end name (PAPI_thread_id env)) g)
             as (Hr & Hs & Hl & _).
           eexists _, _, _. split; [reflexivity|]. rewrite Hr, Hs, Hl.
           split_and!; try reflexivity; [exact Htree|]. left.
           split_and!; [left; discriminate|exact Hne|exact Hnone|reflexivity].
  - destruct (decide (reg_typ = REGION_BEGIN)) as [->|Hne].
    + rewrite (store_counters_new_thread env tid name g l root Htree Hthr).
      eexists _, _, _. split; [reflexivity|].
      rewrite count_region_call_reg, count_region_call_life, count_region_call_tree.
      split_and!; try reflexivity. right. split; [reflexivity|]. right. right.
      split_and!; reflexivity.
    + rewrite (store_counters_no_thread env tid name g l root Htree reg_typ Hne Hthr).
      eexists _, _, _. split; [reflexivity|].
      split_and!; try reflexivity; [exact Htree|]. left.
      split_and!; [left; discriminate|exact Hne| |reflexivity].
      unfold lookup_region. rewrite Hthr. reflexivity.
Qed.

(** *** The store stays well formed *)




Lemma region_wf_stored (g : globals) (l : locals) (reg_typ : region_type)
    (n : nat) (node : regions_t) :
  region_wf n node -> region_wf n (stored g l reg_typ node).
Proof.
  unfold region_wf, stored. rewrite add_values_length. tauto.
Qed.

Lemma region_wf_fresh (n : nat) (name : string) :
  region_wf n (fresh_region_node n name).
Proof. unfold region_wf. cbn. apply length_replicate. Qed.





(** *** A call works on one region of one thread *)

Lemma lookup_region_unfold (root : list threads_t) (tid : Z) (name : string) :
  lookup_region root tid name
  = match _internal_hl_find_thread_node root tid with
    | Some (_, thr) => snd <$> _internal_hl_find_region_node (value thr) name
    | None => None
    end.
Proof.
  unfold lookup_region.
  destruct (_internal_hl_find_thread_node root tid) as [[it thr]|]; [|reflexivity].
  cbn. destruct (_internal_hl_find_region_node (value thr) name) as [[ir node]|];
    reflexivity.
Qed.





Lemma lookup_region_same (root : list threads_t) (tid tid' : Z) (name : string) :
  same_thread tid tid' ->
  lookup_region root tid name = lookup_region root tid' name.
Proof.
  intros Hsame. rewrite !lookup_region_unfold.
  rewrite (find_thread_node_same root tid tid' Hsame). reflexivity.
Qed.



(** X9: compar subtracts the two unsigned long keys and converts the
    difference to int, so it finds two thread ids equal exactly when they
    agree modulo 2^32.  Such ids share one thread node: they look up the
    same regions, and a call by one of them is booked exactly as a call by
    the other, unless it is the begin call that creates the thread node
    (whose key is the id of the caller). *)
Theorem thread_ids_alias (env : papi_env) (tid tid' : Z) (name : string)
    (reg_typ : region_type) (g : globals) (l : locals) (root : list threads_t) :
  (compar (mk_thread tid []) (mk_thread tid' []) = 0
   <-> (tid - tid') mod 2 ^ 32 = 0)
  /\ ((tid - tid') mod 2 ^ 32 = 0 ->
      _internal_hl_find_thread_node root tid
      = _internal_hl_find_thread_node root tid'
      /\ lookup_region root tid name = lookup_region root tid' name
      /\ (binary_tree (sto g) = Some root ->
          is_Some (_internal_hl_find_thread_node root tid)
          \/ reg_typ <> REGION_BEGIN ->
          _internal_hl_store_counters env tid name reg_typ g l
          = _internal_hl_store_counters env tid' name reg_typ g l)).
Proof.
  split; [apply compar_zero|].
  intros Hsame. fold (same_thread tid tid') in Hsame.
  split; [apply find_thread_node_same, Hsame|].
  split; [apply lookup_region_same, Hsame|].
  intros Htree Hold.
  pose proof (find_thread_node_same root tid tid' Hsame) as Hfind.
  destruct (_internal_hl_find_thread_node root tid') as [[it thr]|] eqn:Hthr.
  - destruct (_internal_hl_find_region_node (value thr) name) as [[ir node]|] eqn:Hnode.
    + rewrite (store_counters_existing env tid name g l root Htree reg_typ it ir thr
                 node Hfind Hnode).
      rewrite (store_counters_existing env tid' name g l root Htree reg_typ it ir thr
                 node Hthr Hnode).
      reflexivity.
    + destruct (decide (reg_typ = REGION_BEGIN)) as [->|Hne].
      * rewrite (store_counters_new_region env tid name g l root Htree it thr Hfind
                   Hnode).
        rewrite (store_counters_new_region env tid' name g l root Htree it thr Hthr
                   Hnode).
        reflexivity.
      * rewrite (store_counters_no_region env tid name g l root Htree reg_typ it thr
                   Hne Hfind Hnode).
        rewrite (store_counters_no_region env tid' name g l root Htree reg_typ it thr
                   Hne Hthr Hnode).
        reflexivity.
  - destruct Hold as [[x Hx]|Hne]; [congruence|].
    rewrite (store_counters_no_thread env tid name g l root Htree reg_typ Hne Hfind).
    rewrite (store_counters_no_thread env tid' name g l root Htree reg_typ Hne Hthr).
    reflexivity.
Qed.

Lemma thread_ids_alias_witness :
  lookup_region
    [mk_thread 7 [mk_region "A" [mk_value 1 2 []; mk_value 200 50 [3]]]]
    (7 + 2 ^ 32) "A"
  = Some (mk_region "A" [mk_value 1 2 []; mk_value 200 50 [3]]).
Proof.
  destruct (thread_ids_alias env_ok (7 + 2 ^ 32) 7 "A" REGION_READ g_one_region
              (l_reading 0 0 0)
              [mk_thread 7 [mk_region "A" [mk_value 1 2 []; mk_value 200 50 [3]]]])
    as (_ & H).
  destruct H as (_ & Hlookup & _); [reflexivity|].
  rewrite Hlookup. reflexivity.
Defined.

(** ** The life cycle *)

(** [_internal_hl_clean_up_local_data] counts a thread that has local event
    sets, once. *)
Lemma clean_up_local_data_counts (env : papi_env) (g : globals) (l : locals) :
  forall g' l',
    _internal_hl_clean_up_local_data env g l = (g', l') ->
    _local_components l' = None
    /\ _local_state l' = PAPIHL_DEACTIVATED
    /\ _local_region_begin_cnt l' = _local_region_begin_cnt l
    /\ _local_region_end_cnt l' = _local_region_end_cnt l
    /\ num_of_cleaned_threads (life g')
       = match _local_components l with
         | Some _ => int_of (num_of_cleaned_threads (life g) + 1)
         | None => num_of_cleaned_threads (life g)
         end
    /\ master_thread_id (life g') = master_thread_id (life g)
    /\ hl_finalized (life g') = hl_finalized (life g).
Proof.
  intros g' l'. unfold _internal_hl_clean_up_local_data.
  destruct (_local_components l) as [lcs|] eqn:Hlcs.
  - pose proof (clean_up_local_components_same env lcs
                  (seq 0 (num_of_components (reg g))) g) as (_ & _ & Hlife & _).
    intros [= <- <-]. cbn. rewrite Hlife. split_and!; reflexivity.
  - intros [= <- <-]. cbn. split_and!; try reflexivity. exact Hlcs.
Qed.

(** X10: _internal_PAPI_hl_cleanup_thread on an active, initiated library by
    a thread whose local state is active returns PAPI_OK.  Called by the
    master thread it changes nothing at all.  Called by another thread it
    releases the local event sets, deactivates the local state and counts
    the thread among the cleaned ones if and only if it had event sets;
    registry and store are untouched, and a second call by that thread
    returns PAPI_EMISC and changes nothing, so no thread is counted
    twice. *)
Theorem cleanup_thread_once (env : papi_env) (g : globals) (l : locals) :
  state (life g) = PAPIHL_ACTIVE ->
  hl_initiated (life g) = true ->
  _local_state l = PAPIHL_ACTIVE ->
  exists g1 l1,
    _internal_PAPI_hl_cleanup_thread env g l = (PAPI_OK, g1, l1)
    /\ (master_thread_id (life g) = PAPI_thread_id env -> g1 = g /\ l1 = l)
    /\ (master_thread_id (life g) <> PAPI_thread_id env ->
        _local_components l1 = None
        /\ _local_state l1 = PAPIHL_DEACTIVATED
        /\ num_of_cleaned_threads (life g1)
           = match _local_components l with
             | Some _ => int_of (num_of_cleaned_threads (life g) + 1)
             | None => num_of_cleaned_threads (life g)
             end
        /\ reg g1 = reg g /\ sto g1 = sto g
        /\ _internal_PAPI_hl_cleanup_thread env g1 l1 = (PAPI_EMISC, g1, l1)).
Proof.
  intros Hstate Hinit Hlocal. unfold _internal_PAPI_hl_cleanup_thread at 1.
  rewrite decide_True by (split_and!; assumption).
  destruct (decide (master_thread_id (life g) = PAPI_thread_id env)) as [Hm|Hm].
  - exists g, l. split; [reflexivity|]. split; [auto|contradiction].
  - destruct (_internal_hl_clean_up_local_data env g l) as [g1 l1] eqn:Hrun.
    exists g1, l1. split; [reflexivity|]. split; [contradiction|]. intros _.
    pose proof (clean_up_local_data_spec env g l) as Hspec.
    rewrite Hrun in Hspec. cbn [fst snd] in Hspec.
    destruct Hspec as (_ & Hreg & Hsto & _).
    destruct (clean_up_local_data_counts env g l g1 l1 Hrun)
      as (Hnone & Hdeact & _ & _ & Hcount & _).
    split_and!; try assumption.
    unfold _internal_PAPI_hl_cleanup_thread.
    rewrite decide_False; [reflexivity|].
    intros (_ & _ & Hact). rewrite Hdeact in Hact. discriminate Hact.
Qed.

Lemma cleanup_thread_once_witness :
  exists g1 l1,
    _internal_PAPI_hl_cleanup_thread env_ok
      (set_life (mk_lifecycle true false true false 1 true 3 0) g_two_events)
      (l_reading 0 0 0)
    = (PAPI_OK, g1, l1)
    /\ num_of_cleaned_threads (life g1) = 1
    /\ _internal_PAPI_hl_cleanup_thread env_ok g1 l1 = (PAPI_EMISC, g1, l1).
Proof.
  destruct (cleanup_thread_once env_ok
              (set_life (mk_lifecycle true false true false 1 true 3 0) g_two_events)
              (l_reading 0 0 0) eq_refl eq_refl eq_refl)
    as (g1 & l1 & Hrun & _ & Hother).
  destruct Hother as (_ & _ & Hcount & _ & _ & Hagain); [discriminate|].
  exists g1, l1. split_and!; [exact Hrun|exact Hcount|exact Hagain].
Defined.

(** [_internal_hl_clean_up_all(true)] while the library is active. *)
Lemma clean_up_all_active (env : papi_env) (g : globals) (l : locals) :
  state (life g) = PAPIHL_ACTIVE ->
  forall g' l',
    _internal_hl_clean_up_all env true g l = (g', l') ->
    state (life g') = PAPIHL_DEACTIVATED
    /\ _local_state l' = PAPIHL_DEACTIVATED
    /\ output_generated (life g') = true
    /\ hl_initiated (life g') = hl_initiated (life g)
    /\ events_determined (life g') = events_determined (life g)
    /\ requested_event_names (reg g') = None
    /\ binary_tree (sto g') = (fun _ => []) <$> binary_tree (sto g)
    /\ region_begin_cnt (sto g') = region_begin_cnt (sto g)
    /\ region_end_cnt (sto g') = region_end_cnt (sto g)
    /\ output_files (eff g') = output_files (eff g).
Proof.
  intros Hstate g' l'. unfold _internal_hl_clean_up_all.
  set (g0 := set_output_generated true g).
  assert (Hl : exists g1 l1,
             (if decide (_local_state l = PAPIHL_ACTIVE)
              then _internal_hl_clean_up_local_data env g0 l else (g0, l))
             = (g1, l1)
             /\ _local_state l1 = PAPIHL_DEACTIVATED
             /\ reg g1 = reg g /\ sto g1 = sto g
             /\ state (life g1) = PAPIHL_ACTIVE
             /\ hl_initiated (life g1) = hl_initiated (life g)
             /\ events_determined (life g1) = events_determined (life g)
             /\ output_generated (life g1) = true
             /\ output_files (eff g1) = output_files (eff g)).
  { destruct (decide (_local_state l = PAPIHL_ACTIVE)) as [Ha|Ha].
    - pose proof (clean_up_local_data_spec env g0 l)
        as (H1 & H2 & H3 & H4 & H5 & H6 & H7 & _ & H9 & _).
      destruct (_internal_hl_clean_up_local_data env g0 l) as [g1 l1].
      exists g1, l1. cbn [fst snd] in *.
      split_and!; try assumption; try reflexivity. rewrite H4. exact Hstate.
    - exists g0, l. split_and!; try reflexivity; try assumption.
      unfold PAPIHL_ACTIVE, PAPIHL_DEACTIVATED in *.
      destruct (_local_state l); congruence. }
  destruct Hl as (g1 & l1 & -> & Hl1 & Hreg1 & Hsto1 & Hstate1 & Hinit1 & Hdet1
                  & Hout1 & Hfiles1).
  rewrite decide_True by exact Hstate1.
  set (g2 := verbose_fprintf Info_output_deactivated g1).
  pose proof (verbose_fprintf_frame Info_output_deactivated g1)
    as (Hreg2 & Hsto2 & Hlife2 & Hfiles2 & _).
  fold g2 in Hreg2, Hsto2, Hlife2, Hfiles2. clearbody g2.
  set (g3 := _internal_hl_clean_up_global_data g2).
  assert (H3 : requested_event_names (reg g3) = None
               /\ binary_tree (sto g3) = (fun _ => []) <$> binary_tree (sto g2)
               /\ region_begin_cnt (sto g3) = region_begin_cnt (sto g2)
               /\ region_end_cnt (sto g3) = region_end_cnt (sto g2)
               /\ life g3 = life g2
               /\ output_files (eff g3) = output_files (eff g2)).
  { unfold g3, _internal_hl_clean_up_global_data.
    destruct (binary_tree (sto g2)) eqn:E; cbn; rewrite ?E; split_and!; reflexivity. }
  clearbody g3. destruct H3 as (Hnames3 & Htree3 & Hb3 & He3 & Hlife3 & Hfiles3).
  match goal with
  | |- context [decide ?P] => destruct (decide P)
  end.
  - intros [= <- <-]. cbn.
    rewrite Hnames3, Htree3, Hb3, He3, Hlife3, Hfiles3, Hsto2, Hlife2, Hfiles2,
      Hsto1, Hinit1, Hdet1, Hout1, Hfiles1.
    split_and!; reflexivity || assumption.
  - pose proof (verbose_fprintf_frame Warn_no_shutdown g3)
      as (Hreg4 & Hsto4 & Hlife4 & Hfiles4 & _).
    intros [= <- <-]. cbn.
    rewrite Hreg4, Hsto4, Hlife4, Hfiles4.
    rewrite Hnames3, Htree3, Hb3, He3, Hlife3, Hfiles3, Hsto2, Hlife2, Hfiles2,
      Hsto1, Hinit1, Hdet1, Hout1, Hfiles1.
    split_and!; reflexivity || assumption.
Qed.

(** Every entry point on a deactivated library, for a thread whose local
    state is deactivated too. *)
Lemma deactivated_calls (env : papi_env) (g : globals) (l : locals) :
  state (life g) = PAPIHL_DEACTIVATED ->
  _local_state l = PAPIHL_DEACTIVATED ->
  _internal_PAPI_hl_finalize env g l = (PAPI_EMISC, g, l)
  /\ _internal_PAPI_hl_cleanup_thread env g l = (PAPI_EMISC, g, l)
  /\ _internal_PAPI_hl_print_output env g = Some g
  /\ (forall events, _internal_PAPI_hl_set_events env events g = Some (PAPI_EMISC, g))
  /\ (forall name, PAPI_hl_read env name g l = Some (PAPI_EMISC, g, l))
  /\ (forall name, PAPI_hl_region_end env name g l = Some (PAPI_EMISC, g, l)).
Proof.
  intros Hstate Hlocal.
  assert (Hna : state (life g) <> PAPIHL_ACTIVE) by (rewrite Hstate; discriminate).
  assert (Hnl : _local_state l <> PAPIHL_ACTIVE) by (rewrite Hlocal; discriminate).
  split_and!.
  - unfold _internal_PAPI_hl_finalize. rewrite decide_False by tauto. reflexivity.
  - unfold _internal_PAPI_hl_cleanup_thread. rewrite decide_False by tauto. reflexivity.
  - unfold _internal_PAPI_hl_print_output. rewrite decide_False by tauto. reflexivity.
  - intros events. unfold _internal_PAPI_hl_set_events.
    rewrite decide_False by exact Hna. reflexivity.
  - intros name. unfold PAPI_hl_read, deactivated_entry.
    rewrite decide_True by exact Hstate. rewrite decide_False by exact Hnl. reflexivity.
  - intros name. unfold PAPI_hl_region_end, deactivated_entry.
    rewrite decide_True by exact Hstate. rewrite decide_False by exact Hnl. reflexivity.
Qed.

(** X11: _internal_PAPI_hl_finalize on an active, initiated library returns
    PAPI_OK and shuts the library down for good: both states become
    deactivated, the tree (if allocated) is emptied and the requested names
    are freed.  It marks the output as generated without writing a report:
    the output files are as they were.  From then on finalize,
    cleanup_thread, set_events, PAPI_hl_read and PAPI_hl_region_end return
    PAPI_EMISC and, like print_output, change nothing. *)
Theorem finalize_shuts_down (env : papi_env) (g : globals) (l : locals) :
  state (life g) = PAPIHL_ACTIVE ->
  hl_initiated (life g) = true ->
  exists g1 l1,
    _internal_PAPI_hl_finalize env g l = (PAPI_OK, g1, l1)
    /\ state (life g1) = PAPIHL_DEACTIVATED
    /\ _local_state l1 = PAPIHL_DEACTIVATED
    /\ output_generated (life g1) = true
    /\ output_files (eff g1) = output_files (eff g)
    /\ binary_tree (sto g1) = (fun _ => []) <$> binary_tree (sto g)
    /\ requested_event_names (reg g1) = None
    /\ _internal_PAPI_hl_finalize env g1 l1 = (PAPI_EMISC, g1, l1)
    /\ _internal_PAPI_hl_cleanup_thread env g1 l1 = (PAPI_EMISC, g1, l1)
    /\ _internal_PAPI_hl_print_output env g1 = Some g1
    /\ (forall events,
          _internal_PAPI_hl_set_events env events g1 = Some (PAPI_EMISC, g1))
    /\ (forall name, PAPI_hl_read env name g1 l1 = Some (PAPI_EMISC, g1, l1))
    /\ (forall name, PAPI_hl_region_end env name g1 l1 = Some (PAPI_EMISC, g1, l1)).
Proof.
  intros Hstate Hinit. unfold _internal_PAPI_hl_finalize at 1.
  rewrite decide_True by (split; assumption).
  destruct (_internal_hl_clean_up_all env true g l) as [g1 l1] eqn:Hrun.
  destruct (clean_up_all_active env g l Hstate g1 l1 Hrun)
    as (Hstate1 & Hlocal1 & Hout & _ & _ & Hnames & Htree & _ & _ & Hfiles).
  exists g1, l1. split; [reflexivity|].
  split_and!; try assumption; apply (deactivated_calls env g1 l1 Hstate1 Hlocal1).
Qed.

Lemma finalize_shuts_down_witness :
  exists g1 l1,
    _internal_PAPI_hl_finalize env_ok g_one_region (l_reading 0 0 0)
    = (PAPI_OK, g1, l1)
    /\ binary_tree (sto g1) = Some []
    /\ output_files (eff g1) = []
    /\ PAPI_hl_region_end env_ok "A" g1 l1 = Some (PAPI_EMISC, g1, l1).
Proof.
  destruct (finalize_shuts_down env_ok g_one_region (l_reading 0 0 0) eq_refl eq_refl)
    as (g1 & l1 & Hrun & _ & _ & _ & Hfiles & Htree & _ & _ & _ & _ & _ & _ & Hend).
  exists g1, l1. split_and!; [exact Hrun|exact Htree|exact Hfiles|apply Hend].
Defined.

(** ** Writing the report *)

(** The writer has something to print for every thread node that has a
    region. *)
Lemma json_thread_some (comps : list components_t) (ncomps total : nat)
    (beautifier : bool) (root : list threads_t) (tids : list Z) :
  Forall (fun t => value t <> []) root ->
  exists threads : list (list string),
    mapM (json_thread comps ncomps total beautifier root tids)
      (seq 0 (length tids))
    = Some threads.
Proof.
  intros Hroot.
  assert (Hall : is_Some (mapM (json_thread comps ncomps total beautifier root tids)
                            (seq 0 (length tids)))).
  { apply mapM_is_Some. apply Forall_forall. intros i _. unfold compose, json_thread.
    destruct (_internal_hl_find_thread_node root (tids !!! i)) as [[it thr]|] eqn:Hthr;
      [|eexists; reflexivity].
    apply find_thread_node_Some in Hthr as (Hit & _).
    rewrite Forall_lookup in Hroot. specialize (Hroot it thr Hit).
    unfold _internal_hl_json_regions.
    destruct (value thr) as [|head nexts]; [contradiction|].
    destruct (goto_last [] head nexts). cbn. eexists. reflexivity. }
  destruct Hall as (threads & Hall). exists threads. exact Hall.
Qed.

Lemma json_threads_some (comps : list components_t) (ncomps total : nat)
    (beautifier : bool) (root : list threads_t) (tids : list Z) :
  Forall (fun t => value t <> []) root ->
  is_Some (_internal_hl_json_threads comps ncomps total beautifier root tids).
Proof.
  intros Hroot.
  destruct (json_thread_some comps ncomps total beautifier root tids Hroot)
    as (threads & Hall).
  unfold _internal_hl_json_threads. unfold FILE in *. rewrite Hall. cbn.
  eexists. reflexivity.
Qed.

(** X12: _internal_PAPI_hl_print_output on an active, initiated library
    whose begin and end counts match, whose thread nodes all have a region
    and for which the directory, the file and the thread list can be had:
    it writes exactly one report file, which opens with the brace and the
    clock rate, holds what _internal_hl_json_threads prints for the listed
    threads and closes with the brace and a line feed; it marks the output
    as generated and leaves registry, store and state alone.  Any further
    call writes nothing. *)
Theorem print_output_writes_once (env : papi_env) (g : globals)
    (root : list threads_t) (tids : list Z) :
  state (life g) = PAPIHL_ACTIVE ->
  hl_initiated (life g) = true ->
  output_generated (life g) = false ->
  binary_tree (sto g) = Some root ->
  region_begin_cnt (sto g) = region_end_cnt (sto g) ->
  Forall (fun t => value t <> []) root ->
  mkdir_output_directory env = PAPI_OK ->
  fopen_succeeds env = true ->
  PAPI_list_threads env = (PAPI_OK, tids) ->
  exists threads g',
    _internal_hl_json_threads (components (reg g)) (num_of_components (reg g))
      (total_num_events (reg g)) true root tids = Some threads
    /\ _internal_PAPI_hl_print_output env g = Some g'
    /\ output_files (eff g')
       = output_files (eff g)
         ++ [["{"%string; nl; "  "%string;
              dq +:+ "cpu in mhz" +:+ dq +:+ ":" +:+ dq
              +:+ pretty (PAPI_get_opt_clockrate env) +:+ dq +:+ ","]
             ++ threads ++ [nl; "}"%string; nl]]
    /\ output_generated (life g') = true
    /\ state (life g') = state (life g)
    /\ reg g' = reg g /\ sto g' = sto g
    /\ forall env2, _internal_PAPI_hl_print_output env2 g' = Some g'.
Proof.
  intros Hact Hinit Hgen Htree Hcnt Hroot Hmkdir Hfopen Hlist.
  destruct (json_threads_some (components (reg g)) (num_of_components (reg g))
              (total_num_events (reg g)) true root tids Hroot) as (threads & Hthreads).
  exists threads.
  unfold _internal_PAPI_hl_print_output, _internal_hl_write_output.
  rewrite decide_True by auto. rewrite decide_True by exact Hgen.
  rewrite Htree. rewrite decide_True by exact Hcnt.
  rewrite decide_True by exact Hmkdir. rewrite Hfopen, Hlist.
  rewrite decide_True by reflexivity.
  pose proof (verbose_fprintf_frame Info_print_results g)
    as (Hreg & Hsto & Hlife & Hfiles & _).
  rewrite Hreg, Hthreads. cbn [mbind option_bind].
  set (g1 := verbose_fprintf Info_print_results g) in *. clearbody g1.
  match goal with
  | |- context [set_output_generated true ?gx] => set (g2 := gx)
  end.
  assert (H2 : reg g2 = reg g /\ sto g2 = sto g /\ life g2 = life g
               /\ output_files (eff g2)
                  = output_files (eff g)
                    ++ [["{"%string; nl; "  "%string;
                         dq +:+ "cpu in mhz" +:+ dq +:+ ":" +:+ dq
                         +:+ pretty (PAPI_get_opt_clockrate env) +:+ dq +:+ ","]
                        ++ threads ++ [nl; "}"%string; nl]]).
  { unfold g2. destruct (getenv env "PAPI_REPORT"); cbn;
      rewrite Hreg, Hsto, Hlife, Hfiles; split_and!; reflexivity. }
  clearbody g2. destruct H2 as (Hreg2 & Hsto2 & Hlife2 & Hfiles2).
  exists (set_output_generated true g2).
  split; [reflexivity|]. split; [reflexivity|].
  split_and!.
  - exact Hfiles2.
  - reflexivity.
  - cbn. rewrite Hlife2. reflexivity.
  - exact Hreg2.
  - exact Hsto2.
  - intros env2. unfold _internal_PAPI_hl_print_output.
    rewrite decide_False; [reflexivity|]. intros (_ & _ & H). discriminate H.
Qed.

Lemma print_output_writes_once_witness :
  exists file g',
    _internal_PAPI_hl_print_output env_ok g_one_region = Some g'
    /\ output_files (eff g') = [file]
    /\ output_generated (life g') = true.
Proof.
  assert (Hroot : Forall (fun t => value t <> [])
                    [mk_thread 7
                       [mk_region "A"
                          [mk_value 1 2 []; mk_value 200 50 [3]; mk_value 20 7 [1];
                           mk_value 6 12 [9]]]])
    by (constructor; [discriminate|constructor]).
  destruct (print_output_writes_once env_ok g_one_region _ [7] eq_refl eq_refl
              eq_refl eq_refl eq_refl Hroot eq_refl eq_refl eq_refl)
    as (threads & g' & _ & Hrun & Hfiles & Hgen & _).
  eexists _, g'. split_and!; [exact Hrun|exact Hfiles|exact Hgen].
Defined.



(** X14: in the threads array of the report, the object of a thread is
    closed by a brace and a comma whenever the thread is not the last one
    of the list that PAPI_list_threads returned, whether or not another
    object follows.  So when the listed threads after it have no node in
    the store, the last object of the array is followed by a comma and
    then by the closing bracket. *)
Theorem json_threads_separator (comps : list components_t) (ncomps total : nat)
    (beautifier : bool) (root : list threads_t) (tids : list Z)
    (i it : nat) (thr : threads_t) :
  Forall (fun t => value t <> []) root ->
  (i < length tids)%nat ->
  _internal_hl_find_thread_node root (tids !!! i) = Some (it, thr) ->
  (forall j, (i < j < length tids)%nat ->
             _internal_hl_find_thread_node root (tids !!! j) = None) ->
  exists pre,
    _internal_hl_json_threads comps ncomps total beautifier root tids
    = Some (pre
            ++ [if decide (i = length tids - 1)%nat then "}"%string else "},"%string]
            ++ lb beautifier 1 ++ ["]"%string]).
Proof.
  intros Hroot Hi Hthr Hlater.
  destruct (json_thread_some comps ncomps total beautifier root tids Hroot)
    as (threads & Hmap).
  unfold _internal_hl_json_threads. unfold FILE in *. rewrite Hmap.
  cbn [mbind option_bind].
  apply mapM_Some in Hmap.
  replace (length tids) with (i + (1 + (length tids - S i)))%nat in Hmap at 1 by lia.
  rewrite !seq_app in Hmap. cbn [seq Nat.add] in Hmap.
  apply Forall2_app_inv_l in Hmap as (t1 & rest & _ & Hrest & ->).
  apply Forall2_app_inv_l in Hrest as (ti & t2 & Hti & Ht2 & ->).
  apply Forall2_cons_inv_l in Hti as (ti0 & nil0 & Hti & Hnil & ->).
  apply Forall2_nil_inv_l in Hnil as ->.
  assert (Hconcat2 : concat t2 = []).
  { assert (Hall : Forall (fun t => t = []) t2).
    { apply Forall2_Forall_r with (1 := Ht2). apply Forall_forall.
      intros j Hj y. apply elem_of_seq in Hj. unfold json_thread.
      rewrite Hlater by lia. intros [= <-]. reflexivity. }
    clear Ht2. induction Hall as [|x xs -> _ IH]; [reflexivity|exact IH]. }
  rewrite !concat_app, Hconcat2, app_nil_r. cbn [concat]. rewrite app_nil_r.
  unfold json_thread in Hti. rewrite Hthr in Hti.
  destruct (_internal_hl_json_regions comps ncomps total beautifier thr)
    as [regions|]; cbn [mbind option_bind] in Hti; [|discriminate].
  injection Hti as <-.
  exists (lb beautifier 1 ++ [dq +:+ "threads" +:+ dq +:+ ":["]
          ++ concat t1
          ++ lb beautifier 2 ++ ["{"%string]
          ++ lb beautifier 3
          ++ [dq +:+ "id" +:+ dq +:+ ":" +:+ dq +:+ pretty (key thr) +:+ dq +:+ ","]
          ++ lb beautifier 3 ++ [dq +:+ "regions" +:+ dq +:+ ":["]
          ++ regions ++ lb beautifier 3 ++ ["]"%string] ++ lb beautifier 2).
  assert (Hsep : (if decide (Z.of_nat i < Z.of_nat (length tids) - 1)
                  then ["},"%string] else ["}"%string])
                 = [if decide (i = length tids - 1)%nat
                    then "}"%string else "},"%string]).
  { destruct (decide (Z.of_nat i < Z.of_nat (length tids) - 1));
      [rewrite decide_False by lia|rewrite decide_True by lia]; reflexivity. }
  rewrite Hsep. f_equal.
  generalize (lb beautifier 1) (lb beautifier 2) (lb beautifier 3) (concat t1).
  intros l1 l2 l3 c1.
  repeat (first [rewrite <- app_assoc | progress cbn [app]]). reflexivity.
Qed.

Lemma json_threads_separator_witness :
  exists pre,
    _internal_hl_json_threads [] 0 0 true
      [mk_thread 7 [mk_region "A" [mk_value 1 2 []; mk_value 200 50 []]]] [7; 8]
    = Some (pre ++ ["},"%string; nl; "  "%string; "]"%string]).
Proof.
  assert (Hroot : Forall (fun t => value t <> [])
                    [mk_thread 7 [mk_region "A" [mk_value 1 2 []; mk_value 200 50 []]]])
    by (constructor; [discriminate|constructor]).
  destruct (json_threads_separator [] 0 0 true _ [7; 8] 0 0
              (mk_thread 7 [mk_region "A" [mk_value 1 2 []; mk_value 200 50 []]])
              Hroot) as (pre & Hpre).
  - cbn. lia.
  - reflexivity.
  - intros j Hj. cbn in Hj. assert (j = 1%nat) as -> by lia. reflexivity.
  - exists pre. exact Hpre.
Defined.

(** * Entering a region *)

Section RegionBeginFacts.

Variable env : papi_env.
Variable PAPI_start : eventset -> papi_retval.
Variable init : globals -> globals.

Lemma add_local_events_ok (codes : list Z) :
  (forall set code, PAPI_add_event env set code = PAPI_OK) ->
  forall set,
    add_local_events env codes set
    = (option_map (fun cs => cs ++ codes) set, None).
Proof.
  intros Hadd. induction codes as [|code codes IH]; intros set; cbn.
  - destruct set; cbn; rewrite ?app_nil_r; reflexivity.
  - rewrite decide_True by apply Hadd. rewrite IH.
    destruct set; cbn; rewrite <- ?app_assoc; reflexivity.
Qed.

Lemma create_event_set_ok (c : components_t) (g : globals) :
  PAPI_create_eventset env = PAPI_OK ->
  (forall set code, PAPI_add_event env set code = PAPI_OK) ->
  exists g',
    create_event_set env c g
    = (mk_local_component (Some (take (num_of_events c) (event_codes c)))
         (replicate (num_of_events c) 0), g', None)
    /\ same_but_stdout g g'.
Proof.
  intros Hcreate Hadd. unfold create_event_set.
  rewrite decide_True by exact Hcreate.
  rewrite add_local_events_ok by exact Hadd. cbn [option_map app].
  eexists. split; [reflexivity|].
  repeat case_match; first [apply same_but_stdout_refl | apply verbose_fprintf_same].
Qed.

Lemma create_local_sets_ok (idxs : list nat) :
  PAPI_create_eventset env = PAPI_OK ->
  (forall set code, PAPI_add_event env set code = PAPI_OK) ->
  forall (g : globals) (lcs : list local_components_t),
    exists g',
      create_local_sets env idxs g lcs
      = (g',
         foldl (fun lcs i =>
                  <[i := mk_local_component
                           (Some (take (num_of_events (components (reg g) !!! i))
                                    (event_codes (components (reg g) !!! i))))
                           (replicate (num_of_events (components (reg g) !!! i)) 0)]>
                    lcs)
           lcs idxs,
         None)
      /\ same_but_stdout g g'.
Proof.
  intros Hcreate Hadd. induction idxs as [|i idxs IH]; intros g lcs; cbn.
  - exists g. split; [reflexivity|apply same_but_stdout_refl].
  - destruct (create_event_set_ok (components (reg g) !!! i) g Hcreate Hadd)
      as (g1 & -> & Hsame1).
    destruct (IH g1 (<[i := mk_local_component
                              (Some (take (num_of_events (components (reg g) !!! i))
                                       (event_codes (components (reg g) !!! i))))
                              (replicate (num_of_events (components (reg g) !!! i)) 0)]>
                       lcs)) as (g2 & Hrun & Hsame2).
    exists g2. split; [|eapply same_but_stdout_trans; eassumption].
    rewrite Hrun. destruct Hsame1 as (Hreg & _). rewrite Hreg. reflexivity.
Qed.


Lemma foldl_insert_lookup {A : Type} (f : nat -> A) (idxs : list nat) :
  forall (l : list A) (k : nat),
    foldl (fun l i => <[i := f i]> l) l idxs !! k
    = if decide (k ∈ idxs /\ (k < length l)%nat) then Some (f k) else l !! k.
Proof.
  induction idxs as [|i idxs IH]; intros l k; cbn.
  - rewrite decide_False; [reflexivity|]. intros (Hin & _).
    apply elem_of_nil in Hin. exact Hin.
  - rewrite IH, length_insert.
    destruct (decide (k ∈ idxs /\ (k < length l)%nat)) as [(Hin & Hlt)|Hnot].
    + rewrite decide_True; [reflexivity|]. split; [|exact Hlt].
      apply elem_of_cons. right. exact Hin.
    + destruct (decide (k = i)) as [->|Hne].
      * destruct (decide (i < length l)%nat) as [Hlt|Hge].
        -- rewrite list_lookup_insert_eq by exact Hlt.
           rewrite decide_True; [reflexivity|]. split; [|exact Hlt].
           apply elem_of_cons. left. reflexivity.
        -- rewrite decide_False by (intros (_ & H); contradiction).
           rewrite list_insert_ge by lia.
           reflexivity.
      * rewrite list_lookup_insert_ne by congruence.
        rewrite decide_False; [reflexivity|]. intros (Hin & Hlt). apply Hnot.
        split; [|exact Hlt]. apply elem_of_cons in Hin as [->|Hin]; [contradiction|exact Hin].
Qed.

(** The second loop when every start and every warm-up read succeeds. *)
Lemma start_local_sets_ok (idxs : list nat) :
  (forall set, PAPI_start set = PAPI_OK) ->
  (forall set vals, fst (fst (PAPI_read_ts env set vals)) = PAPI_OK) ->
  NoDup idxs ->
  forall lcs : list local_components_t,
    exists lcs',
      start_local_sets env PAPI_start idxs lcs = (lcs', None)
      /\ length lcs' = length lcs
      /\ forall k,
           lcs' !! k
           = if decide (k ∈ idxs /\ (k < length lcs)%nat)
             then Some (mk_local_component (local_EventSet (lcs !!! k))
                          (snd (fst (PAPI_read_ts env (local_EventSet (lcs !!! k))
                                       (values (lcs !!! k))))))
             else lcs !! k.
Proof.
  intros Hstart Hread. induction idxs as [|i idxs IH]; intros Hnodup lcs; cbn.
  - exists lcs. split_and!; reflexivity.
  - apply NoDup_cons in Hnodup as (Hnotin & Hnodup).
    rewrite decide_True by apply Hstart.
    pose proof (Hread (local_EventSet (lcs !!! i)) (values (lcs !!! i))) as Hok.
    destruct (PAPI_read_ts env (local_EventSet (lcs !!! i)) (values (lcs !!! i)))
      as [[retval vals] cycles] eqn:Hts.
    cbn in Hok. subst retval. rewrite decide_True by reflexivity.
    destruct (IH Hnodup
                (<[i := mk_local_component (local_EventSet (lcs !!! i)) vals]> lcs))
      as (lcs' & Hrun & Hlen & Hlookup).
    exists lcs'. rewrite length_insert in Hlen, Hlookup.
    split_and!; [exact Hrun|exact Hlen|].
    intros k. rewrite Hlookup.
    destruct (decide (k = i)) as [->|Hne].
    + rewrite decide_False by (intros (Hin & _); contradiction).
      destruct (decide (i < length lcs)%nat) as [Hlt|Hge].
      * rewrite list_lookup_insert_eq by exact Hlt.
        rewrite decide_True; [rewrite Hts; reflexivity|]. split; [|exact Hlt].
        apply elem_of_cons. left. reflexivity.
      * rewrite decide_False by (intros (_ & H); contradiction).
        rewrite list_insert_ge by lia. reflexivity.
    + rewrite list_lookup_total_insert_ne by congruence.
      rewrite list_lookup_insert_ne by congruence.
      destruct (decide (k ∈ idxs /\ (k < length lcs)%nat)) as [(Hin & Hlt)|Hnot].
      * rewrite decide_True; [reflexivity|]. split; [|exact Hlt].
        apply elem_of_cons. right. exact Hin.
      * rewrite decide_False; [reflexivity|]. intros (Hin & Hlt). apply Hnot.
        split; [|exact Hlt]. apply elem_of_cons in Hin as [->|Hin]; [contradiction|exact Hin].
Qed.


(** [_internal_hl_create_event_sets] when the hardware layer plays along. *)
Lemma create_event_sets_ok (g : globals) (l : locals) :
  state (life g) = PAPIHL_ACTIVE ->
  local_sets_ok env PAPI_start ->
  exists g',
    _internal_hl_create_event_sets env PAPI_start g l
    = (PAPI_OK, g',
       set_local_components
         (Some (map (fun i => local_set_of env (components (reg g) !!! i))
                  (seq 0 (num_of_components (reg g)))))
         l)
    /\ same_but_stdout g g'.
Proof.
  intros Hstate (Hcreate & Hadd & Hstart & Hread).
  unfold _internal_hl_create_event_sets. rewrite decide_True by exact Hstate.
  set (n := num_of_components (reg g)).
  destruct (create_local_sets_ok (seq 0 n) Hcreate Hadd g (replicate n inhabitant))
    as (g' & -> & Hsame).
  set (fresh := fun i : nat =>
         mk_local_component
           (Some (take (num_of_events (components (reg g) !!! i))
                    (event_codes (components (reg g) !!! i))))
           (replicate (num_of_events (components (reg g) !!! i)) 0)).
  match goal with
  | |- context [start_local_sets _ _ _ ?x] => set (lcs1 := x)
  end.
  assert (Hlcs1 : forall k, lcs1 !! k = if decide (k < n)%nat then Some (fresh k) else None).
  { intros k. unfold lcs1. rewrite (foldl_insert_lookup fresh), length_replicate.
    destruct (decide (k < n)%nat) as [Hlt|Hge].
    - rewrite decide_True; [reflexivity|]. split; [|exact Hlt].
      apply elem_of_seq. lia.
    - rewrite decide_False by (intros (_ & H); contradiction).
      apply lookup_ge_None. rewrite length_replicate. lia. }
  assert (Hlen1 : length lcs1 = n).
  { destruct (decide (length lcs1 <= n)%nat) as [Hle|Hgt].
    - destruct (decide (length lcs1 = n)) as [Heq|Hne]; [exact Heq|].
      assert (Hnone : lcs1 !! length lcs1 = None) by (apply lookup_ge_None; lia).
      rewrite Hlcs1, decide_True in Hnone by lia. discriminate.
    - assert (Hsome : is_Some (lcs1 !! n)) by (apply lookup_lt_is_Some; lia).
      rewrite Hlcs1, decide_False in Hsome by lia. destruct Hsome as (x & [=]). }
  destruct (start_local_sets_ok (seq 0 n) Hstart Hread (NoDup_seq 0 n) lcs1)
    as (lcs2 & -> & Hlen2 & Hlcs2).
  exists g'. split; [|exact Hsame]. do 3 f_equal.
  apply list_eq. intros k. rewrite Hlcs2, Hlen1.
  rewrite list_lookup_fmap.
  destruct (decide (k < n)%nat) as [Hlt|Hge].
  - rewrite decide_True by (split; [apply elem_of_seq; lia|exact Hlt]).
    rewrite lookup_seq_lt by exact Hlt. cbn.
    rewrite (list_lookup_total_correct lcs1 k (fresh k))
      by (rewrite Hlcs1, decide_True by exact Hlt; reflexivity).
    reflexivity.
  - rewrite decide_False by (intros (_ & H); contradiction).
    rewrite lookup_seq_ge by lia. cbn. rewrite Hlcs1, decide_False by exact Hge.
    reflexivity.
Qed.


(** X15: on an active library, when the hardware layer creates the sets,
    adds every event, starts every set and delivers the warm-up reads,
    _internal_hl_create_event_sets returns PAPI_OK and gives the thread one
    local event set per component of the registry, in the same order: the
    set of component i holds the codes of the events of component i in
    their order, and its buffer has what the warm-up read left in a buffer
    of one cell per event.  The other thread-local variables and, apart
    from diagnostics, the global state are unchanged. *)
Theorem create_event_sets_mirrors (g : globals) (l : locals) :
  state (life g) = PAPIHL_ACTIVE ->
  local_sets_ok env PAPI_start ->
  exists g',
    _internal_hl_create_event_sets env PAPI_start g l
    = (PAPI_OK, g',
       set_local_components
         (Some (map (fun i => local_set_of env (components (reg g) !!! i))
                  (seq 0 (num_of_components (reg g)))))
         l)
    /\ same_but_stdout g g'.
Proof. apply create_event_sets_ok. Qed.

End RegionBeginFacts.

Lemma create_event_sets_mirrors_witness :
  exists g',
    _internal_hl_create_event_sets env_ok (fun _ => PAPI_OK) g_two_events
      (mk_locals None 0 true 0 0)
    = (PAPI_OK, g', mk_locals (Some [mk_local_component (Some [1; 2]) [5; 5]]) 0 true 0 0).
Proof.
  destruct (create_event_sets_mirrors env_ok (fun _ => PAPI_OK) g_two_events
              (mk_locals None 0 true 0 0) eq_refl)
    as (g' & Hrun & _).
  - split_and!; intros; reflexivity.
  - exists g'. exact Hrun.
Defined.

Lemma clean_up_all_locals (env : papi_env) (deactivate : bool) (g : globals)
    (l : locals) :
  forall g' l',
    _internal_hl_clean_up_all env deactivate g l = (g', l') ->
    _local_region_begin_cnt l' = _local_region_begin_cnt l
    /\ _local_region_end_cnt l' = _local_region_end_cnt l
    /\ (_local_state l = PAPIHL_ACTIVE -> _local_components l' = None)
    /\ (_local_state l <> PAPIHL_ACTIVE -> l' = l).
Proof.
  intros g' l'. unfold _internal_hl_clean_up_all.
  destruct (decide (_local_state l = PAPIHL_ACTIVE)) as [Ha|Ha].
  - destruct (_internal_hl_clean_up_local_data env (set_output_generated true g) l)
      as [g1 l1] eqn:Hrun.
    apply clean_up_local_data_counts in Hrun as (Hnone & _ & Hb & He & _).
    intros [= _ <-].
    split_and!; [assumption|assumption|intros _; assumption|intros H; contradiction].
  - intros [= _ <-].
    split_and!; [reflexivity|reflexivity|intros H; contradiction|reflexivity].
Qed.

Section RegionBeginFailure.

Variable env : papi_env.
Variable PAPI_start : eventset -> papi_retval.
Variable init : globals -> globals.

(** A failure of [_internal_hl_create_event_sets] in
    [PAPI_hl_region_begin]. *)
Lemma region_begin_sets_fail (name : string) (g g1 : globals) (l l1 : locals)
    (retval : papi_retval) :
  state (life g) = PAPIHL_ACTIVE ->
  hl_finalized (life g) = false ->
  hl_initiated (life g) = true ->
  events_determined (life g) = true ->
  _local_components l = None ->
  _internal_hl_create_event_sets env PAPI_start g l = (retval, g1, l1) ->
  retval <> PAPI_OK ->
  PAPI_hl_region_begin env PAPI_start init name g l
  = Some (retval, fst (_internal_hl_clean_up_all env true g1 l1),
          snd (_internal_hl_clean_up_all env true g1 l1)).
Proof.
  intros Hstate Hfin Hinit Hdet Hnone Hsets Hfail. unfold PAPI_hl_region_begin.
  rewrite decide_False by (rewrite Hstate; discriminate).
  rewrite decide_False by (rewrite Hfin; discriminate).
  rewrite decide_False by (rewrite Hinit; discriminate).
  rewrite decide_False by (rewrite Hdet; discriminate).
  cbn [mbind option_bind]. rewrite decide_True by exact Hnone.
  rewrite Hsets. rewrite decide_False by exact Hfail.
  destruct (_internal_hl_clean_up_all env true g1 l1). reflexivity.
Qed.

(** X16: when the warm-up read of the first local event set fails,
    _internal_hl_create_event_sets returns the truth value of the comparison
    with PAPI_OK, so PAPI_hl_region_begin returns 1 and not the error code
    of the read.  The failure shuts the library down: both states are
    deactivated, the local event sets are released, the tree is emptied,
    the output counts as generated, and no region is begun. *)
Theorem region_begin_warm_up_fails (name : string) (g : globals) (l : locals) :
  state (life g) = PAPIHL_ACTIVE ->
  hl_finalized (life g) = false ->
  hl_initiated (life g) = true ->
  events_determined (life g) = true ->
  _local_components l = None ->
  _local_state l = PAPIHL_ACTIVE ->
  (0 < num_of_components (reg g))%nat ->
  PAPI_create_eventset env = PAPI_OK ->
  (forall set code, PAPI_add_event env set code = PAPI_OK) ->
  (forall set, PAPI_start set = PAPI_OK) ->
  fst (fst (PAPI_read_ts env
              (local_EventSet (local_set_of env (components (reg g) !!! 0%nat)))
              (replicate (num_of_events (components (reg g) !!! 0%nat)) 0)))
  <> PAPI_OK ->
  exists g' l',
    PAPI_hl_region_begin env PAPI_start init name g l
    = Some (PAPI_EOTHER 1, g', l')
    /\ state (life g') = PAPIHL_DEACTIVATED
    /\ _local_state l' = PAPIHL_DEACTIVATED
    /\ _local_components l' = None
    /\ _local_region_begin_cnt l' = _local_region_begin_cnt l
    /\ output_generated (life g') = true
    /\ binary_tree (sto g') = (fun _ => []) <$> binary_tree (sto g)
    /\ region_begin_cnt (sto g') = region_begin_cnt (sto g).
Proof.
  intros Hstate Hfin Hinit Hdet Hnone Hlocal Hpos Hcreate Hadd Hstart Hread.
  assert (Hsets : exists g1 lcs,
             _internal_hl_create_event_sets env PAPI_start g l
             = (PAPI_EOTHER 1, g1, set_local_components (Some lcs) l)
             /\ same_but_stdout g g1).
  { unfold _internal_hl_create_event_sets. rewrite decide_True by exact Hstate.
    set (n := num_of_components (reg g)) in *.
    destruct (create_local_sets_ok env (seq 0 n) Hcreate Hadd g (replicate n inhabitant))
      as (g1 & -> & Hsame).
    match goal with
    | |- context [start_local_sets _ _ _ ?x] => set (lcs1 := x)
    end.
    assert (H0 : lcs1 !!! 0%nat
                 = mk_local_component
                     (Some (take (num_of_events (components (reg g) !!! 0%nat))
                              (event_codes (components (reg g) !!! 0%nat))))
                     (replicate (num_of_events (components (reg g) !!! 0%nat)) 0)).
    { apply list_lookup_total_correct. unfold lcs1.
      rewrite (foldl_insert_lookup
                 (fun i => mk_local_component
                             (Some (take (num_of_events (components (reg g) !!! i))
                                      (event_codes (components (reg g) !!! i))))
                             (replicate (num_of_events (components (reg g) !!! i)) 0))).
      rewrite decide_True; [reflexivity|]. rewrite length_replicate.
      split; [apply elem_of_seq; lia|lia]. }
    clearbody lcs1. destruct n as [|n]; [lia|]. cbn [seq start_local_sets].
    rewrite decide_True by apply Hstart. rewrite H0. cbn [local_EventSet values].
    cbn [local_set_of local_EventSet] in Hread.
    destruct (PAPI_read_ts env _ _) as [[r vals] cycles]. cbn [fst] in Hread.
    rewrite decide_False by exact Hread.
    eexists _, _. split; [reflexivity|exact Hsame]. }
  destruct Hsets as (g1 & lcs & Hsets & Hsame).
  rewrite (region_begin_sets_fail name g g1 _ _ _ Hstate Hfin Hinit Hdet Hnone Hsets)
    by discriminate.
  destruct (_internal_hl_clean_up_all env true g1 (set_local_components (Some lcs) l))
    as [g' l'] eqn:Hclean.
  destruct Hsame as (_ & Hsto & Hlife & _).
  assert (Hstate1 : state (life g1) = PAPIHL_ACTIVE) by (rewrite Hlife; exact Hstate).
  destruct (clean_up_all_active env g1 _ Hstate1 g' l' Hclean)
    as (Hd & Hld & Hout & _ & _ & _ & Htree & Hb & _).
  destruct (clean_up_all_locals env true g1 _ g' l' Hclean) as (Hcnt & _ & Hcomps & _).
  exists g', l'. cbn [fst snd]. rewrite Hsto in Htree, Hb.
  split_and!; try assumption; try reflexivity. apply Hcomps. exact Hlocal.
Qed.

End RegionBeginFailure.

Lemma region_begin_warm_up_fails_witness :
  exists g' l',
    PAPI_hl_region_begin
      (mk_env 7 (fun _ v => (PAPI_OK, v)) (fun _ v => (PAPI_ESYS, v, 100))
         (fun _ => PAPI_OK) (fun _ => PAPI_OK) (fun _ => PAPI_OK) PAPI_OK
         (fun s => (PAPI_OK, 1)) (fun _ _ => PAPI_OK) (fun c => 0)
         (fun _ _ => PAPI_OK) (fun _ => false) (fun _ => PAPI_OK)
         (PAPI_OK, [7]) [] 2400 2 (fun _ => None) PAPI_OK (-1) true)
      (fun _ => PAPI_OK) (fun g => g) "A" g_two_events (mk_locals None 0 true 0 0)
    = Some (PAPI_EOTHER 1, g', l')
    /\ state (life g') = PAPIHL_DEACTIVATED.
Proof.
  destruct (region_begin_warm_up_fails
              (mk_env 7 (fun _ v => (PAPI_OK, v)) (fun _ v => (PAPI_ESYS, v, 100))
                 (fun _ => PAPI_OK) (fun _ => PAPI_OK) (fun _ => PAPI_OK) PAPI_OK
                 (fun s => (PAPI_OK, 1)) (fun _ _ => PAPI_OK) (fun c => 0)
                 (fun _ _ => PAPI_OK) (fun _ => false) (fun _ => PAPI_OK)
                 (PAPI_OK, [7]) [] 2400 2 (fun _ => None) PAPI_OK (-1) true)
              (fun _ => PAPI_OK) (fun g => g) "A" g_two_events
              (mk_locals None 0 true 0 0)
              eq_refl eq_refl eq_refl eq_refl eq_refl eq_refl)
    as (g' & l' & Hrun & Hstate & _).
  - cbn. lia.
  - reflexivity.
  - intros; reflexivity.
  - intros; reflexivity.
  - discriminate.
  - exists g', l'. split; assumption.
Defined.

(** ** A region entered and left *)

Lemma read_components_ok (env : papi_env) (ncomps : nat) (idxs : list nat) :
  reads_ok env ->
  forall l : locals,
    is_Some (_local_components l) ->
    exists l1,
      read_components env ncomps idxs l = Some (PAPI_OK, l1)
      /\ is_Some (_local_components l1)
      /\ _local_state l1 = _local_state l
      /\ _local_region_begin_cnt l1 = _local_region_begin_cnt l
      /\ _local_region_end_cnt l1 = _local_region_end_cnt l.
Proof.
  intros Hreads. induction idxs as [|i idxs IH]; intros l [lcs Hlcs]; simpl.
  - exists l. split_and!; try reflexivity. rewrite Hlcs. eauto.
  - unfold read_component. rewrite Hlcs. cbn [mbind option_bind].
    destruct (decide (Z.of_nat i < Z.of_nat ncomps - 1)).
    + pose proof (Hreads (local_EventSet (lcs !!! i)) (values (lcs !!! i))) as (Hok & _).
      destruct (PAPI_read env _ _) as [retval vals]. cbn in Hok. subst retval.
      rewrite decide_True by reflexivity.
      edestruct IH as (l1 & -> & H1 & H2 & H3 & H4); [|eauto 10]. cbn. eauto.
    + pose proof (Hreads (local_EventSet (lcs !!! i)) (values (lcs !!! i))) as (_ & Hok).
      destruct (PAPI_read_ts env _ _) as [[retval vals] cycles]. cbn in Hok.
      subst retval. rewrite decide_True by reflexivity.
      edestruct IH as (l1 & -> & H1 & H2 & H3 & H4); [|eauto 10]. cbn. eauto.
Qed.

(** A call of type [reg_typ] that finds its node, or a begin call, on a
    running library whose counters can be read. *)
Lemma read_and_store_ok (env : papi_env) (name : string) (reg_typ : region_type)
    (g : globals) (l : locals) (root : list threads_t) :
  reads_ok env ->
  is_Some (_local_components l) ->
  binary_tree (sto g) = Some root ->
  reg_typ = REGION_BEGIN \/ is_Some (lookup_region root (PAPI_thread_id env) name) ->
  exists l1 root',
    _internal_hl_read_and_store_counters env name reg_typ g l
    = Some (PAPI_OK, count_region_call reg_typ (set_binary_tree (Some root') g), l1)
    /\ is_Some (_local_components l1)
    /\ _local_state l1 = _local_state l
    /\ _local_region_begin_cnt l1 = _local_region_begin_cnt l
    /\ _local_region_end_cnt l1 = _local_region_end_cnt l
    /\ lookup_region root' (PAPI_thread_id env) name
       = Some (stored g l1 reg_typ
                 (default (fresh_region_node (total_num_events (reg g)) name)
                    (lookup_region root (PAPI_thread_id env) name))).
Proof.
  intros Hreads Hlcs Htree Hcase. unfold _internal_hl_read_and_store_counters.
  unfold _internal_hl_read_counters.
  destruct (read_components_ok env (num_of_components (reg g))
              (seq 0 (num_of_components (reg g))) Hreads l Hlcs)
    as (l1 & -> & Hlcs1 & Hstate1 & Hb1 & He1).
  cbn [mbind option_bind]. rewrite decide_True by reflexivity.
  assert (Hstore : exists root',
             _internal_hl_store_counters env (PAPI_thread_id env) name reg_typ g l1
             = Some (PAPI_OK,
                     count_region_call reg_typ (set_binary_tree (Some root') g))
             /\ lookup_region root' (PAPI_thread_id env) name
                = Some (stored g l1 reg_typ
                          (default (fresh_region_node (total_num_events (reg g)) name)
                             (lookup_region root (PAPI_thread_id env) name)))).
  { destruct (lookup_region root (PAPI_thread_id env) name) as [node|] eqn:Hnode.
    - apply (store_counters_found env _ name g l1 root Htree reg_typ node Hnode).
    - destruct Hcase as [->|[x [=]]].
      pose proof (store_counters_begin env (PAPI_thread_id env) name g l1 root Htree)
        as H.
      rewrite Hnode in H. exact H. }
  destruct Hstore as (root' & -> & Hlookup).
  cbn [mbind option_bind]. rewrite decide_True by reflexivity.
  exists l1, root'. split_and!; try assumption. reflexivity.
Qed.

Section RegionBeginEnd.

Variable env : papi_env.
Variable PAPI_start : eventset -> papi_retval.
Variable init : globals -> globals.

(** [PAPI_hl_region_begin] on a running library, by a thread that has its
    event sets. *)
Lemma region_begin_running (name : string) (g : globals) (l : locals)
    (root : list threads_t) :
  running g ->
  binary_tree (sto g) = Some root ->
  is_Some (_local_components l) ->
  reads_ok env ->
  exists l1 root',
    PAPI_hl_region_begin env PAPI_start init name g l
    = Some (PAPI_OK,
            count_region_call REGION_BEGIN (set_binary_tree (Some root') g),
            set_local_region_begin_cnt (int_of (_local_region_begin_cnt l + 1)) l1)
    /\ is_Some (_local_components l1)
    /\ _local_state l1 = _local_state l
    /\ _local_region_end_cnt l1 = _local_region_end_cnt l
    /\ lookup_region root' (PAPI_thread_id env) name
       = Some (stored g l1 REGION_BEGIN
                 (default (fresh_region_node (total_num_events (reg g)) name)
                    (lookup_region root (PAPI_thread_id env) name))).
Proof.
  intros (Hstate & Hfin & Hinit & Hdet & _) Htree Hlcs Hreads.
  destruct (read_and_store_ok env name REGION_BEGIN g l root Hreads Hlcs Htree)
    as (l1 & root' & Hrun & Hlcs1 & Hstate1 & Hb1 & He1 & Hlookup); [left; reflexivity|].
  unfold PAPI_hl_region_begin.
  rewrite decide_False by (rewrite Hstate; discriminate).
  rewrite decide_False by (rewrite Hfin; discriminate).
  rewrite decide_False by (rewrite Hinit; discriminate).
  rewrite decide_False by (rewrite Hdet; discriminate).
  cbn [mbind option_bind].
  rewrite decide_False by (destruct Hlcs as (x & ->); discriminate).
  rewrite Hrun. cbn [mbind option_bind]. rewrite decide_True by reflexivity.
  rewrite Hb1. exists l1, root'. split_and!; try assumption. reflexivity.
Qed.

(** X17: on a running library whose counters can be read, a thread that
    has its event sets enters and leaves a region with PAPI_OK both times.
    The pair adds one to the begin and end counts of the thread and of the
    library (so counts that matched still match), leaves registry and life
    cycle as they were, and adds one to the count slot of the region node,
    which is created by the begin call if the thread had none of that
    name. *)
Theorem region_begin_end_pair (name : string) (g : globals) (l : locals)
    (root : list threads_t) :
  running g ->
  binary_tree (sto g) = Some root ->
  is_Some (_local_components l) ->
  reads_ok env ->
  0 <= _local_region_begin_cnt l < 2 ^ 31 - 1 ->
  exists g1 l1 g2 l2 root2 node,
    PAPI_hl_region_begin env PAPI_start init name g l = Some (PAPI_OK, g1, l1)
    /\ PAPI_hl_region_end env name g1 l1 = Some (PAPI_OK, g2, l2)
    /\ _local_region_begin_cnt l2 = _local_region_begin_cnt l + 1
    /\ _local_region_end_cnt l2 = int_of (_local_region_end_cnt l + 1)
    /\ region_begin_cnt (sto g2) = int_of (region_begin_cnt (sto g) + 1)
    /\ region_end_cnt (sto g2) = int_of (region_end_cnt (sto g) + 1)
    /\ reg g2 = reg g /\ life g2 = life g
    /\ binary_tree (sto g2) = Some root2
    /\ lookup_region root2 (PAPI_thread_id env) name = Some node
    /\ slot_total node 0
       = (fun t => ll_add t 1)
           <$> slot_total
                 (default (fresh_region_node (total_num_events (reg g)) name)
                    (lookup_region root (PAPI_thread_id env) name)) 0.
Proof.
  intros Hrunning Htree Hlcs Hreads Hcnt.
  destruct (region_begin_running name g l root Hrunning Htree Hlcs Hreads)
    as (l1 & root1 & Hbegin & Hlcs1 & Hstate1 & He1 & Hlookup1).
  destruct Hrunning as (Hstate & Hfin & Hinit & Hdet & _).
  set (g1 := count_region_call REGION_BEGIN (set_binary_tree (Some root1) g)) in *.
  set (l1' := set_local_region_begin_cnt (int_of (_local_region_begin_cnt l + 1)) l1)
    in *.
  assert (Htree1 : binary_tree (sto g1) = Some root1) by reflexivity.
  assert (Hlcs1' : is_Some (_local_components l1')) by exact Hlcs1.
  assert (Hfound : is_Some (lookup_region root1 (PAPI_thread_id env) name))
    by (rewrite Hlookup1; eexists; reflexivity).
  destruct (read_and_store_ok env name REGION_END g1 l1' root1 Hreads Hlcs1' Htree1)
    as (l2 & root2 & Hrun & Hlcs2 & Hstate2 & Hb2 & He2 & Hlookup2);
    [right; exact Hfound|].
  rewrite Hlookup1 in Hlookup2. cbn [default from_option id] in Hlookup2.
  assert (Hlife1 : life g1 = life g) by apply count_region_call_life.
  eexists g1, l1', _, _, root2, _. split; [exact Hbegin|].
  split.
  { unfold PAPI_hl_region_end.
    rewrite decide_False by (rewrite Hlife1, Hstate; discriminate).
    rewrite decide_False.
    2:{ cbn. rewrite int_of_small by lia. lia. }
    rewrite decide_False by (destruct Hlcs1' as (x & ->); discriminate).
    rewrite Hrun. cbn [mbind option_bind]. rewrite decide_True by reflexivity.
    reflexivity. }
  split_and!.
  - cbn. rewrite Hb2. cbn. apply int_of_small. lia.
  - cbn. rewrite He2. cbn. rewrite He1. reflexivity.
  - reflexivity.
  - reflexivity.
  - rewrite count_region_call_reg. apply count_region_call_reg.
  - rewrite count_region_call_life. exact Hlife1.
  - apply count_region_call_tree.
  - exact Hlookup2.
  - unfold slot_total. rewrite !stored_lookup.
    destruct (region_values
                (default (fresh_region_node (total_num_events (reg g)) name)
                   (lookup_region root (PAPI_thread_id env) name)) !! 0%nat)
      as [v|]; reflexivity.
Qed.

End RegionBeginEnd.

Lemma region_begin_end_pair_witness :
  exists g1 l1 g2 l2 root2 node,
    PAPI_hl_region_begin env_ok (fun _ => PAPI_OK) (fun g => g) "A" g_one_region
      (l_reading 0 0 0)
    = Some (PAPI_OK, g1, l1)
    /\ PAPI_hl_region_end env_ok "A" g1 l1 = Some (PAPI_OK, g2, l2)
    /\ binary_tree (sto g2) = Some root2
    /\ lookup_region root2 7 "A" = Some node
    /\ slot_total node 0 = Some 3.
Proof.
  assert (Hrunning : running g_one_region)
    by (split_and!; try reflexivity; eexists; reflexivity).
  assert (Hlcs : is_Some (_local_components (l_reading 0 0 0)))
    by (eexists; reflexivity).
  assert (Hreads : reads_ok env_ok) by (intros set vals; split; reflexivity).
  assert (Hcnt : 0 <= _local_region_begin_cnt (l_reading 0 0 0) < 2 ^ 31 - 1)
    by (cbn; lia).
  destruct (region_begin_end_pair env_ok (fun _ => PAPI_OK) (fun g => g) "A"
              g_one_region (l_reading 0 0 0) _ Hrunning eq_refl Hlcs Hreads Hcnt)
    as (g1 & l1 & g2 & l2 & root2 & node & Hbegin & Hend & _ & _ & _ & _ & _ & _
        & Htree & Hlookup & Hslot).
  exists g1, l1, g2, l2, root2, node.
  split_and!; [exact Hbegin|exact Hend|exact Htree|exact Hlookup|exact Hslot].
Defined.

(** ** The first region of a process *)

Section RegionBeginFirst.

Variable env : papi_env.
Variable PAPI_start : eventset -> papi_retval.
Variable init : globals -> globals.

(** X18: the first PAPI_hl_region_begin of a process, on a library that is
    active with a clean registry and either initiated or successfully
    initiated by the call, with no event specification in PAPI_EVENTS or one
    without empty field, and a hardware layer whose event-set calls and
    reads succeed.  Either it returns PAPI_OK: then the library is running
    with its events determined and its registry in order, the thread has
    its event sets and one begun region more, and the store holds a node
    for the region with one slot per tracked event after the two fixed
    ones.  Or no event could be resolved: it returns the error code of
    _internal_PAPI_hl_set_events, the library is deactivated and the thread
    is left without event sets. *)
Theorem region_begin_first (name : string) (g : globals) (l : locals) :
  event_sets_ok env ->
  local_sets_ok env PAPI_start ->
  reads_ok env ->
  registry_clean g ->
  (forall s, getenv env "PAPI_EVENTS" = Some s -> no_empty_field s) ->
  state (life g) = PAPIHL_ACTIVE ->
  hl_finalized (life g) = false ->
  events_determined (life g) = false ->
  (hl_initiated (life g) = false -> init_succeeds init g) ->
  _local_components l = None ->
  exists retval g' l',
    PAPI_hl_region_begin env PAPI_start init name g l = Some (retval, g', l')
    /\ ((retval = PAPI_OK
         /\ running g'
         /\ registry_wf g'
         /\ is_Some (_local_components l')
         /\ _local_region_begin_cnt l'
            = int_of (_local_region_begin_cnt l + 1)
         /\ region_begin_cnt (sto g') = int_of (region_begin_cnt (sto g) + 1)
         /\ exists root' node,
              binary_tree (sto g') = Some root'
              /\ lookup_region root' (PAPI_thread_id env) name = Some node
              /\ region node = name
              /\ length (region_values node) = (total_num_events (reg g') + 2)%nat)
        \/ (retval <> PAPI_OK
            /\ state (life g') = PAPIHL_DEACTIVATED
            /\ events_determined (life g') = false
            /\ l' = l)).
Proof.
  intros Hsets Hlocal Hreads Hclean Henv Hstate Hfin Hdet Hinit Hnone.
  unfold PAPI_hl_region_begin.
  rewrite decide_False by (rewrite Hstate; discriminate).
  rewrite decide_False by (rewrite Hfin; discriminate).
  (* the library is initiated *)
  set (g0 := if decide (hl_initiated (life g) = false) then init g else g).
  assert (H0 : (if decide (hl_initiated (life g) = false)
                then
                  let '(retval, g) := _internal_PAPI_hl_init init g in
                  (if decide (retval = PAPI_OK) then None else Some retval, g)
                else (None, g))
               = (None, g0)
               /\ reg g0 = reg g /\ sto g0 = sto g
               /\ state (life g0) = PAPIHL_ACTIVE
               /\ hl_initiated (life g0) = true
               /\ hl_finalized (life g0) = false
               /\ events_determined (life g0) = false).
  { unfold g0. destruct (decide (hl_initiated (life g) = false)) as [Hno|Hyes].
    - destruct (Hinit Hno) as (Hreg & Hsto & Hact & Hini & Hfin' & Hdet').
      unfold _internal_PAPI_hl_init.
      rewrite decide_True by exact Hstate.
      rewrite decide_True by (split; assumption).
      rewrite decide_False by (rewrite Hact; discriminate).
      rewrite decide_True by reflexivity.
      split_and!; try assumption; try reflexivity; congruence.
    - split_and!; try assumption; try reflexivity.
      destruct (hl_initiated (life g)); [reflexivity|contradiction]. }
  destruct H0 as (-> & Hreg0 & Hsto0 & Hstate0 & Hinit0 & Hfin0 & Hdet0).
  clearbody g0.
  (* the events are determined *)
  rewrite decide_True by exact Hdet0.
  assert (Hclean0 : registry_clean g0)
    by (unfold registry_clean in *; rewrite Hreg0; exact Hclean).
  destruct (set_events_first env None g0 Hsets Hclean0 Henv Hstate0 Hinit0 Hdet0)
    as (retval & g1 & Hrun1 & Hcases).
  rewrite Hrun1. cbn [mbind option_bind].
  destruct Hcases as [Hok|Hko].
  2:{ destruct Hko as (Hfail & Hlife1 & _).
      rewrite decide_False by exact Hfail.
      eexists _, _, _. split; [reflexivity|]. right. rewrite Hlife1.
      split_and!; try assumption; reflexivity. }
  destruct Hok as (-> & Hlife1 & Hsto1 & (Hwf1 & _) & _).
  assert (Hstate1 : state (life g1) = PAPIHL_ACTIVE) by (rewrite Hlife1; exact Hstate0).
  rewrite decide_True by reflexivity. rewrite decide_True by exact Hnone.
  (* the thread gets its event sets *)
  destruct (create_event_sets_ok env PAPI_start g1 l Hstate1 Hlocal)
    as (g2 & -> & Hsame).
  rewrite decide_True by reflexivity.
  destruct Hsame as (Hreg2 & Hsto2 & Hlife2 & _).
  (* the counters are read and stored *)
  assert (Htree2 : binary_tree (sto g2) = Some [])
    by (rewrite Hsto2, Hsto1; reflexivity).
  match goal with
  | |- context [_internal_hl_read_and_store_counters env name REGION_BEGIN g2 ?lx] =>
      destruct (read_and_store_ok env name REGION_BEGIN g2 lx [] Hreads
                  ltac:(cbn; eexists; reflexivity) Htree2 ltac:(left; reflexivity))
        as (l3 & root3 & Hrun3 & Hlcs3 & _ & Hb3 & _ & Hlookup3)
  end.
  rewrite Hrun3. cbn [mbind option_bind]. rewrite decide_True by reflexivity.
  eexists _, _, _. split; [reflexivity|]. left.
  split_and!.
  - reflexivity.
  - unfold running.
    rewrite count_region_call_life, count_region_call_tree, Hlife2, Hlife1.
    split_and!; try assumption; try reflexivity. eexists. reflexivity.
  - eapply registry_wf_ext, Hwf1;
      rewrite count_region_call_reg, Hreg2; reflexivity.
  - exact Hlcs3.
  - cbn. rewrite Hb3. reflexivity.
  - unfold count_region_call. cbn. rewrite Hsto2, Hsto1. cbn. rewrite Hsto0.
    reflexivity.
  - exists root3, (stored g2 l3 REGION_BEGIN
                     (fresh_region_node (total_num_events (reg g2)) name)).
    rewrite count_region_call_tree, count_region_call_reg.
    split_and!.
    + reflexivity.
    + rewrite Hlookup3. reflexivity.
    + rewrite stored_region. reflexivity.
    + apply region_wf_stored, region_wf_fresh.
Qed.

End RegionBeginFirst.

Lemma region_begin_first_witness :
  exists g' l',
    PAPI_hl_region_begin env_ok (fun _ => PAPI_OK) (fun g => g) "A" g_initiated
      (mk_locals None 0 true 0 0)
    = Some (PAPI_OK, g', l')
    /\ running g'
    /\ _local_region_begin_cnt l' = 1.
Proof.
  assert (Hsets : event_sets_ok env_ok) by (split_and!; intros; reflexivity).
  assert (Hlocal : local_sets_ok env_ok (fun _ => PAPI_OK))
    by (split_and!; intros; reflexivity).
  assert (Hreads : reads_ok env_ok) by (intros set vals; split; reflexivity).
  assert (Hclean : registry_clean g_initiated) by (split_and!; cbn; lia).
  assert (Henv : forall s, getenv env_ok "PAPI_EVENTS" = Some s -> no_empty_field s)
    by (intros s [=]).
  assert (Hinit : hl_initiated (life g_initiated) = false ->
                  init_succeeds (fun g => g) g_initiated) by (intros [=]).
  pose proof (region_begin_first env_ok (fun _ => PAPI_OK) (fun g => g) "A"
                g_initiated (mk_locals None 0 true 0 0) Hsets Hlocal Hreads Hclean
                Henv eq_refl eq_refl eq_refl Hinit eq_refl) as H.
  destruct H as (retval & g' & l' & Hrun & [H|H]).
  - destruct H as (-> & Hrunning & _ & _ & Hcnt & _). exists g', l'.
    split_and!; [exact Hrun|exact Hrunning|exact Hcnt].
  - exfalso. destruct H as (Hfail & _). apply Hfail.
    assert (Hfst : (fun r => fst (fst r))
                     <$> PAPI_hl_region_begin env_ok (fun _ => PAPI_OK) (fun g => g)
                           "A" g_initiated (mk_locals None 0 true 0 0)
                   = Some PAPI_OK) by (vm_compute; reflexivity).
    rewrite Hrun in Hfst. injection Hfst as <-. reflexivity.
Defined.

(** * The flags of the life cycle *)

Lemma flags_le_refl (c : lifecycle) : flags_le c c.
Proof. unfold flags_le. tauto. Qed.

Lemma flags_le_trans (c1 c2 c3 : lifecycle) :
  flags_le c1 c2 -> flags_le c2 c3 -> flags_le c1 c3.
Proof.
  unfold flags_le. intros (H1 & H2 & H3 & H4 & H5) (K1 & K2 & K3 & K4 & K5).
  split_and!; [tauto..|congruence].
Qed.

Lemma flags_le_eq (c c' : lifecycle) : c' = c -> flags_le c c'.
Proof. intros ->. apply flags_le_refl. Qed.

Lemma flags_le_same (g g' : globals) :
  same_but_stdout g g' -> flags_le (life g) (life g').
Proof. intros (_ & _ & Hlife & _). apply flags_le_eq, Hlife. Qed.

Lemma flags_le_clean_up_local_data (env : papi_env) (g : globals) (l : locals) :
  flags_le (life g) (life (fst (_internal_hl_clean_up_local_data env g l)))
  /\ _local_state (snd (_internal_hl_clean_up_local_data env g l))
     = PAPIHL_DEACTIVATED.
Proof.
  pose proof (clean_up_local_data_spec env g l)
    as (Hl & _ & _ & Hstate & Hinit & Hdet & Hout & _).
  destruct (_internal_hl_clean_up_local_data env g l) as [g' l'] eqn:Hrun.
  apply clean_up_local_data_counts in Hrun as (_ & _ & _ & _ & _ & _ & Hfin).
  cbn [fst snd] in *. split; [|exact Hl].
  unfold flags_le. rewrite Hstate, Hinit, Hdet, Hout, Hfin. tauto.
Qed.

Lemma flags_le_clean_up_all (env : papi_env) (deactivate : bool) (g : globals)
    (l : locals) :
  flags_le (life g) (life (fst (_internal_hl_clean_up_all env deactivate g l)))
  /\ _local_state (snd (_internal_hl_clean_up_all env deactivate g l))
     = PAPIHL_DEACTIVATED.
Proof.
  unfold _internal_hl_clean_up_all.
  set (g0 := set_output_generated true g).
  assert (H0 : flags_le (life g) (life g0)).
  { unfold flags_le, g0. cbn. tauto. }
  clearbody g0.
  assert (Hl : exists g1 l1,
             (if decide (_local_state l = PAPIHL_ACTIVE)
              then _internal_hl_clean_up_local_data env g0 l else (g0, l))
             = (g1, l1)
             /\ flags_le (life g0) (life g1)
             /\ _local_state l1 = PAPIHL_DEACTIVATED).
  { destruct (decide (_local_state l = PAPIHL_ACTIVE)) as [Ha|Ha].
    - pose proof (flags_le_clean_up_local_data env g0 l) as (Hle & Hl).
      destruct (_internal_hl_clean_up_local_data env g0 l) as [g1 l1].
      exists g1, l1. split_and!; [reflexivity|exact Hle|exact Hl].
    - exists g0, l. split_and!; [reflexivity|apply flags_le_refl|].
      unfold PAPIHL_ACTIVE, PAPIHL_DEACTIVATED in *.
      destruct (_local_state l); congruence. }
  destruct Hl as (g1 & l1 & -> & H1 & Hl1). cbn [fst snd].
  split; [|exact Hl1].
  apply (flags_le_trans _ (life g0)); [exact H0|].
  apply (flags_le_trans _ (life g1)); [exact H1|].
  destruct (decide (state (life g1) = PAPIHL_ACTIVE)); [|apply flags_le_refl].
  set (g2 := _internal_hl_clean_up_global_data
               (verbose_fprintf Info_output_deactivated g1)).
  assert (H2 : life g2 = life g1).
  { unfold g2, _internal_hl_clean_up_global_data.
    pose proof (verbose_fprintf_frame Info_output_deactivated g1) as (_ & _ & Hlife & _).
    destruct (binary_tree _); cbn; exact Hlife. }
  clearbody g2.
  match goal with
  | |- context [decide ?P] => destruct (decide P)
  end.
  - destruct deactivate; cbn; rewrite H2; unfold flags_le; cbn; tauto.
  - pose proof (verbose_fprintf_frame Warn_no_shutdown g2) as (_ & _ & Hlife & _).
    destruct deactivate; cbn; rewrite Hlife, H2; unfold flags_le; cbn; tauto.
Qed.

Lemma store_counters_life (env : papi_env) (tid : Z) (name : string)
    (reg_typ : region_type) (g : globals) (l : locals) :
  forall retval g',
    _internal_hl_store_counters env tid name reg_typ g l = Some (retval, g') ->
    life g' = life g.
Proof.
  intros retval g' Hrun.
  destruct (binary_tree (sto g)) as [root|] eqn:Htree.
  - destruct (store_counters_cases env tid name reg_typ g l root Htree)
      as (r & g1 & root' & Hrun' & _ & Hlife & _).
    rewrite Hrun in Hrun'. injection Hrun' as <- <-. exact Hlife.
  - unfold _internal_hl_store_counters in Hrun. rewrite Htree in Hrun. discriminate.
Qed.

Lemma read_components_state (env : papi_env) (ncomps : nat) (idxs : list nat) :
  forall l retval l1,
    read_components env ncomps idxs l = Some (retval, l1) ->
    _local_state l1 = _local_state l.
Proof.
  induction idxs as [|i idxs IH]; intros l retval l1; simpl.
  - intros [= _ <-]. reflexivity.
  - unfold read_component.
    destruct (_local_components l) as [lcs|]; [|discriminate].
    cbn [mbind option_bind].
    destruct (decide (Z.of_nat i < Z.of_nat ncomps - 1)).
    + destruct (PAPI_read env _ _) as [r vals].
      destruct (decide (r = PAPI_OK)).
      * intros Hrun. apply IH in Hrun. exact Hrun.
      * intros [= _ <-]. reflexivity.
    + destruct (PAPI_read_ts env _ _) as [[r vals] cycles].
      destruct (decide (r = PAPI_OK)).
      * intros Hrun. apply IH in Hrun. exact Hrun.
      * intros [= _ <-]. reflexivity.
Qed.

Lemma flags_le_read_and_store (env : papi_env) (name : string)
    (reg_typ : region_type) (g : globals) (l : locals) :
  forall retval g' l',
    _internal_hl_read_and_store_counters env name reg_typ g l
    = Some (retval, g', l') ->
    flags_le (life g) (life g')
    /\ (_local_state l' = PAPIHL_ACTIVE -> _local_state l = PAPIHL_ACTIVE).
Proof.
  intros retval g' l'. unfold _internal_hl_read_and_store_counters.
  destruct (_internal_hl_read_counters env g l) as [[r l1]|] eqn:Hread;
    [|discriminate].
  apply read_components_state in Hread. cbn [mbind option_bind].
  destruct (decide (r = PAPI_OK)).
  - destruct (_internal_hl_store_counters env (PAPI_thread_id env) name reg_typ g l1)
      as [[r2 g2]|] eqn:Hstore; [|discriminate].
    apply store_counters_life in Hstore. cbn [mbind option_bind].
    destruct (decide (r2 = PAPI_OK)).
    + intros [= _ <- <-]. rewrite Hread. split; [apply flags_le_eq, Hstore|tauto].
    + set (g3 := verbose_fprintf Advice_check_regions
                   (verbose_fprintf (Err_could_not_store (PAPI_thread_id env)) g2)).
      assert (H3 : life g3 = life g).
      { unfold g3.
        pose proof (verbose_fprintf_frame Advice_check_regions
                      (verbose_fprintf (Err_could_not_store (PAPI_thread_id env)) g2))
          as (_ & _ & -> & _).
        pose proof (verbose_fprintf_frame (Err_could_not_store (PAPI_thread_id env)) g2)
          as (_ & _ & -> & _).
        exact Hstore. }
      clearbody g3.
      pose proof (flags_le_clean_up_all env true g3 l1) as (Hle & Hl).
      destruct (_internal_hl_clean_up_all env true g3 l1) as [g4 l4].
      cbn [fst snd] in *. intros [= _ <- <-]. rewrite <- H3. split; [exact Hle|].
      rewrite Hl. discriminate.
  - set (g3 := verbose_fprintf (Err_could_not_read (PAPI_thread_id env)) g).
    assert (H3 : life g3 = life g) by apply verbose_fprintf_frame.
    clearbody g3.
    pose proof (flags_le_clean_up_all env true g3 l1) as (Hle & Hl).
    destruct (_internal_hl_clean_up_all env true g3 l1) as [g4 l4].
    cbn [fst snd] in *. intros [= _ <- <-]. rewrite <- H3. split; [exact Hle|].
    rewrite Hl. discriminate.
Qed.

Lemma flags_le_deactivated_entry (env : papi_env) (g : globals) (l : locals) :
  forall retval g' l',
    deactivated_entry env g l = (retval, g', l') ->
    flags_le (life g) (life g')
    /\ (_local_state l' = PAPIHL_ACTIVE -> _local_state l = PAPIHL_ACTIVE).
Proof.
  intros retval g' l'. unfold deactivated_entry.
  destruct (decide (_local_state l = PAPIHL_ACTIVE)) as [Ha|Ha].
  - pose proof (flags_le_clean_up_local_data env g l) as (Hle & Hl).
    destruct (_internal_hl_clean_up_local_data env g l) as [g1 l1].
    cbn [fst snd] in *. intros [= _ <- <-]. split; [exact Hle|tauto].
  - intros [= _ <- <-]. split; [apply flags_le_refl|tauto].
Qed.

Lemma flags_le_read (env : papi_env) (name : string) (g : globals) (l : locals) :
  forall retval g' l',
    PAPI_hl_read env name g l = Some (retval, g', l') ->
    flags_le (life g) (life g')
    /\ (_local_state l' = PAPIHL_ACTIVE -> _local_state l = PAPIHL_ACTIVE).
Proof.
  intros retval g' l'. unfold PAPI_hl_read.
  destruct (decide (state (life g) = PAPIHL_DEACTIVATED)).
  { intros [= H]. eapply flags_le_deactivated_entry, H. }
  destruct (decide (_local_region_begin_cnt l = 0)).
  { intros [= _ <- <-]. split; [apply flags_le_eq, verbose_fprintf_frame|tauto]. }
  destruct (decide (_local_components l = None)).
  { intros [= _ <- <-]. split; [apply flags_le_refl|tauto]. }
  destruct (_internal_hl_read_and_store_counters env name REGION_READ g l)
    as [[[r g1] l1]|] eqn:Hrun; [|discriminate].
  apply flags_le_read_and_store in Hrun. cbn [mbind option_bind].
  destruct (decide (r = PAPI_OK)); intros [= _ <- <-]; exact Hrun.
Qed.

Lemma flags_le_region_end (env : papi_env) (name : string) (g : globals)
    (l : locals) :
  forall retval g' l',
    PAPI_hl_region_end env name g l = Some (retval, g', l') ->
    flags_le (life g) (life g')
    /\ (_local_state l' = PAPIHL_ACTIVE -> _local_state l = PAPIHL_ACTIVE).
Proof.
  intros retval g' l'. unfold PAPI_hl_region_end.
  destruct (decide (state (life g) = PAPIHL_DEACTIVATED)).
  { intros [= H]. eapply flags_le_deactivated_entry, H. }
  destruct (decide (_local_region_begin_cnt l = 0)).
  { intros [= _ <- <-]. split; [apply flags_le_eq, verbose_fprintf_frame|tauto]. }
  destruct (decide (_local_components l = None)).
  { intros [= _ <- <-]. split; [apply flags_le_refl|tauto]. }
  destruct (_internal_hl_read_and_store_counters env name REGION_END g l)
    as [[[r g1] l1]|] eqn:Hrun; [|discriminate].
  apply flags_le_read_and_store in Hrun. cbn [mbind option_bind].
  destruct (decide (r = PAPI_OK)); intros [= _ <- <-]; exact Hrun.
Qed.

Lemma read_user_events_life (user_events : string) (g : globals) :
  life (snd (_internal_hl_read_user_events user_events g)) = life g.
Proof.
  unfold _internal_hl_read_user_events.
  destruct (decide (0 < String.length user_events)%nat).
  - destruct (store_tokens _ _ _ _) as [names [r|]]; [reflexivity|].
    destruct (decide _); reflexivity.
  - destruct (decide _); reflexivity.
Qed.

Lemma determine_default_events_life (env : papi_env) (g : globals) :
  life (snd (_internal_hl_determine_default_events env g)) = life g.
Proof.
  unfold _internal_hl_determine_default_events. cbn [snd].
  set (g0 := set_requested_event_names _ g).
  change (life g) with (life g0). generalize g0. clear g0.
  generalize (seq 0 (length default_events)). intros idxs.
  induction idxs as [|i idxs IH]; intros g0; [reflexivity|].
  cbn [fold_left]. rewrite IH. destruct (decide _); reflexivity.
Qed.

Lemma read_events_life (env : papi_env) (events : option string) (g : globals) :
  forall retval g',
    _internal_hl_read_events env events g = Some (retval, g') ->
    life g' = life g \/ life g' = life (set_events_determined true g).
Proof.
  intros retval g'. unfold _internal_hl_read_events.
  match goal with
  | |- context [let '(retval, g) := ?first in _] => set (requested := first)
  end.
  assert (Hrequested : life (snd requested) = life g).
  { unfold requested. destruct events as [s|]; [|destruct (getenv env "PAPI_EVENTS")].
    - pose proof (read_user_events_life s g) as H.
      destruct (_internal_hl_read_user_events s g) as [r g1]. cbn [snd] in H.
      destruct (decide (r = PAPI_OK)); [exact H|].
      rewrite determine_default_events_life. exact H.
    - pose proof (read_user_events_life s g) as H.
      destruct (_internal_hl_read_user_events s g) as [r g1]. cbn [snd] in H.
      destruct (decide (r = PAPI_OK)); [exact H|].
      rewrite determine_default_events_life. exact H.
    - apply determine_default_events_life. }
  clearbody requested. destruct requested as [r g1]. cbn [snd] in Hrequested.
  destruct (decide (r = PAPI_OK)); [|intros [= _ <-]; left; exact Hrequested].
  destruct (_internal_hl_create_components env g1) as [[r2 g2]|] eqn:Hcreate;
    [|discriminate].
  apply create_components_frame in Hcreate as (_ & Hlife2). cbn [mbind option_bind].
  destruct (decide (r2 = PAPI_OK)).
  { intros [= _ <-]. right. cbn. rewrite Hlife2, Hrequested. reflexivity. }
  set (g3 := set_num_of_requested_events 0
               (set_requested_event_names None
                  (verbose_fprintf Warn_all_requested_fail g2))).
  assert (H3 : life g3 = life g).
  { unfold g3. cbn.
    pose proof (verbose_fprintf_frame Warn_all_requested_fail g2) as (_ & _ & -> & _).
    congruence. }
  clearbody g3.
  pose proof (determine_default_events_life env g3) as H4.
  destruct (_internal_hl_determine_default_events env g3) as [r4 g4]. cbn [snd] in H4.
  destruct (decide (r4 = PAPI_OK)); [|intros [= _ <-]; left; congruence].
  destruct (_internal_hl_create_components env g4) as [[r5 g5]|] eqn:Hcreate5;
    [|discriminate].
  apply create_components_frame in Hcreate5 as (_ & Hlife5). cbn [mbind option_bind].
  destruct (decide (r5 = PAPI_OK)); intros [= _ <-].
  - right. cbn. rewrite Hlife5, H4, H3. reflexivity.
  - left. congruence.
Qed.

Lemma clean_up_global_data_life (g : globals) :
  life (_internal_hl_clean_up_global_data g) = life g.
Proof.
  unfold _internal_hl_clean_up_global_data. destruct (binary_tree (sto g)); reflexivity.
Qed.

Lemma flags_le_set_events (env : papi_env) (events : option string) (g : globals) :
  forall retval g',
    _internal_PAPI_hl_set_events env events g = Some (retval, g') ->
    flags_le (life g) (life g').
Proof.
  intros retval g'. unfold _internal_PAPI_hl_set_events.
  destruct (decide (state (life g) = PAPIHL_ACTIVE));
    [|intros [= _ <-]; apply flags_le_refl].
  destruct (decide (hl_initiated (life g) = true /\ events_determined (life g) = false)).
  2:{ cbn [mbind option_bind]. destruct (decide _); intros [= _ <-]; apply flags_le_refl. }
  destruct (_internal_hl_read_events env events g) as [[r g1]|] eqn:Hread;
    [|discriminate].
  apply read_events_life in Hread. cbn [mbind option_bind].
  assert (Hle : flags_le (life g) (life g1)).
  { destruct Hread as [->| ->]; [apply flags_le_refl|]. unfold flags_le. cbn. tauto. }
  assert (Hdeact : forall gx, flags_le (life gx)
                                (life (_internal_hl_clean_up_global_data
                                         (set_state PAPIHL_DEACTIVATED gx)))).
  { intros gx. rewrite clean_up_global_data_life. unfold flags_le. cbn.
    split_and!; try tauto. discriminate. }
  destruct (decide (r = PAPI_OK)).
  - unfold _internal_hl_create_global_binary_tree.
    rewrite decide_True by reflexivity. cbn [mbind option_bind].
    destruct (decide _); intros [= _ <-]; exact Hle.
  - cbn [mbind option_bind]. intros [= _ <-].
    eapply flags_le_trans; [exact Hle|apply Hdeact].
Qed.

Lemma flags_le_print_output (env : papi_env) (g : globals) :
  forall g',
    _internal_PAPI_hl_print_output env g = Some g' ->
    flags_le (life g) (life g').
Proof.
  intros g'. unfold _internal_PAPI_hl_print_output, _internal_hl_write_output.
  destruct (decide _); [|intros [= <-]; apply flags_le_refl].
  destruct (decide _); [|intros [= <-]; apply flags_le_refl].
  assert (Hgen : forall gx, life gx = life g ->
                            flags_le (life g) (life (set_output_generated true gx))).
  { intros gx Hgx. unfold flags_le. cbn. rewrite Hgx. tauto. }
  destruct (binary_tree (sto g)) as [root|].
  2:{ intros [= <-]. apply flags_le_eq, verbose_fprintf_frame. }
  pose proof (verbose_fprintf_frame Info_print_results g) as (Hreg & _ & Hlife & _).
  set (g1 := verbose_fprintf Info_print_results g) in *. clearbody g1.
  destruct (decide (region_begin_cnt (sto g) = region_end_cnt (sto g))).
  2:{ intros [= <-]. apply Hgen, verbose_fprintf_frame. }
  destruct (decide (mkdir_output_directory env = PAPI_OK)).
  2:{ intros [= <-]. apply flags_le_eq.
      pose proof (verbose_fprintf_frame Err_cannot_create_directory g1)
        as (_ & _ & -> & _). exact Hlife. }
  destruct (fopen_succeeds env).
  2:{ intros [= <-]. apply flags_le_eq.
      match goal with
      | |- life (verbose_fprintf ?d ?gx) = _ =>
          pose proof (verbose_fprintf_frame d gx) as (_ & _ & -> & _)
      end.
      destruct (decide _); exact Hlife. }
  destruct (PAPI_list_threads env) as [r tids].
  destruct (decide (r = PAPI_OK)).
  2:{ intros [= <-]. apply flags_le_eq.
      match goal with
      | |- life (verbose_fprintf ?d ?gx) = _ =>
          pose proof (verbose_fprintf_frame d gx) as (_ & _ & -> & _)
      end.
      exact Hlife. }
  destruct (_internal_hl_json_threads _ _ _ _ _ _) as [threads|]; [|discriminate].
  cbn [mbind option_bind]. intros [= <-]. apply Hgen.
  destruct (getenv env "PAPI_REPORT"); exact Hlife.
Qed.

Section FlagsOfRegionBegin.

Variable env : papi_env.
Variable PAPI_start : eventset -> papi_retval.
Variable init : globals -> globals.

Lemma create_local_sets_same (idxs : list nat) :
  forall g lcs g' lcs' returned,
    create_local_sets env idxs g lcs = (g', lcs', returned) ->
    same_but_stdout g g'.
Proof.
  induction idxs as [|i idxs IH]; intros g lcs g' lcs' returned; cbn.
  - intros [= <- _ _]. apply same_but_stdout_refl.
  - assert (Hset : same_but_stdout g
                     (snd (fst (create_event_set env (components (reg g) !!! i) g)))).
    { unfold create_event_set. destruct (decide _); [|apply same_but_stdout_refl].
      destruct (add_local_events _ _ _) as [set [r|]]; cbn [fst snd];
        repeat case_match;
        first [apply same_but_stdout_refl | apply verbose_fprintf_same]. }
    destruct (create_event_set env (components (reg g) !!! i) g) as [[lc g1] [r|]];
      cbn [fst snd] in Hset.
    + intros [= <- _ _]. exact Hset.
    + intros Hrun. apply IH in Hrun. eapply same_but_stdout_trans; eassumption.
Qed.

Lemma create_event_sets_frame (g : globals) (l : locals) :
  forall retval g' l',
    _internal_hl_create_event_sets env PAPI_start g l = (retval, g', l') ->
    same_but_stdout g g' /\ _local_state l' = _local_state l.
Proof.
  intros retval g' l'. unfold _internal_hl_create_event_sets.
  destruct (decide _); [|intros [= _ <- <-]; split; [apply same_but_stdout_refl|reflexivity]].
  destruct (create_local_sets env _ g _) as [[g1 lcs1] returned] eqn:Hrun.
  apply create_local_sets_same in Hrun.
  destruct returned as [r|]; [intros [= _ <- <-]; split; [exact Hrun|reflexivity]|].
  destruct (start_local_sets env PAPI_start _ lcs1) as [lcs2 [r|]];
    intros [= _ <- <-]; split; first [exact Hrun|reflexivity].
Qed.

Lemma flags_le_region_begin (name : string) (g : globals) (l : locals) :
  (forall g, flags_le (life g) (life (init g))) ->
  forall retval g' l',
    PAPI_hl_region_begin env PAPI_start init name g l = Some (retval, g', l') ->
    flags_le (life g) (life g')
    /\ (_local_state l' = PAPIHL_ACTIVE -> _local_state l = PAPIHL_ACTIVE).
Proof.
  intros Hinit retval g' l'. unfold PAPI_hl_region_begin.
  destruct (decide (state (life g) = PAPIHL_DEACTIVATED)).
  { intros [= H]. eapply flags_le_deactivated_entry, H. }
  destruct (decide (hl_finalized (life g) = true)).
  { intros [= _ <- <-]. split; [apply flags_le_refl|tauto]. }
  match goal with
  | |- context [let '(returned, g) := ?first in _] => set (initiated := first)
  end.
  assert (H0 : flags_le (life g) (life (snd initiated))).
  { unfold initiated. destruct (decide _); [|apply flags_le_refl].
    unfold _internal_PAPI_hl_init.
    destruct (decide _); [|apply flags_le_refl].
    destruct (decide _); [|apply flags_le_refl].
    destruct (decide _); apply Hinit. }
  clearbody initiated. destruct initiated as [returned g0]. cbn [snd] in H0.
  destruct returned as [r|].
  { intros [= _ <- <-]. split; [exact H0|tauto]. }
  match goal with
  | |- context [if decide (events_determined (life g0) = false) then ?a else ?b] =>
      set (determined := if decide (events_determined (life g0) = false)
                         then a else b)
  end.
  assert (H1 : forall returned g1, determined = Some (returned, g1) ->
                                   flags_le (life g0) (life g1)).
  { unfold determined. intros returned g1. destruct (decide _).
    - destruct (_internal_PAPI_hl_set_events env None g0) as [[r gx]|] eqn:Hset;
        [|discriminate].
      apply flags_le_set_events in Hset. cbn [mbind option_bind].
      intros [= _ <-]. exact Hset.
    - intros [= _ <-]. apply flags_le_refl. }
  clearbody determined. destruct determined as [[returned g1]|]; [|discriminate].
  specialize (H1 returned g1 eq_refl). cbn [mbind option_bind].
  assert (H01 : flags_le (life g) (life g1))
    by (eapply flags_le_trans; eassumption).
  destruct returned as [r|].
  { intros [= _ <- <-]. split; [exact H01|tauto]. }
  match goal with
  | |- context [if decide (_local_components l = None) then ?a else ?b] =>
      set (sets := if decide (_local_components l = None) then a else b)
  end.
  assert (H2 : flags_le (life g1) (life (snd (fst sets)))
               /\ (_local_state (snd sets) = PAPIHL_ACTIVE ->
                   _local_state l = PAPIHL_ACTIVE)).
  { unfold sets. destruct (decide _); [|split; [apply flags_le_refl|tauto]].
    destruct (_internal_hl_create_event_sets env PAPI_start g1 l)
      as [[r gx] lx] eqn:Hsets.
    apply create_event_sets_frame in Hsets as (Hsame & Hstate).
    destruct (decide (r = PAPI_OK)).
    - cbn [fst snd]. rewrite Hstate. split; [apply flags_le_same, Hsame|tauto].
    - pose proof (flags_le_clean_up_all env true gx lx) as (Hle & Hl).
      destruct (_internal_hl_clean_up_all env true gx lx) as [gy ly].
      cbn [fst snd] in *. split.
      + eapply flags_le_trans; [apply flags_le_same, Hsame|exact Hle].
      + rewrite Hl. discriminate. }
  clearbody sets. destruct sets as [[returned g2] l2]. cbn [fst snd] in H2.
  destruct H2 as (H2 & Hl2).
  assert (H02 : flags_le (life g) (life g2))
    by (eapply flags_le_trans; eassumption).
  destruct returned as [r|].
  { intros [= _ <- <-]. split; [exact H02|exact Hl2]. }
  destruct (_internal_hl_read_and_store_counters env name REGION_BEGIN g2 l2)
    as [[[r g3] l3]|] eqn:Hrun; [|discriminate].
  apply flags_le_read_and_store in Hrun as (H3 & Hl3). cbn [mbind option_bind].
  destruct (decide (r = PAPI_OK)); intros [= _ <- <-];
    (split; [eapply flags_le_trans; eassumption|cbn; tauto]).
Qed.

End FlagsOfRegionBegin.

Lemma flags_le_operation (env : papi_env) (PAPI_start : eventset -> papi_retval)
    (init : globals -> globals) (op : operation) (g : globals) (l : locals) :
  (forall g, flags_le (life g) (life (init g))) ->
  forall g' l',
    run_operation env PAPI_start init op g l = Some (g', l') ->
    flags_le (life g) (life g')
    /\ (_local_state l' = PAPIHL_ACTIVE -> _local_state l = PAPIHL_ACTIVE).
Proof.
  intros Hinit g' l'. destruct op as [|events|name|name|name| | |]; cbn.
  - intros [= <- <-]. split; [|tauto]. unfold _internal_PAPI_hl_init.
    repeat destruct (decide _); cbn [snd]; first [apply Hinit|apply flags_le_refl].
  - destruct (_internal_PAPI_hl_set_events env events g) as [[r g1]|] eqn:Hrun;
      [|discriminate].
    cbn. intros [= <- <-]. split; [|tauto]. eapply flags_le_set_events, Hrun.
  - destruct (PAPI_hl_region_begin env PAPI_start init name g l)
      as [[[r g1] l1]|] eqn:Hrun; [|discriminate].
    cbn. intros [= <- <-]. eapply flags_le_region_begin; [exact Hinit|exact Hrun].
  - destruct (PAPI_hl_read env name g l) as [[[r g1] l1]|] eqn:Hrun; [|discriminate].
    cbn. intros [= <- <-]. eapply flags_le_read, Hrun.
  - destruct (PAPI_hl_region_end env name g l) as [[[r g1] l1]|] eqn:Hrun;
      [|discriminate].
    cbn. intros [= <- <-]. eapply flags_le_region_end, Hrun.
  - unfold _internal_PAPI_hl_cleanup_thread.
    destruct (decide _); [|intros [= <- <-]; split; [apply flags_le_refl|tauto]].
    destruct (decide _); [intros [= <- <-]; split; [apply flags_le_refl|tauto]|].
    pose proof (flags_le_clean_up_local_data env g l) as (Hle & Hl).
    destruct (_internal_hl_clean_up_local_data env g l) as [g1 l1].
    cbn [fst snd] in *. intros [= <- <-]. split; [exact Hle|rewrite Hl; discriminate].
  - unfold _internal_PAPI_hl_finalize.
    destruct (decide _); [|intros [= <- <-]; split; [apply flags_le_refl|tauto]].
    pose proof (flags_le_clean_up_all env true g l) as (Hle & Hl).
    destruct (_internal_hl_clean_up_all env true g l) as [g1 l1].
    cbn [fst snd] in *. intros [= <- <-]. split; [exact Hle|rewrite Hl; discriminate].
  - destruct (_internal_PAPI_hl_print_output env g) as [g1|] eqn:Hrun; [|discriminate].
    cbn. intros [= <- <-]. split; [|tauto]. eapply flags_le_print_output, Hrun.
Qed.

(** X19: the flags of the life cycle move in one direction only.  Whatever
    sequence of entry points a thread calls (init, set_events,
    region_begin, read, region_end, cleanup_thread, finalize,
    print_output), a deactivated library or thread is never active again,
    and hl_initiated, events_determined and output_generated are never
    taken back, provided that the library initialisation does not do so
    either.  hl_finalized keeps its value: no entry point writes it. *)
Theorem flags_never_reset (env : papi_env) (PAPI_start : eventset -> papi_retval)
    (init : globals -> globals) (ops : list operation) :
  (forall g, flags_le (life g) (life (init g))) ->
  forall g l g' l',
    run_operations env PAPI_start init ops g l = Some (g', l') ->
    (state (life g') = PAPIHL_ACTIVE -> state (life g) = PAPIHL_ACTIVE)
    /\ (_local_state l' = PAPIHL_ACTIVE -> _local_state l = PAPIHL_ACTIVE)
    /\ (hl_initiated (life g) = true -> hl_initiated (life g') = true)
    /\ (events_determined (life g) = true -> events_determined (life g') = true)
    /\ (output_generated (life g) = true -> output_generated (life g') = true)
    /\ hl_finalized (life g') = hl_finalized (life g).
Proof.
  intros Hinit.
  assert (Hle : forall g l g' l',
             run_operations env PAPI_start init ops g l = Some (g', l') ->
             flags_le (life g) (life g')
             /\ (_local_state l' = PAPIHL_ACTIVE -> _local_state l = PAPIHL_ACTIVE)).
  { induction ops as [|op ops IH]; intros g l g' l'; cbn.
    - intros [= <- <-]. split; [apply flags_le_refl|tauto].
    - destruct (run_operation env PAPI_start init op g l) as [[g1 l1]|] eqn:Hop;
        [|discriminate].
      cbn. intros Hrun. apply IH in Hrun as (H2 & Hl2).
      apply (flags_le_operation env PAPI_start init op g l Hinit) in Hop as (H1 & Hl1).
      split; [eapply flags_le_trans; eassumption|tauto]. }
  intros g l g' l' Hrun. apply Hle in Hrun as ((H1 & H2 & H3 & H4 & H5) & Hl).
  split_and!; assumption.
Qed.

Lemma flags_never_reset_witness :
  exists g' l',
    run_operations env_ok (fun _ => PAPI_OK) (fun g => g)
      [Op_region_begin "A"; Op_finalize; Op_region_begin "B"; Op_print_output]
      g_initiated (mk_locals None 0 true 0 0)
    = Some (g', l')
    /\ hl_finalized (life g') = false
    /\ hl_initiated (life g') = true.
Proof.
  destruct (run_operations env_ok (fun _ => PAPI_OK) (fun g => g)
              [Op_region_begin "A"; Op_finalize; Op_region_begin "B"; Op_print_output]
              g_initiated (mk_locals None 0 true 0 0)) as [[g' l']|] eqn:Hrun.
  - exists g', l'. split; [reflexivity|].
    destruct (flags_never_reset env_ok (fun _ => PAPI_OK) (fun g => g) _
                (fun g => flags_le_refl (life g)) _ _ _ _ Hrun)
      as (_ & _ & Hinit & _ & _ & Hfin).
    split; [exact Hfin|apply Hinit; reflexivity].
  - vm_compute in Hrun. discriminate Hrun.
Defined.

(** ** An event specification with an empty field *)

Lemma create_components_events_app (env : papi_env) (a b : list nat) :
  forall (vars : create_components_vars) (g : globals),
    create_components_events env (a ++ b) vars g
    = match create_components_events env a vars g with
      | Some (vars', g', None) => create_components_events env b vars' g'
      | other => other
      end.
Proof.
  induction a as [|i a IH]; intros vars g; cbn; [reflexivity|].
  destruct (create_components_event env i vars g) as [[[vars1 g1] [r|]]|];
    [reflexivity|apply IH|reflexivity].
Qed.

(** [_internal_hl_create_components] reads every one of the
    [num_of_requested_events] names: when the first [j] are initialised
    and the next one is not, it reaches that one. *)
Lemma create_components_unset (env : papi_env) (g : globals) (j : nat) :
  names_ready j (S j) g ->
  (j < num_of_requested_events (reg g))%nat ->
  (0 < max_num_of_components (reg g))%nat ->
  num_of_components (reg g) = 0%nat ->
  total_num_events (reg g) = 0%nat ->
  _internal_hl_create_components env g = None.
Proof.
  intros (names & Hnames & Hinit & Hrest) Hj Hmax Hnum Htotal.
  unfold _internal_hl_create_components.
  set (g0 := set_components (replicate (max_num_of_components (reg g)) inhabitant) g).
  assert (Hinv : create_components_inv env j (S j) (mk_vars 0 false 0) g0).
  { split_and!.
    - split_and!.
      + unfold registry_wf, slots_consistent, g0. cbn -[event_slots].
        rewrite length_replicate, Hnum, Htotal.
        split_and!; try reflexivity; lia.
      + intros i Hi. unfold g0 in Hi. cbn in Hi. lia.
      + intros i k Hi. unfold g0 in Hi. cbn in Hi. lia.
    - exists names. split_and!; [exact Hnames|exact Hinit|exact Hrest].
    - discriminate. }
  assert (Hseq : seq 0 (num_of_requested_events (reg g0))
                 = seq 0 j ++ j :: seq (S j) (num_of_requested_events (reg g) - S j)).
  { change (num_of_requested_events (reg g0)) with (num_of_requested_events (reg g)).
    replace (num_of_requested_events (reg g))
      with (j + S (num_of_requested_events (reg g) - S j))%nat at 1 by lia.
    rewrite seq_app. reflexivity. }
  rewrite Hseq, create_components_events_app.
  destruct (create_components_events_inv env j (S j) (seq 0 j) _ g0 Hinv)
    as (vars & g1 & Hrun & (_ & (names1 & Hnames1 & _ & Hrest1) & _) & _).
  { intros i Hi. apply elem_of_seq in Hi. lia. }
  rewrite Hrun. cbn [create_components_events].
  unfold create_components_event. rewrite Hnames1. cbn [mbind option_bind].
  rewrite Hrest1 by lia. reflexivity.
Qed.

(** After [_internal_hl_read_user_events] on a specification with an empty
    field, the cell after the last token is not initialised. *)
Lemma names_ready_user (s : string) (g : globals) :
  s <> EmptyString ->
  (length (strtok s ","%char) < S (count_char ","%char s))%nat ->
  exists g1,
    _internal_hl_read_user_events s g = (PAPI_OK, g1)
    /\ names_ready (length (strtok s ","%char)) (S (length (strtok s ","%char))) g1
    /\ (length (strtok s ","%char) < num_of_requested_events (reg g1))%nat
    /\ max_num_of_components (reg g1) = max_num_of_components (reg g)
    /\ num_of_components (reg g1) = num_of_components (reg g)
    /\ total_num_events (reg g1) = total_num_events (reg g).
Proof.
  intros Hne Hlen. rewrite (read_user_events_result s g Hne).
  eexists. split; [reflexivity|]. split_and!; try reflexivity; [|cbn; lia].
  eexists. split; [reflexivity|]. split.
  - intros i Hi. destruct (strtok s ","%char !! i) as [t|] eqn:Ht.
    + exists (_internal_hl_remove_spaces t).
      rewrite lookup_app_l by (rewrite length_map; exact Hi).
      rewrite list_lookup_fmap, Ht. reflexivity.
    + apply lookup_ge_None in Ht. lia.
  - intros k Hk. rewrite lookup_app_r by (rewrite length_map; lia).
    rewrite length_map. rewrite lookup_replicate_2 by lia. reflexivity.
Qed.

(** X20: an event specification with an empty field, as in [A,,B] or
    with a comma at either end, is not rejected.
    _internal_hl_read_user_events allocates one cell per comma plus one
    and fills one cell per token, so the last cells stay as malloc left
    them; _internal_hl_create_components, called on the first
    _internal_PAPI_hl_set_events, then passes such a cell to strchr.  In
    the model this read of an uninitialised pointer is the undefined
    result [None]. *)
Theorem set_events_empty_field (env : papi_env) (events : option string)
    (s : string) (g : globals) :
  user_events env events = Some s ->
  s <> EmptyString ->
  (length (strtok s ","%char) < S (count_char ","%char s))%nat ->
  registry_clean g ->
  state (life g) = PAPIHL_ACTIVE ->
  hl_initiated (life g) = true ->
  events_determined (life g) = false ->
  _internal_PAPI_hl_set_events env events g = None.
Proof.
  intros Huser Hne Hlen (Hmax & Hnum & Htotal & _) Hstate Hinit Hdet.
  unfold _internal_PAPI_hl_set_events.
  rewrite decide_True by exact Hstate.
  rewrite decide_True by (split; assumption).
  assert (Hread : _internal_hl_read_events env events g = None).
  { destruct (names_ready_user s g Hne Hlen)
      as (g1 & Hrun & Hready & Hj & Hmax1 & Hnum1 & Htotal1).
    assert (Hcomp : _internal_hl_create_components env g1 = None).
    { apply (create_components_unset env g1 _ Hready Hj); [lia| |]; congruence. }
    unfold _internal_hl_read_events.
    destruct events as [events|]; cbn in Huser.
    - injection Huser as ->. rewrite Hrun.
      rewrite !decide_True by reflexivity. rewrite Hcomp. reflexivity.
    - rewrite Huser, Hrun. rewrite !decide_True by reflexivity.
      rewrite Hcomp. reflexivity. }
  rewrite Hread. reflexivity.
Qed.

Lemma set_events_empty_field_witness :
  _internal_PAPI_hl_set_events env_ok (Some "A,,B"%string) g_initiated = None.
Proof.
  apply (set_events_empty_field env_ok (Some "A,,B"%string) "A,,B"%string
           g_initiated).
  - reflexivity.
  - discriminate.
  - vm_compute. lia.
  - split_and!; cbn; lia.
  - reflexivity.
  - reflexivity.
  - reflexivity.
Defined.
